(** * Filename Heading Sync: a shallow embedding of the plugin's core

    The development follows the plugin source: the regular-expression
    deserializer, the sanitizer, the heading locator, the two sync
    directions, the ignore filter, the event handlers and the handlers of
    the settings tab, on top of a model of the JavaScript built-ins they
    call (strings, arrays, [RegExp]).

    Modelled alphabet: a JavaScript string is a Rocq [string] read as a
    sequence of code units from 0 to 255, the blocks Basic Latin and
    Latin-1 Supplement.  White space, line terminators and case mapping
    are the ones the language gives these code units; where the upper
    case of a code unit lies outside the two blocks, [toUpperCase] is
    marked as outside the model. *)

From Stdlib Require Import ZArith Lia Ascii String List Bool.
From stdpp Require Import base option list strings gmap.

Open Scope Z_scope.
Open Scope nat_scope.

(** ** Characters *)

Module Char.

Local Open Scope char_scope.
Local Open Scope nat_scope.

Definition code (c : ascii) : nat := nat_of_ascii c.

Definition eqb (a b : ascii) : bool := Ascii.eqb a b.

Definition between (lo hi c : ascii) : bool :=
  (code lo <=? code c) && (code c <=? code hi).

(** LineTerminator of the block: LF and CR. *)
Definition isLineTerminator (c : ascii) : bool :=
  eqb c "010" || eqb c "013".

(** WhiteSpace and LineTerminator of the alphabet: TAB, LF, VT, FF, CR,
    SP and the no-break space.  It is the set [trim] strips and the set
    the class escape \s denotes. *)
Definition isWhiteSpace (c : ascii) : bool :=
  between "009" "013" c || eqb c " " || eqb c "160".

Definition isDigit (c : ascii) : bool := between "0" "9" c.

(** The letters a to z and A to Z. *)
Definition isLower (c : ascii) : bool := between "a" "z" c.

Definition isUpper (c : ascii) : bool := between "A" "Z" c.

(** The cased letters of the Latin-1 Supplement that have their other
    case in it: the upper-case letters from 192 to 222 but the
    multiplication sign, the lower-case letters from 224 to 254 but the
    division sign. *)
Definition isUpperLatin (c : ascii) : bool :=
  between "192" "214" c || between "216" "222" c.

Definition isLowerLatin (c : ascii) : bool :=
  between "224" "246" c || between "248" "254" c.

(** The word characters of \w and \b. *)
Definition isWordChar (c : ascii) : bool :=
  isLower c || isUpper c || isDigit c || eqb c "_".

(** The code unit [toLowerCase] turns [c] into: every upper-case letter
    of the alphabet has its lower case in the alphabet. *)
Definition toLowerCase (c : ascii) : ascii :=
  if isUpper c || isUpperLatin c then ascii_of_nat (code c + 32) else c.

(** Canonicalize of the matcher (no u flag): the upper case of [c] where
    it is one code unit.  The upper case of the micro sign (181) and of
    the y with diaeresis (255) is a code unit outside the alphabet that
    no other code unit of the alphabet has for its upper case, and the
    sharp s (223), with an upper case of two code units, is its own
    canonical form: the three stand for themselves. *)
Definition canonicalize (c : ascii) : ascii :=
  if isLower c || isLowerLatin c then ascii_of_nat (code c - 32) else c.

(** The code units [toUpperCase] turns [c] into: SS for the sharp s,
    [None] for the micro sign and the y with diaeresis, whose upper case
    lies outside the alphabet. *)
Definition toUpperCase (c : ascii) : option (list ascii) :=
  if eqb c "181" || eqb c "255" then None
  else if eqb c "223" then Some ["S"; "S"]
  else Some [canonicalize c].

End Char.

(** ** Completions

    A call either returns a value or throws.  [Unmodelled] is no error of
    the language: it marks a regular expression whose text uses syntax
    outside the modelled subset, or a string whose upper case leaves the
    modelled alphabet, about which the model says nothing. *)

Inductive Error : Type :=
| SyntaxError
| TypeError
| Unmodelled.

Inductive Completion (A : Type) : Type :=
| Return (a : A)
| Throw (e : Error).
Arguments Return {A} a.
Arguments Throw {A} e.

Global Instance completion_ret : MRet Completion := λ A a, Return a.

Global Instance completion_bind : MBind Completion := λ A B f c,
  match c with
  | Return a => f a
  | Throw e => Throw e
  end.

(** ** Regular expressions

    The abstract syntax of the supported patterns and the backtracking
    matcher of the language specification (continuation-passing matchers,
    RepeatMatcher with its empty check, captures reset on each iteration). *)

Module RegExp.

Local Open Scope char_scope.
Local Open Scope nat_scope.

Inductive ClassItem : Type :=
| CiChar (c : ascii)
| CiRange (lo hi : ascii)
| CiDigit (neg : bool)
| CiSpace (neg : bool)
| CiWord (neg : bool).

Inductive Regex : Type :=
| Empty
| Char (c : ascii)
| Dot
| CharClass (invert : bool) (items : list ClassItem)
| AssertStart
| AssertEnd
| AssertWord (neg : bool)
| Group (idx : nat) (r : Regex)
| Seq (r1 r2 : Regex)
| Alt (r1 r2 : Regex)
| Repeat (min : nat) (max : option nat) (greedy : bool) (r : Regex).

Record Flags : Type := mkFlags {
  hasIndices : bool;  (* d *)
  global : bool;      (* g *)
  ignoreCase : bool;  (* i *)
  multiline : bool;   (* m *)
  dotAll : bool;      (* s *)
  sticky : bool       (* y *)
}.

(** A compiled regular expression object (its lastIndex is 0: every
    object of the plugin is used once, right after its creation). *)
Record t : Type := mk {
  pattern : Regex;
  groups : nat;
  flags : Flags
}.

(** The state of a match: the input is split at endIndex into the code
    units before it (nearest first) and those from it on. *)
Record MatchState : Type := mkState {
  before : list ascii;
  ahead : list ascii;
  captures : list (option (list ascii))
}.

Definition Continuation : Type := MatchState → option MatchState.
Definition Matcher : Type := MatchState → Continuation → option MatchState.

Definition itemHas (it : ClassItem) (c : ascii) : bool :=
  match it with
  | CiChar a => Char.eqb a c
  | CiRange lo hi => Char.between lo hi c
  | CiDigit neg => xorb neg (Char.isDigit c)
  | CiSpace neg => xorb neg (Char.isWhiteSpace c)
  | CiWord neg => xorb neg (Char.isWordChar c)
  end.

(** Membership of [c] in the character set, up to Canonicalize when the
    i flag is set: some member of the set has the canonical form of [c]. *)
Definition setHas (fl : Flags) (items : list ClassItem) (c : ascii) : bool :=
  existsb (λ it,
    itemHas it c ||
    (ignoreCase fl &&
       (itemHas it (Char.canonicalize c) || itemHas it (Char.toLowerCase c))))
    items.

Definition step (x : MatchState) (c : ascii) (rest : list ascii) : MatchState :=
  mkState (c :: before x) rest (captures x).

Definition characterSetMatcher (fl : Flags) (invert : bool)
    (items : list ClassItem) : Matcher :=
  λ x k,
    match ahead x with
    | [] => None
    | c :: rest =>
        if xorb invert (setHas fl items c) then k (step x c rest) else None
    end.

Definition atStart (fl : Flags) (x : MatchState) : bool :=
  match before x with
  | [] => true
  | c :: _ => multiline fl && Char.isLineTerminator c
  end.

Definition atEnd (fl : Flags) (x : MatchState) : bool :=
  match ahead x with
  | [] => true
  | c :: _ => multiline fl && Char.isLineTerminator c
  end.

Definition atWordBoundary (x : MatchState) : bool :=
  xorb (from_option Char.isWordChar false (head (before x)))
       (from_option Char.isWordChar false (head (ahead x))).

(** The capture groups (left-parenthesis indices) inside a pattern. *)
Fixpoint groupsOf (r : Regex) : list nat :=
  match r with
  | Group i r => i :: groupsOf r
  | Seq r1 r2 | Alt r1 r2 => groupsOf r1 ++ groupsOf r2
  | Repeat _ _ _ r => groupsOf r
  | _ => []
  end.

Definition resetCaptures (parens : list nat) (x : MatchState) : MatchState :=
  mkState (before x) (ahead x)
          (foldr (λ i caps, <[i := None]> caps) (captures x) parens).

(** The code units consumed between state [x] and the later state [y]. *)
Definition consumed (x y : MatchState) : list ascii :=
  take (length (ahead x) - length (ahead y)) (ahead x).

Definition closeGroup (idx : nat) (x y : MatchState) : MatchState :=
  mkState (before y) (ahead y) (<[idx := Some (consumed x y)]> (captures y)).

(** RepeatMatcher.  [fuel] bounds the number of iterations: an iteration
    either counts down [min] or, by the empty check, consumes input. *)
Fixpoint repeatMatcher (m : Matcher) (parens : list nat) (fuel : nat)
    (min : nat) (max : option nat) (greedy : bool) : Matcher :=
  λ x k,
    match fuel with
    | O => None
    | S fuel' =>
        match max with
        | Some O => k x
        | _ =>
            let d : Continuation := λ y,
              if (min =? 0) && (length (ahead y) =? length (ahead x))
              then None
              else repeatMatcher m parens fuel' (pred min) (pred <$> max)
                     greedy y k in
            let xr := resetCaptures parens x in
            if negb (min =? 0) then m xr d
            else if greedy then
              match m xr d with
              | Some z => Some z
              | None => k x
              end
            else
              match k x with
              | Some z => Some z
              | None => m xr d
              end
        end
    end.

Fixpoint compile (fl : Flags) (r : Regex) : Matcher :=
  match r with
  | Empty => λ x k, k x
  | Char c => characterSetMatcher fl false [CiChar c]
  | Dot => λ x k,
      match ahead x with
      | [] => None
      | c :: rest =>
          if dotAll fl || negb (Char.isLineTerminator c)
          then k (step x c rest) else None
      end
  | CharClass invert items => characterSetMatcher fl invert items
  | AssertStart => λ x k, if atStart fl x then k x else None
  | AssertEnd => λ x k, if atEnd fl x then k x else None
  | AssertWord neg => λ x k,
      if xorb neg (atWordBoundary x) then k x else None
  | Group idx r => λ x k, compile fl r x (λ y, k (closeGroup idx x y))
  | Seq r1 r2 => λ x k, compile fl r1 x (λ y, compile fl r2 y k)
  | Alt r1 r2 => λ x k,
      match compile fl r1 x k with
      | Some z => Some z
      | None => compile fl r2 x k
      end
  | Repeat min max greedy r => λ x k,
      repeatMatcher (compile fl r) (groupsOf r)
        (S (min + length (ahead x))) min max greedy x k
  end.

(** One match attempt at the position that splits the input into
    [bef] (reversed) and [aft]; capture 0 is unused, as in the language. *)
Definition matchAt (re : t) (bef aft : list ascii) : option MatchState :=
  compile (flags re) (pattern re)
    (mkState bef aft (replicate (S (groups re)) None)) Some.

(** The result of a successful exec: the array of the whole match and
    the captures, with its index property. *)
Record MatchResult : Type := mkResult {
  index : nat;
  matched : list ascii;
  submatches : list (option (list ascii))
}.

Definition result (bef aft : list ascii) (y : MatchState) : MatchResult :=
  mkResult (length bef)
           (take (length aft - length (ahead y)) aft)
           (drop 1 (captures y)).

(** RegExpBuiltinExec from lastIndex 0: the first position, left to
    right, at which the matcher succeeds; a sticky expression only
    tries position 0. *)
Fixpoint search (re : t) (bef aft : list ascii) : option MatchResult :=
  match matchAt re bef aft with
  | Some y => Some (result bef aft y)
  | None =>
      if sticky (flags re) then None
      else match aft with
           | [] => None
           | c :: rest => search re (c :: bef) rest
           end
  end.

Definition exec (re : t) (s : list ascii) : option MatchResult :=
  search re [] s.

(** [Symbol.replace] with a replacement text free of $ patterns, for an
    expression without the g flag: the first match is replaced. *)
Fixpoint replaceFirst (re : t) (repl bef aft : list ascii) : list ascii :=
  match matchAt re bef aft with
  | Some y => repl ++ ahead y
  | None =>
      if sticky (flags re) then aft
      else match aft with
           | [] => []
           | c :: rest => c :: replaceFirst re repl (c :: bef) rest
           end
  end.

(** The same with the g flag: every match, left to right.  [skip] counts
    the code units of the previous match still to be dropped; after an
    empty match lastIndex advances by one, so the code unit at the match
    position is kept and no second match is tried there. *)
Fixpoint replaceAll (re : t) (repl bef aft : list ascii) (skip : nat)
    : list ascii :=
  match aft with
  | [] =>
      match skip with
      | O => match matchAt re bef [] with
             | Some _ => repl
             | None => []
             end
      | S _ => []
      end
  | c :: rest =>
      match skip with
      | S n => replaceAll re repl (c :: bef) rest n
      | O =>
          match matchAt re bef aft with
          | Some y =>
              repl ++
              match length aft - length (ahead y) with
              | O => c :: replaceAll re repl (c :: bef) rest 0
              | S n => replaceAll re repl (c :: bef) rest n
              end
          | None =>
              if sticky (flags re) then aft
              else c :: replaceAll re repl (c :: bef) rest 0
          end
      end
  end.

Definition replace (re : t) (s repl : list ascii) : list ascii :=
  if global (flags re) then replaceAll re repl [] s 0
  else replaceFirst re repl [] s.

(** *** Pattern text

    The parser of the pattern grammar without the u and v flags, with the
    web-compatibility extensions (a closing bracket or brace is a pattern
    character, any escaped character but a few stands for itself).
    Outside the subset and reported as [Unmodelled]: look-around, named
    groups, back-references and legacy octal escapes, and the escapes
    c, x, u and k. *)

Inductive ClassAtom : Type :=
| CaChar (c : ascii)
| CaSet (it : ClassItem).

Definition atomItem (a : ClassAtom) : ClassItem :=
  match a with
  | CaChar c => CiChar c
  | CaSet it => it
  end.

(** The character or set an escape letter shared by atoms and classes
    denotes; [None] for the letters that differ between the two. *)
Definition commonEscape (e : ascii) (rest : list ascii)
    : option (Completion ClassAtom) :=
  match e with
  | "d" => Some (Return (CaSet (CiDigit false)))
  | "D" => Some (Return (CaSet (CiDigit true)))
  | "s" => Some (Return (CaSet (CiSpace false)))
  | "S" => Some (Return (CaSet (CiSpace true)))
  | "w" => Some (Return (CaSet (CiWord false)))
  | "W" => Some (Return (CaSet (CiWord true)))
  | "f" => Some (Return (CaChar "012"))
  | "n" => Some (Return (CaChar "010"))
  | "r" => Some (Return (CaChar "013"))
  | "t" => Some (Return (CaChar "009"))
  | "v" => Some (Return (CaChar "011"))
  | "0" =>
      match rest with
      | c :: _ => if Char.isDigit c then Some (Throw Unmodelled)
                  else Some (Return (CaChar "000"))
      | [] => Some (Return (CaChar "000"))
      end
  | "c" | "x" | "u" | "k" => Some (Throw Unmodelled)
  | "b" | "B" => None
  | _ => if Char.isDigit e then Some (Throw Unmodelled)
         else Some (Return (CaChar e))
  end.

Definition classEscape (e : ascii) (rest : list ascii)
    : Completion ClassAtom :=
  match commonEscape e rest with
  | Some r => r
  | None => if Char.eqb e "b" then Return (CaChar "008")
            else Return (CaChar e)
  end.

Definition classAtom (s : list ascii) : Completion (ClassAtom * list ascii) :=
  match s with
  | [] => Throw SyntaxError
  | "\" :: [] => Throw SyntaxError
  | "\" :: e :: rest => a ← classEscape e rest; Return (a, rest)
  | c :: rest => Return (CaChar c, rest)
  end.

(** The class contents up to the closing bracket. *)
Fixpoint classItems (fuel : nat) (s : list ascii) (acc : list ClassItem)
    : Completion (list ClassItem * list ascii) :=
  match fuel with
  | O => Throw Unmodelled
  | S fuel' =>
      match s with
      | [] => Throw SyntaxError
      | "]" :: rest => Return (rev acc, rest)
      | _ =>
          p ← classAtom s;
          let '(a, s1) := p in
          match s1 with
          | "-" :: "]" :: _ | "-" :: [] =>
              classItems fuel' s1 (atomItem a :: acc)
          | "-" :: s2 =>
              q ← classAtom s2;
              let '(b, s3) := q in
              match a, b with
              | CaChar lo, CaChar hi =>
                  if Char.code lo <=? Char.code hi
                  then classItems fuel' s3 (CiRange lo hi :: acc)
                  else Throw SyntaxError
              | _, _ =>
                  classItems fuel' s3
                    (atomItem b :: CiChar "-" :: atomItem a :: acc)
              end
          | _ => classItems fuel' s1 (atomItem a :: acc)
          end
      end
  end.

Definition characterClass (s : list ascii) : Completion (Regex * list ascii) :=
  let '(invert, s) :=
    match s with
    | "^" :: rest => (true, rest)
    | _ => (false, s)
    end in
  p ← classItems (S (length s)) s [];
  Return (CharClass invert p.1, p.2).

(** A run of decimal digits and its value. *)
Fixpoint digits (s : list ascii) (count value : nat) : nat * nat * list ascii :=
  match s with
  | c :: rest =>
      if Char.isDigit c
      then digits rest (S count) (10 * value + (Char.code c - 48))
      else (count, value, s)
  | [] => (count, value, s)
  end.

Inductive Braces : Type :=
| NoBraces
| Bounds (min : nat) (max : option nat) (rest : list ascii)
| BoundsTooLong.

(** The text after an opening brace, read as the bounds of a quantifier;
    bounds of more than three digits are outside the subset. *)
Definition braces (s : list ascii) : Braces :=
  let '(n1, lo, s1) := digits s 0 0 in
  if n1 =? 0 then NoBraces else
  match s1 with
  | "}" :: rest =>
      if 3 <? n1 then BoundsTooLong else Bounds lo (Some lo) rest
  | "," :: "}" :: rest =>
      if 3 <? n1 then BoundsTooLong else Bounds lo None rest
  | "," :: s2 =>
      let '(n2, hi, s3) := digits s2 0 0 in
      if n2 =? 0 then NoBraces else
      match s3 with
      | "}" :: rest =>
          if (3 <? n1) || (3 <? n2) then BoundsTooLong
          else Bounds lo (Some hi) rest
      | _ => NoBraces
      end
  | _ => NoBraces
  end.

Definition lazyMark (s : list ascii) : bool * list ascii :=
  match s with
  | "?" :: rest => (false, rest)
  | _ => (true, s)
  end.

(** The quantifier that may follow an atom. *)
Definition quantified (atom : Regex) (s : list ascii)
    : Completion (Regex * list ascii) :=
  match s with
  | "*" :: rest =>
      let '(g, rest) := lazyMark rest in Return (Repeat 0 None g atom, rest)
  | "+" :: rest =>
      let '(g, rest) := lazyMark rest in Return (Repeat 1 None g atom, rest)
  | "?" :: rest =>
      let '(g, rest) := lazyMark rest in
      Return (Repeat 0 (Some 1) g atom, rest)
  | "{" :: rest =>
      match braces rest with
      | NoBraces => Return (atom, s)
      | BoundsTooLong => Throw Unmodelled
      | Bounds lo hi rest =>
          if from_option (λ hi, hi <? lo) false hi then Throw SyntaxError
          else let '(g, rest) := lazyMark rest in
               Return (Repeat lo hi g atom, rest)
      end
  | _ => Return (atom, s)
  end.

(** An assertion takes no quantifier. *)
Definition unquantified (a : Regex) (s : list ascii)
    : Completion (Regex * list ascii) :=
  match s with
  | "*" :: _ | "+" :: _ | "?" :: _ => Throw SyntaxError
  | "{" :: rest =>
      match braces rest with
      | NoBraces => Return (a, s)
      | _ => Throw SyntaxError
      end
  | _ => Return (a, s)
  end.

Definition atomEscape (e : ascii) (rest : list ascii)
    : Completion (Regex * list ascii) :=
  match commonEscape e rest with
  | Some r =>
      a ← r;
      quantified match a with
                 | CaChar c => Char c
                 | CaSet it => CharClass false [it]
                 end rest
  | None => unquantified (AssertWord (Char.eqb e "B")) rest
  end.

Definition sequence (terms : list Regex) : Regex :=
  match rev terms with
  | [] => Empty
  | t :: ts => foldl Seq t ts
  end.

Definition alternatives (alts : list Regex) (terms : list Regex) : Regex :=
  match rev alts with
  | [] => sequence terms
  | a :: more => Alt (foldl Alt a more) (sequence terms)
  end.

(** A disjunction, up to the end of the text or an unmatched closing
    parenthesis; [n] counts the capture groups opened so far, [alts] and
    [terms] hold the alternatives and the terms already read (last
    first). *)
Fixpoint disjunction (fuel : nat) (s : list ascii) (n : nat)
    (alts terms : list Regex) : Completion (Regex * list ascii * nat) :=
  match fuel with
  | O => Throw Unmodelled
  | S fuel' =>
      let continue (p : Regex * list ascii) (n : nat) :=
        disjunction fuel' p.2 n alts (p.1 :: terms) in
      match s with
      | [] | ")" :: _ => Return (alternatives alts terms, s, n)
      | "|" :: rest =>
          disjunction fuel' rest n (sequence terms :: alts) []
      | "(" :: "?" :: ":" :: rest =>
          g ← disjunction fuel' rest n [] [];
          let '(r, s1, n1) := g in
          match s1 with
          | ")" :: s2 => p ← quantified r s2; continue p n1
          | _ => Throw SyntaxError
          end
      | "(" :: "?" :: _ => Throw Unmodelled
      | "(" :: rest =>
          g ← disjunction fuel' rest (S n) [] [];
          let '(r, s1, n1) := g in
          match s1 with
          | ")" :: s2 => p ← quantified (Group (S n) r) s2; continue p n1
          | _ => Throw SyntaxError
          end
      | "*" :: _ | "+" :: _ | "?" :: _ => Throw SyntaxError
      | "{" :: rest =>
          match braces rest with
          | NoBraces => p ← quantified (Char "{") rest; continue p n
          | _ => Throw SyntaxError
          end
      | "^" :: rest => p ← unquantified AssertStart rest; continue p n
      | "$" :: rest => p ← unquantified AssertEnd rest; continue p n
      | "." :: rest => p ← quantified Dot rest; continue p n
      | "[" :: rest =>
          c ← characterClass rest;
          p ← quantified c.1 c.2; continue p n
      | "\" :: [] => Throw SyntaxError
      | "\" :: e :: rest => p ← atomEscape e rest; continue p n
      | c :: rest => p ← quantified (Char c) rest; continue p n
      end
  end.

Definition parsePattern (p : list ascii) : Completion (Regex * nat) :=
  g ← disjunction (S (length p)) p 0 [] [];
  let '(r, rest, n) := g in
  match rest with
  | [] => Return (r, n)
  | _ => Throw SyntaxError
  end.

(** The flags text: each of d, g, i, m, s, y at most once; u and v switch
    to the Unicode grammar, outside the subset; anything else is a
    syntax error. *)
Fixpoint parseFlags (f : list ascii) (fl : Flags) : Completion Flags :=
  match f with
  | [] => Return fl
  | c :: rest =>
      let once (seen : bool) (fl' : Flags) :=
        if seen then Throw SyntaxError else parseFlags rest fl' in
      match c with
      | "d" => once (hasIndices fl)
          (mkFlags true (global fl) (ignoreCase fl) (multiline fl)
                   (dotAll fl) (sticky fl))
      | "g" => once (global fl)
          (mkFlags (hasIndices fl) true (ignoreCase fl) (multiline fl)
                   (dotAll fl) (sticky fl))
      | "i" => once (ignoreCase fl)
          (mkFlags (hasIndices fl) (global fl) true (multiline fl)
                   (dotAll fl) (sticky fl))
      | "m" => once (multiline fl)
          (mkFlags (hasIndices fl) (global fl) (ignoreCase fl) true
                   (dotAll fl) (sticky fl))
      | "s" => once (dotAll fl)
          (mkFlags (hasIndices fl) (global fl) (ignoreCase fl) (multiline fl)
                   true (sticky fl))
      | "y" => once (sticky fl)
          (mkFlags (hasIndices fl) (global fl) (ignoreCase fl) (multiline fl)
                   (dotAll fl) true)
      | "u" | "v" => _ ← parseFlags rest fl; Throw Unmodelled
      | _ => Throw SyntaxError
      end
  end.

Definition noFlags : Flags := mkFlags false false false false false false.

(** [new RegExp(pattern, flags)] on the code units of its arguments:
    the flags are checked first, then the pattern is parsed. *)
Definition create (p f : list ascii) : Completion t :=
  fl ← parseFlags f noFlags;
  r ← parsePattern p;
  Return (mk r.1 r.2 fl).

End RegExp.

(** ** Strings and arrays of the language *)

Module Js.

Definition units (s : string) : list ascii := list_ascii_of_string s.
Definition text (l : list ascii) : string := string_of_list_ascii l.

(** [new RegExp(pattern, flags)]; an undefined argument stands for the
    empty text. *)
Definition newRegExp (pattern flags : option string) : Completion RegExp.t :=
  RegExp.create (units (default "" pattern)) (units (default "" flags)).

(** A regular-expression literal of the source: its text is known to
    parse, so the object is computed once and for all. *)
Definition literal (pattern flags : string) : RegExp.t :=
  match newRegExp (Some pattern) (Some flags) with
  | Return re => re
  | Throw _ => RegExp.mk RegExp.Empty 0 RegExp.noFlags
  end.

(** [re.exec(s)] on a fresh object: the array of the match and its
    captures, [None] for null. *)
Definition exec (re : RegExp.t) (s : string) : option (list (option string)) :=
  match RegExp.exec re (units s) with
  | Some r =>
      Some (Some (text (RegExp.matched r))
            :: map (option_map text) (RegExp.submatches r))
  | None => None
  end.

(** [s.match(re)] for an expression without the g flag is [re.exec(s)]. *)
Definition match_ (s : string) (re : RegExp.t) : option (list (option string)) :=
  exec re s.

(** [s.replace(re, repl)] for a replacement text without $ patterns. *)
Definition replace (s : string) (re : RegExp.t) (repl : string) : string :=
  text (RegExp.replace re (units s) (units repl)).

Fixpoint trimStart (l : list ascii) : list ascii :=
  match l with
  | c :: rest => if Char.isWhiteSpace c then trimStart rest else l
  | [] => []
  end.

Definition trimEnd (l : list ascii) : list ascii :=
  reverse (trimStart (reverse l)).

(** [s.trim()] *)
Definition trim (s : string) : string :=
  text (trimEnd (trimStart (units s))).

(** [s.toUpperCase()]: code unit by code unit; outside the model when
    the upper case of one of them leaves the alphabet. *)
Definition toUpperCase (s : string) : Completion string :=
  match mapM Char.toUpperCase (units s) with
  | Some upper => Return (text (concat upper))
  | None => Throw Unmodelled
  end.

(** [s.toLowerCase()] *)
Definition toLowerCase (s : string) : string :=
  text (Char.toLowerCase <$> units s).

(** [s[0]]: the string of the first code unit, [None] for undefined. *)
Definition first (s : string) : option string :=
  match s with
  | String c _ => Some (String c "")
  | EmptyString => None
  end.

(** [s.slice(1)] *)
Definition slice1 (s : string) : string :=
  match s with
  | String _ rest => rest
  | EmptyString => ""
  end.

(** [s.startsWith(p)] *)
Fixpoint startsWith (s p : string) {struct p} : bool :=
  match p, s with
  | EmptyString, _ => true
  | String a p', String b s' => Char.eqb a b && startsWith s' p'
  | String _ _, EmptyString => false
  end.

Definition newline : string := String "010"%char "".

(** [s.split("\n")]: the lines of [s], at least one. *)
Fixpoint splitLines (s : string) : list string :=
  match s with
  | EmptyString => [""]
  | String c rest =>
      if Char.eqb c "010"%char then "" :: splitLines rest
      else match splitLines rest with
           | l :: ls => String c l :: ls
           | [] => [String c ""]
           end
  end.

(** [lines.join("\n")] *)
Fixpoint joinLines (lines : list string) : string :=
  match lines with
  | [] => ""
  | [l] => l
  | l :: ls => l +:+ newline +:+ joinLines ls
  end.

(** [a.indexOf(x, from)] for [from] within the array or just past it;
    -1 when [x] is not found. *)
Fixpoint indexFrom (a : list string) (x : string) (i : nat) : Z :=
  match a with
  | [] => (-1)%Z
  | y :: rest => if decide (y = x) then Z.of_nat i else indexFrom rest x (S i)
  end.

Definition indexOf (a : list string) (x : string) (from : nat) : Z :=
  indexFrom (drop from a) x from.

(** The [flags] getter: the letters of the flags that are set, in the
    order d, g, i, m, s, y. *)
Definition flagsOf (re : RegExp.t) : string :=
  let fl := RegExp.flags re in
  let letter (set : bool) (c : string) : string := if set then c else "" in
  letter (RegExp.hasIndices fl) "d" +:+ letter (RegExp.global fl) "g" +:+
  letter (RegExp.ignoreCase fl) "i" +:+ letter (RegExp.multiline fl) "m" +:+
  letter (RegExp.dotAll fl) "s" +:+ letter (RegExp.sticky fl) "y".

(** The [source] getter of an object created from the text [pattern]:
    the empty text reads (?:), a text free of slashes and line terminators
    reads as it is.  The escaping of the other texts is left to the
    engine by the language and is outside the model. *)
Definition source (pattern : string) : Completion string :=
  if String.eqb pattern "" then Return "(?:)"
  else if forallb (λ c, negb (Char.eqb c "/"%char) &&
                        negb (Char.isLineTerminator c)) (units pattern)
       then Return pattern
       else Throw Unmodelled.

(** [re.toString()] for the object [re] that [new RegExp(pattern, _)]
    returned: its source and its flags between slashes. *)
Definition toString (pattern : option string) (re : RegExp.t)
    : Completion string :=
  src ← source (default "" pattern);
  Return ("/" +:+ src +:+ "/" +:+ flagsOf re).

End Js.

(** ** The host application

    The vault, the metadata cache, the notices shown to the user and the
    rename requests made to the file manager. *)

(** A value of a parsed front-matter block. *)
Inductive Value : Type :=
| VNull
| VBool (b : bool)
| VNumber (n : Z)
| VString (s : string)
| VObject.  (* an array or a mapping *)

(** ToBoolean *)
Definition truthy (v : Value) : bool :=
  match v with
  | VNull => false
  | VBool b => b
  | VNumber n => negb (n =? 0)%Z
  | VString s => negb (String.eqb s "")
  | VObject => true
  end.

(** [TFile]; [parent] is the path of the parent folder, [None] for null. *)
Record TFile : Type := mkFile {
  path : string;
  basename : string;
  extension : string;
  parent : option string
}.

(** [CachedMetadata], of which the plugin reads the front matter only. *)
Record CachedMetadata : Type := mkCache {
  frontmatter : option (gmap string Value)
}.

Record Host : Type := mkHost {
  files : gmap string string;
  fileCache : gmap string CachedMetadata;
  notices : list string;
  renames : list (string * string)
}.

(** An action of the plugin on the host: it returns or throws, and leaves
    the host in a new state either way. *)
Definition Action (A : Type) : Type := Host → Completion A * Host.

Global Instance action_ret : MRet Action := λ A a h, (Return a, h).

Global Instance action_bind : MBind Action := λ A B f m h,
  match m h with
  | (Return a, h') => f a h'
  | (Throw e, h') => (Throw e, h')
  end.

Definition throw {A : Type} (e : Error) : Action A := λ h, (Throw e, h).

Definition lift {A : Type} (c : Completion A) : Action A := λ h, (c, h).

(** [new Notice(message)] *)
Definition notice (message : string) : Action unit :=
  λ h, (Return (),
        mkHost (files h) (fileCache h) (notices h ++ [message]) (renames h)).

(** [vault.read(file).then(callback)]: the call returns; the callback
    runs on the content of the file, and what it throws rejects a promise
    that nobody holds, so that only what it has done to the host until
    then is left of it.  When the read fails the callback never runs. *)
Definition vaultReadThen (file : TFile) (callback : string → Action unit)
    : Action unit :=
  λ h, match files h !! path file with
       | Some data => (Return (), (callback data h).2)
       | None => (Return (), h)
       end.

(** [vault.modify(file, data)] *)
Definition vaultModify (file : TFile) (data : string) : Action unit :=
  λ h, (Return (),
        mkHost (<[path file := data]> (files h)) (fileCache h) (notices h)
               (renames h)).

(** [fileManager.renameFile(file, newPath)]: the request is recorded; what
    the host does with it is its own business. *)
Definition renameFile (file : TFile) (newPath : string) : Action unit :=
  λ h, (Return (),
        mkHost (files h) (fileCache h) (notices h)
               (renames h ++ [(path file, newPath)])).

(** [metadataCache.getFileCache(file)] *)
Definition getFileCache (file : TFile) : Action (option CachedMetadata) :=
  λ h, (Return (fileCache h !! path file), h).

(** ** The plugin *)

Record Settings : Type := mkSettings {
  userIllegalSymbols : string;
  fileIgnoreRegexen : list string
}.

Definition DEFAULT_SETTINGS : Settings :=
  mkSettings "" ["/.*.excalidraw.md$/g"].

(** Symbols to exclude for file naming conventions *)
Definition stockIllegalSymbols : RegExp.t :=
  Eval vm_compute in Js.literal "[\\/:|#^[\]]|\.$" "g".

(** The expression [deserializeRegExp] takes its argument apart with. *)
Definition serializedRegExp : RegExp.t :=
  Eval vm_compute in Js.literal "\/(.*)?\/([a-z]*)" "".

Definition quote : string := String "034"%char "".

(** Deserialize a RegExp string into an actual RegExp object *)
Definition deserializeRegExp (regExpString : string) : Action RegExp.t :=
  match Js.match_ regExpString serializedRegExp with
  | Some match_ =>
      lift (Js.newRegExp (mjoin (match_ !! 1)) (mjoin (match_ !! 2)))
  | None =>
      notice ("Invalid RegExp string: " +:+ quote +:+ regExpString +:+ quote) ;;
      lift (Js.newRegExp (Some "$^") (Some "g"))
  end.

Section Plugin.

(** [this.settings] *)
Variable settings : Settings.

(** Returns a heading with illegal characters removed *)
Definition sanitizeHeading (heading : string) : Action string :=
  let heading := Js.replace heading stockIllegalSymbols "" in
  re ← deserializeRegExp (userIllegalSymbols settings);
  let heading := Js.replace heading re "" in
  let heading := Js.trim heading in
  mret heading.

(** Returns the line number of the first line after the yaml.
    If there is no yaml returns 0 *)
Definition getStartLine (lines : list string) : Z :=
  let startingLine := 0%Z in
  if decide (lines !! 0 = Some "---")
  then (Js.indexOf lines "---" 1 + 1)%Z
  else startingLine.

(** The loop of [getHeadingLine] over the lines from index [i] on. *)
Fixpoint scanHeading (rest : list string) (i : nat) : Z :=
  match rest with
  | [] => (-1)%Z
  | line :: rest' =>
      if Js.startsWith line "# " then Z.of_nat i
      else scanHeading rest' (S i)
  end.

(** Returns the linenumber of the first lvl 1 heading.
    If no heading is found returns -1. *)
Definition getHeadingLine (lines : list string) : Z :=
  let startLine := Z.to_nat (getStartLine lines) in
  scanHeading (drop startLine lines) startLine.

(** Syncs the Filename to the first lvl 1 heading *)
Definition handleSyncFilenameToHeading (file : TFile) : Action unit :=
  sanitizedHeading ← sanitizeHeading (basename file);
  let heading := Js.replace sanitizedHeading (Js.literal "-" "g") " " in
  match Js.first heading with
  | None => throw TypeError
  | Some initial =>
      initial ← lift (Js.toUpperCase initial);
      let heading := "# " +:+ initial +:+ Js.slice1 heading in
      vaultReadThen file (λ data,
        let lines := Js.splitLines data in
        let headingLine := getHeadingLine lines in
        let lines :=
          if decide (headingLine ≠ (-1)%Z)
          then <[Z.to_nat headingLine := heading]> lines
          else heading :: lines in
        let data := Js.joinLines lines in
        vaultModify file data)
  end.

(** Syncs the first lvl 1 heading to the filename.
    If no heading is found creates a first level heading based on the
    file name *)
Definition handleSyncHeadingToFilename (file : TFile) : Action unit :=
  vaultReadThen file (λ data,
    let lines := Js.splitLines data in
    let headingLine := getHeadingLine lines in
    if decide (headingLine ≠ (-1)%Z) then
      heading ← sanitizeHeading (default "" (lines !! Z.to_nat headingLine));
      let heading := Js.replace heading (Js.literal " " "g") "-" in
      let heading := Js.toLowerCase heading in
      let newPath :=
        default "undefined" (parent file) +:+ "/" +:+ heading +:+ ".md" in
      renameFile file newPath
    else handleSyncFilenameToHeading file).

(** The loop of [ignoreFile] over the ignore expressions. *)
Fixpoint ignoredByRegexen (regexen : list string) (file : TFile)
    : Action bool :=
  match regexen with
  | [] => mret false
  | r :: rest =>
      regex ← deserializeRegExp r;
      match Js.exec regex (path file) with
      | Some _ => mret true
      | None => ignoredByRegexen rest file
      end
  end.

(** Checks if the file should be ignored *)
Definition ignoreFile (file : TFile) : Action bool :=
  if negb (String.eqb (extension file) "md")
     && negb (String.eqb (extension file) "markdown")
  then mret true
  else
    fileCache ← getFileCache file;
    let marked (key : string) : bool :=
      match fileCache ≫= frontmatter with
      | Some fm => from_option truthy false (fm !! key)
      | None => false
      end in
    if marked "excalidraw-plugin" then mret true
    else if marked "kanban-plugin" then mret true
    else ignoredByRegexen (fileIgnoreRegexen settings) file.

End Plugin.

(** The click on the button Add Regex of the settings tab: a new entry
    is pushed on the list of ignore expressions. *)
Definition addRegexClicked (settings : Settings) : Settings :=
  mkSettings (userIllegalSymbols settings)
             (fileIgnoreRegexen settings ++ ["//g"]).

(** *** The event handlers registered by [onload] *)

Section Events.

Variable settings : Settings.

(** [workspace.on("file-open", ...)] *)
Definition onFileOpen (file : TFile) : Action unit :=
  ignored ← ignoreFile settings file;
  if negb ignored then handleSyncFilenameToHeading settings file
  else mret ().

(** [vault.on("rename", ...)] *)
Definition onRename (file : TFile) : Action unit :=
  ignored ← ignoreFile settings file;
  if negb ignored then handleSyncFilenameToHeading settings file
  else mret ().

(** [vault.on("modify", ...)] *)
Definition onModify (file : TFile) : Action unit :=
  ignored ← ignoreFile settings file;
  if negb ignored then handleSyncHeadingToFilename settings file
  else mret ().

End Events.

(** *** The settings tab *)

(** The pattern text of the object [deserializeRegExp] returns: the first
    group of the match, or the text of the default expression. *)
Definition deserializedPattern (regExpString : string) : option string :=
  match Js.match_ regExpString serializedRegExp with
  | Some match_ => mjoin (match_ !! 1)
  | None => Some "$^"
  end.

(** [deserializeRegExp(value).toString()] *)
Definition deserializedToString (value : string) : Action string :=
  re ← deserializeRegExp value;
  lift (Js.toString (deserializedPattern value) re).

(** The files the filter of [updateIgnoredFiles] keeps: the expression is
    deserialized anew for every file. *)
Fixpoint ignoredFiles (regex : string) (files : list TFile)
    : Action (list TFile) :=
  match files with
  | [] => mret []
  | file :: rest =>
      reg ← deserializeRegExp regex;
      let test := Js.exec reg (path file) in
      kept ← ignoredFiles regex rest;
      mret match test with
           | Some _ => file :: kept
           | None => kept
           end
  end.

(** [updateIgnoredFiles(regex, textArea, files)]; the result is the value
    the text area is set to. *)
Definition updateIgnoredFiles (regex : string) (files : list TFile)
    : Action string :=
  let filesIgnored := "This regex ignores the following files:" in
  kept ← ignoredFiles regex files;
  mret (foldl (λ filesIgnored file,
                 filesIgnored +:+ Js.newline +:+ path file)
              filesIgnored kept).

(** The change handler of the field Custom Illegal Characters/Strings
    Regex.  It returns the settings, which [saveSettings] then stores,
    and the value the field shows. *)
Definition userIllegalSymbolsChanged (settings : Settings) (value : string)
    : Action (Settings * string) :=
  s ← deserializedToString value;
  let settings := mkSettings s (fileIgnoreRegexen settings) in
  let shown :=
    if bool_decide (s = "/(?:)/g" ∨ s = "/(?:)/") then "//g" else s in
  mret (settings, shown).

(** The change handler of the field of the ignore expression number
    [index], an index of the list the tab was rendered from.  It returns
    the settings, which [saveSettings] then stores, the value the field
    shows and the value of the text area beside it. *)
Definition fileIgnoreRegexChanged (settings : Settings) (files : list TFile)
    (index : nat) (value : string) : Action (Settings * string * string) :=
  s ← deserializedToString value;
  let settings :=
    mkSettings (userIllegalSymbols settings)
               (<[index := s]> (fileIgnoreRegexen settings)) in
  let shown :=
    if bool_decide (s = "/(?:)/g" ∨ s = "/(?:)/" ∨ s = "/$^/g")
    then "//g" else s in
  listing ← updateIgnoredFiles shown files;
  mret (settings, shown, listing).

(** The click on the button Remove this Regex of the entry number
    [index]: [splice(index, 1)]. *)
Definition removeRegexClicked (settings : Settings) (index : nat) : Settings :=
  mkSettings (userIllegalSymbols settings)
             (delete index (fileIgnoreRegexen settings)).

(** * Vocabulary of the properties

    The notions the properties are stated with: what the sanitizer is to
    remove, the values the plugin functions complete with, the shapes of
    the strings and hosts the statements quantify over. *)

Section Vocabulary.

Import RegExp.
Local Open Scope char_scope.
Local Open Scope nat_scope.

(** A code unit that [trim] strips. *)
Definition blank (c : ascii) : Prop := Char.isWhiteSpace c = true.

(** A string without a blank at either end. *)
Definition trimmed (l : list ascii) : Prop :=
  from_option Char.isWhiteSpace false (head l) = false ∧
  from_option Char.isWhiteSpace false (last l) = false.

(** A matcher only ever hands its continuation a state further on in
    the same input. *)
Definition advances (m : Matcher) : Prop :=
  ∀ x k z, m x k = Some z →
    ∃ y, k y = Some z ∧ ahead y `suffix_of` ahead x.

(** The result of a matcher depends on its continuation at the states
    further on in the input only. *)
Definition forward (m : Matcher) : Prop :=
  ∀ x k1 k2,
    (∀ y, ahead y `suffix_of` ahead x → k1 y = k2 y) → m x k1 = m x k2.

(** [disjunction] with the fuel [fuel] and with the fuel [fuel'] agree on
    [s], and leave no more than [bound] code units. *)
Definition fuelled (fuel fuel' : nat) (s : list ascii) (n : nat)
    (alts terms : list Regex) (bound : nat) : Prop :=
  disjunction fuel s n alts terms = disjunction fuel' s n alts terms ∧
  ∀ r s' n', disjunction fuel s n alts terms = Return (r, s', n') →
             length s' ≤ bound.

(** The fixed illegal-symbol set: backslash, forward slash, colon, pipe,
    hash, caret and the two square brackets. *)
Definition stockSymbol (c : ascii) : bool :=
  bool_decide (c ∈ ["\"; "/"; ":"; "|"; "#"; "^"; "["; "]"]).

(** The string without a dot that ends it. *)
Definition dropTrailingDot (l : list ascii) : list ascii :=
  if decide (last l = Some ".") then take (length l - 1) l else l.

(** What the sanitizer is to remove in its first step: every fixed
    illegal symbol, and a dot at the end of the string. *)
Definition removeStockSymbols (l : list ascii) : list ascii :=
  filter (λ c, stockSymbol c = false) (dropTrailingDot l).

(** A matcher that consumes one code unit satisfying [P]. *)
Definition oneUnit (P : ascii → bool) (m : Matcher) : Prop :=
  ∀ x k, m x k =
    match ahead x with
    | [] => None
    | c :: rest => if P c then k (step x c rest) else None
    end.

(** The longest run of [P] first, then shorter and shorter ones, until
    the continuation accepts. *)
Fixpoint greedyRun (P : ascii → bool) (bef aft : list ascii)
    (caps : list (option (list ascii))) (k : Continuation)
    : option MatchState :=
  match aft with
  | [] => k (mkState bef [] caps)
  | c :: rest =>
      if P c then
        match greedyRun P (c :: bef) rest caps k with
        | Some z => Some z
        | None => k (mkState bef aft caps)
        end
      else k (mkState bef aft caps)
  end.

(** The code units the dot matches and those of the class a to z. *)
Definition lineUnit (c : ascii) : Prop := Char.isLineTerminator c = false.
Definition flagUnit (c : ascii) : Prop := Char.isLower c = true.

(** The two groups of the expression [deserializeRegExp] uses. *)
Definition patternGroup : Regex :=
  Group 1 (Repeat 0 None true Dot).

Definition flagsGroup : Regex :=
  Group 2 (Repeat 0 None true (CharClass false [CiRange "a" "z"])).

(** What follows the optional first group: the closing slash and the
    flags. *)
Definition closing : Continuation :=
  λ y, compile noFlags (Char "/") y (λ y', compile noFlags flagsGroup y' Some).

(** The host after some more notices. *)
Definition addNotices (messages : list string) (h : Host) : Host :=
  mkHost (files h) (fileCache h) (notices h ++ messages) (renames h).

(** The expression returned for a malformed text. *)
Definition fallbackRegExp : RegExp.t :=
  Eval vm_compute in Js.literal "$^" "g".

(** The notice shown for a malformed text. *)
Definition invalidNotice (s : string) : string :=
  ("Invalid RegExp string: " +:+ quote +:+ s +:+ quote)%string.

(** The value [deserializeRegExp] completes with and the notices it
    shows: neither depends on the host. *)
Definition deserialized (s : string) : Completion RegExp.t :=
  match Js.match_ s serializedRegExp with
  | Some m => Js.newRegExp (mjoin (m !! 1)) (mjoin (m !! 2))
  | None => Return fallbackRegExp
  end.

Definition deserializeNotices (s : string) : list string :=
  match Js.match_ s serializedRegExp with
  | Some _ => []
  | None => [invalidNotice s]
  end.

(** The empty expression with the g flag. *)
Definition emptyRegExp : RegExp.t :=
  Eval vm_compute in Js.literal "" "g".

(** A host with an empty vault, in which nothing has happened yet. *)
Definition quietHost : Host := mkHost ∅ ∅ [] [].

(** The value [sanitizeHeading] completes with. *)
Definition sanitized (st : Settings) (heading : string) : Completion string :=
  re ← deserialized (userIllegalSymbols st);
  Return (Js.trim (Js.replace (Js.replace heading stockIllegalSymbols "") re "")).

(** A line that starts with the marker of a level-1 heading. *)
Definition isHeading (line : option string) : Prop :=
  ∃ l, line = Some l ∧ Js.startsWith l "# " = true.

(** The string with every [a] turned into [b]. *)
Definition substitute (a b : ascii) (s : string) : string :=
  Js.text (map (λ c, if Char.eqb a c then b else c) (Js.units s)).

(** The string with its first code unit in upper case. *)
Definition capitalize (s : string) : Completion string :=
  match s with
  | EmptyString => Return EmptyString
  | String c rest =>
      initial ← Js.toUpperCase (String c "");
      Return (initial +:+ rest)%string
  end.

(** The heading line for a sanitized basename. *)
Definition headingFor (t : string) : Completion string :=
  body ← capitalize (substitute "-" " " t);
  Return ("# " +:+ body)%string.

(** The lines with the heading put where [handleSyncFilenameToHeading]
    puts it. *)
Definition placeHeading (heading : string) (lines : list string) : list string :=
  if decide (getHeadingLine lines ≠ (-1)%Z)
  then <[Z.to_nat (getHeadingLine lines) := heading]> lines
  else heading :: lines.

(** The flags of an expression with the g flag alone. *)
Definition globalFlag : Flags := mkFlags false true false false false false.

(** The front matter of the file holds a truthy value under [key]. *)
Definition hasMarker (h : Host) (file : TFile) (key : string) : Prop :=
  ∃ cache fm v,
    fileCache h !! path file = Some cache ∧ frontmatter cache = Some fm ∧
    fm !! key = Some v ∧ truthy v = true.

(** The ignore expression [r] deserializes and matches the path. *)
Definition ignores (r : string) (file : TFile) : Prop :=
  ∃ re, deserialized r = Return re ∧ is_Some (Js.exec re (path file)).

(** The test [ignoreFile] makes of a marker key. *)
Definition marked (h : Host) (file : TFile) (key : string) : bool :=
  match fileCache h !! path file ≫= frontmatter with
  | Some fm => from_option truthy false (fm !! key)
  | None => false
  end.

(** A run of matchers of one code unit each, then the continuation. *)
Fixpoint unitsThen (Ps : list (ascii → bool)) (k : Continuation)
    : Continuation :=
  λ x,
    match Ps with
    | [] => k x
    | P :: Ps' =>
        match ahead x with
        | [] => None
        | c :: rest => if P c then unitsThen Ps' k (step x c rest) else None
        end
    end.

(** The code units the dot matches and those the pattern character [a]
    matches, in an expression with the g flag alone. *)
Definition anyUnit : ascii → bool :=
  λ c, dotAll globalFlag || negb (Char.isLineTerminator c).

Definition exactly (a : ascii) : ascii → bool :=
  λ c, xorb false (setHas globalFlag [CiChar a] c).

(** The default ignore expression. *)
Definition defaultIgnoreRegExp : RegExp.t :=
  Eval vm_compute in Js.literal ".*.excalidraw.md$" "g".

(** A path the default ignore expression matches: it ends with a code
    unit, excalidraw, a code unit and md, the two code units being any but
    line terminators. *)
Definition excalidrawPath (p : string) : Prop :=
  ∃ pre c d,
    p = (pre +:+ String c "excalidraw" +:+ String d "md")%string ∧
    lineUnit c ∧ lineUnit d.

(** A string without a line feed. *)
Definition singleLine (s : string) : Prop :=
  Forall (λ c, c ≠ "010") (Js.units s).

(** The host [h'] differs from the host [h] at most in the content of the
    file at [p], which is neither created nor deleted, in more notices and
    in more rename requests, all for [p]. *)
Definition confinedTo (p : string) (h h' : Host) : Prop :=
  fileCache h' = fileCache h ∧
  (∀ q, q ≠ p → files h' !! q = files h !! q) ∧
  (is_Some (files h' !! p) ↔ is_Some (files h !! p)) ∧
  (∃ ns, notices h' = notices h ++ ns) ∧
  (∃ rs, renames h' = renames h ++ rs ∧ Forall (λ r, r.1 = p) rs).

(** The value of the text area for the files [kept]. *)
Definition listed (kept : list TFile) : string :=
  foldl (λ filesIgnored file, filesIgnored +:+ Js.newline +:+ path file)%string
        "This regex ignores the following files:"%string kept.

(** The files whose path the expression matches. *)
Definition matching (re : RegExp.t) (files : list TFile) : list TFile :=
  filter (λ file, is_Some (Js.exec re (path file))) files.




End Vocabulary.

(** * Properties *)

(** ** Strings *)

Lemma units_text (l : list ascii) : Js.units (Js.text l) = l.
Proof. apply list_ascii_of_string_of_list_ascii. Qed.

Lemma text_units (s : string) : Js.text (Js.units s) = s.
Proof. apply string_of_list_ascii_of_string. Qed.

Lemma units_app (a b : string) : Js.units (a +:+ b) = Js.units a ++ Js.units b.
Proof. induction a as [|c a IH]; simpl; [done|]. by rewrite <- IH. Qed.

Lemma char_eqb_eq (a b : ascii) : Char.eqb a b = true ↔ a = b.
Proof. apply Ascii.eqb_eq. Qed.

Lemma char_eqb_refl (a : ascii) : Char.eqb a a = true.
Proof. by apply char_eqb_eq. Qed.

Lemma char_eqb_neq (a b : ascii) : Char.eqb a b = false ↔ a ≠ b.
Proof. apply Ascii.eqb_neq. Qed.

(** *** split and join *)

Lemma splitLines_cons (s : string) : ∃ l ls, Js.splitLines s = l :: ls.
Proof.
  induction s as [|c s (l & ls & IH)]; simpl; [by eexists _, _|].
  destruct (Char.eqb c "010"); [by eexists _, _|]. rewrite IH. by eexists _, _.
Qed.

Lemma joinLines_cons (l : string) (ls : list string) :
  Js.joinLines (l :: ls) =
  match ls with
  | [] => l
  | _ => (l +:+ Js.newline +:+ Js.joinLines ls)%string
  end.
Proof. by destruct ls. Qed.

(** Joining the lines of a string gives the string back. *)
Lemma joinLines_splitLines (s : string) : Js.joinLines (Js.splitLines s) = s.
Proof.
  induction s as [|c s IH]; [done|]. cbn [Js.splitLines].
  destruct (splitLines_cons s) as (l & ls & E). rewrite E in IH |- *.
  destruct (Char.eqb c "010") eqn:Ec.
  - apply char_eqb_eq in Ec as ->. rewrite joinLines_cons, IH. done.
  - rewrite joinLines_cons in IH |- *. destruct ls; by rewrite <- IH.
Qed.

(** *** trim *)

Lemma trimStart_suffix (l : list ascii) : Js.trimStart l `suffix_of` l.
Proof.
  induction l as [|c l IH]; simpl; [done|].
  destruct (Char.isWhiteSpace c); [by apply suffix_cons_r | done].
Qed.

Lemma trimStart_head (l : list ascii) :
  from_option Char.isWhiteSpace false (head (Js.trimStart l)) = false.
Proof.
  induction l as [|c l IH]; simpl; [done|].
  destruct (Char.isWhiteSpace c) eqn:E; [done | by simpl].
Qed.

Lemma trimStart_fixed (l : list ascii) :
  from_option Char.isWhiteSpace false (head l) = false → Js.trimStart l = l.
Proof. destruct l as [|c l]; simpl; [done|]. by intros ->. Qed.

Lemma trimStart_app_blank (a l : list ascii) :
  Forall blank a → Js.trimStart (a ++ l) = Js.trimStart l.
Proof.
  induction 1 as [|c a Hc _ IH]; simpl; [done|]. by rewrite Hc.
Qed.

Lemma trimEnd_prefix (l : list ascii) : Js.trimEnd l `prefix_of` l.
Proof.
  unfold Js.trimEnd. destruct (trimStart_suffix (reverse l)) as [k Hk].
  exists (reverse k). apply (f_equal reverse) in Hk.
  by rewrite reverse_app, reverse_involutive in Hk.
Qed.

Lemma trimEnd_last (l : list ascii) :
  from_option Char.isWhiteSpace false (last (Js.trimEnd l)) = false.
Proof.
  unfold Js.trimEnd. rewrite last_reverse. apply trimStart_head.
Qed.

Lemma trimEnd_fixed (l : list ascii) :
  from_option Char.isWhiteSpace false (last l) = false → Js.trimEnd l = l.
Proof.
  intros H. unfold Js.trimEnd. rewrite trimStart_fixed.
  - apply reverse_involutive.
  - by rewrite head_reverse.
Qed.

(** Trimming the end keeps a non-blank first code unit in place. *)
Lemma trimEnd_head (l : list ascii) :
  from_option Char.isWhiteSpace false (head l) = false →
  from_option Char.isWhiteSpace false (head (Js.trimEnd l)) = false.
Proof.
  induction l as [|c l IH] using rev_ind; [done|].
  intros H. unfold Js.trimEnd. rewrite reverse_snoc. simpl.
  destruct (Char.isWhiteSpace c) eqn:Ec.
  - apply IH. destruct l; simpl in *; [done | exact H].
  - rewrite reverse_cons, reverse_involutive.
    destruct l; simpl in *; [by rewrite Ec | exact H].
Qed.

Lemma trim_trimmed (s : string) : trimmed (Js.units (Js.trim s)).
Proof.
  unfold Js.trim. rewrite units_text. split.
  - apply trimEnd_head, trimStart_head.
  - apply trimEnd_last.
Qed.

Lemma trim_fixed (s : string) : trimmed (Js.units s) → Js.trim s = s.
Proof.
  intros [Hh Hl]. unfold Js.trim.
  by rewrite trimStart_fixed, trimEnd_fixed, text_units.
Qed.

Lemma trim_idempotent (s : string) : Js.trim (Js.trim s) = Js.trim s.
Proof. apply trim_fixed, trim_trimmed. Qed.

(** The code units of a trimmed string are code units of the string. *)
Lemma trim_Forall (P : ascii → Prop) (s : string) :
  Forall P (Js.units s) → Forall P (Js.units (Js.trim s)).
Proof.
  intros H. unfold Js.trim. rewrite units_text.
  destruct (trimEnd_prefix (Js.trimStart (Js.units s))) as [k Hk].
  destruct (trimStart_suffix (Js.units s)) as [k' Hk'].
  rewrite Hk', Hk in H. by apply Forall_app in H as [_ [H _]%Forall_app].
Qed.

Lemma trim_app_blank (a s : string) :
  Forall blank (Js.units a) → Js.trim (a +:+ s) = Js.trim s.
Proof.
  intros H. unfold Js.trim. by rewrite units_app, trimStart_app_blank.
Qed.

(** ** The matcher *)

Section Matcher.

Import RegExp.

Lemma characterSetMatcher_advances fl invert items :
  advances (characterSetMatcher fl invert items).
Proof.
  intros x k z. unfold characterSetMatcher.
  destruct (ahead x) as [|c rest] eqn:E; [done|].
  destruct (xorb _ _); [|done]. intros H.
  exists (step x c rest). split; [done|]. simpl. by apply suffix_cons_r.
Qed.

Lemma repeatMatcher_advances m parens fuel min max greedy :
  advances m → advances (repeatMatcher m parens fuel min max greedy).
Proof.
  intros Hm. revert min max.
  induction fuel as [|fuel IH]; intros min max x k z; simpl; [done|].
  assert (Hd : ∀ z,
    m (resetCaptures parens x)
      (λ y, if (min =? 0) && (length (ahead y) =? length (ahead x))
            then None
            else repeatMatcher m parens fuel (pred min) (pred <$> max)
                   greedy y k) = Some z →
    ∃ y, k y = Some z ∧ ahead y `suffix_of` ahead x).
  { intros z' H. apply Hm in H as (y & Hy & Hs).
    destruct (_ && _); [done|].
    apply IH in Hy as (y' & Hy' & Hs'). exists y'. split; [done|].
    by etrans. }
  assert (Hk : ∀ z, k x = Some z →
    ∃ y, k y = Some z ∧ ahead y `suffix_of` ahead x) by eauto.
  destruct max as [[|n]|]; [by apply Hk|..];
    (destruct (negb (min =? 0)); [by apply Hd|]);
    (destruct greedy;
      [destruct (m _ _) eqn:E; [intros [= <-]; by apply Hd | by apply Hk]
      |destruct (k x) eqn:E; [intros [= <-]; by apply Hk | by apply Hd]]).
Qed.

Lemma compile_advances fl r : advances (compile fl r).
Proof.
  induction r as [| | | | | | |idx r IH|r1 IH1 r2 IH2|r1 IH1 r2 IH2
                 |min max greedy r IH]; intros x k z; cbn [compile].
  - eauto.
  - apply characterSetMatcher_advances.
  - destruct (ahead x) as [|c rest] eqn:E; [done|].
    destruct (_ || _); [|done]. intros H.
    exists (step x c rest). split; [done|]. simpl. by apply suffix_cons_r.
  - apply characterSetMatcher_advances.
  - destruct (atStart fl x); [eauto | done].
  - destruct (atEnd fl x); [eauto | done].
  - destruct (xorb _ _); [eauto | done].
  - intros H. apply IH in H as (y & Hy & Hs).
    exists (closeGroup idx x y). by split.
  - intros H. apply IH1 in H as (y & Hy & Hs).
    apply IH2 in Hy as (y' & Hy' & Hs'). exists y'. split; [done|].
    by etrans.
  - destruct (compile fl r1 x k) eqn:E.
    + intros [= <-]. by apply IH1.
    + apply IH2.
  - by apply repeatMatcher_advances.
Qed.

Lemma characterSetMatcher_forward fl invert items :
  forward (characterSetMatcher fl invert items).
Proof.
  intros x k1 k2 Hk. unfold characterSetMatcher.
  destruct (ahead x) as [|c rest] eqn:E; [done|].
  destruct (xorb _ _); [|done]. apply Hk. simpl. rewrite ?E.
  by apply suffix_cons_r.
Qed.

Lemma repeatMatcher_forward m parens fuel min max greedy :
  forward m → forward (repeatMatcher m parens fuel min max greedy).
Proof.
  intros Hm. revert min max.
  induction fuel as [|fuel IH]; intros min max x k1 k2 Hk; simpl; [done|].
  rewrite (Hk x) by done.
  rewrite (Hm (resetCaptures parens x) _
    (λ y, if (min =? 0) && (length (ahead y) =? length (ahead x)) then None
          else repeatMatcher m parens fuel (pred min) (pred <$> max) greedy
                 y k2)); [done|].
  intros y Hy. destruct (_ && _); [done|]. apply IH.
  intros y' Hy'. apply Hk. by etrans.
Qed.

Lemma compile_forward fl r : forward (compile fl r).
Proof.
  induction r as [| | | | | | |idx r IH|r1 IH1 r2 IH2|r1 IH1 r2 IH2
                 |min max greedy r IH]; intros x k1 k2 Hk; cbn [compile].
  - by apply Hk.
  - by apply characterSetMatcher_forward.
  - destruct (ahead x) as [|c rest] eqn:E; [done|].
    destruct (_ || _); [|done]. apply Hk. simpl. rewrite ?E.
    by apply suffix_cons_r.
  - by apply characterSetMatcher_forward.
  - destruct (atStart fl x); [by apply Hk | done].
  - destruct (atEnd fl x); [by apply Hk | done].
  - destruct (xorb _ _); [by apply Hk | done].
  - apply IH. intros y Hy. by apply Hk.
  - apply IH1. intros y Hy. apply IH2. intros y' Hy'. apply Hk. by etrans.
  - by rewrite (IH1 x k1 k2), (IH2 x k1 k2).
  - by apply repeatMatcher_forward.
Qed.

(** The fuel of RepeatMatcher: beyond the sum of [min] and the length of
    the input ahead, more fuel changes nothing. *)
Lemma repeatMatcher_fuel m parens fuel1 fuel2 min max greedy x k :
  forward m →
  min + length (ahead x) < fuel1 → min + length (ahead x) < fuel2 →
  repeatMatcher m parens fuel1 min max greedy x k
  = repeatMatcher m parens fuel2 min max greedy x k.
Proof.
  intros Hm. revert fuel2 min max x.
  induction fuel1 as [|fuel1 IH]; intros [|fuel2] min max x H1 H2; try lia.
  simpl.
  rewrite (Hm (resetCaptures parens x) _
    (λ y, if (min =? 0) && (length (ahead y) =? length (ahead x)) then None
          else repeatMatcher m parens fuel2 (pred min) (pred <$> max) greedy
                 y k)); [done|].
  intros y Hy. destruct (min =? 0) eqn:Emin; cbn [andb].
  - apply Nat.eqb_eq in Emin as ->.
    destruct (length (ahead y) =? length (ahead x)) eqn:El; [done|].
    apply Nat.eqb_neq in El. apply suffix_length in Hy. simpl in Hy.
    apply IH; simpl; lia.
  - apply Nat.eqb_neq in Emin. apply suffix_length in Hy. simpl in Hy.
    apply IH; lia.
Qed.

(** In particular the fuel [compile] gives to a repetition is enough. *)
Lemma compile_Repeat_fuel fl min max greedy r fuel x k :
  min + length (ahead x) < fuel →
  compile fl (Repeat min max greedy r) x k
  = repeatMatcher (compile fl r) (groupsOf r) fuel min max greedy x k.
Proof.
  intros H. cbn [compile]. apply repeatMatcher_fuel; [|lia|done].
  apply compile_forward.
Qed.

Lemma matchAt_suffix re bef aft y :
  matchAt re bef aft = Some y → ahead y `suffix_of` aft.
Proof.
  intros H. apply compile_advances in H as (y' & [= ->] & Hs). exact Hs.
Qed.

(** *** exec and replace *)

Lemma replaceFirst_Forall (P : ascii → Prop) re repl bef aft :
  Forall P repl → Forall P aft → Forall P (replaceFirst re repl bef aft).
Proof.
  intros Hr. revert bef.
  induction aft as [|c rest IH]; intros bef Ha; simpl.
  - destruct (matchAt re bef []) as [y|] eqn:E.
    + apply Forall_app. split; [done|].
      apply matchAt_suffix in E as [k Hk].
      rewrite Hk in Ha. by apply Forall_app in Ha as [_ ?].
    + by destruct (sticky (flags re)).
  - destruct (matchAt re bef (c :: rest)) as [y|] eqn:E.
    + apply Forall_app. split; [done|].
      apply matchAt_suffix in E as [k Hk].
      rewrite Hk in Ha. by apply Forall_app in Ha as [_ ?].
    + destruct (sticky (flags re)); [done|].
      apply Forall_cons in Ha as [Hc Ha].
      apply Forall_cons. split; [done|]. by apply IH.
Qed.

Lemma replaceAll_Forall (P : ascii → Prop) re repl bef aft skip :
  Forall P repl → Forall P aft → Forall P (replaceAll re repl bef aft skip).
Proof.
  intros Hr. revert bef skip.
  induction aft as [|c rest IH]; intros bef skip Ha; simpl.
  - destruct skip; [|done]. by destruct (matchAt re bef []).
  - pose proof Ha as Ha'. apply Forall_cons in Ha as [Hc Ha].
    destruct skip as [|n]; [|by apply IH].
    destruct (matchAt re bef (c :: rest)) as [y|].
    + apply Forall_app. split; [done|].
      destruct (_ - _); [apply Forall_cons; split; [done|] |]; by apply IH.
    + destruct (sticky (flags re)); [done|].
      apply Forall_cons. split; [done|]. by apply IH.
Qed.

(** The code units of [s.replace(re, repl)] are code units of [s] or of
    the replacement text. *)
Lemma replace_Forall (P : ascii → Prop) re s repl :
  Forall P repl → Forall P s → Forall P (replace re s repl).
Proof.
  intros. unfold replace.
  destruct (global (flags re));
    [by apply replaceAll_Forall | by apply replaceFirst_Forall].
Qed.

Lemma replaceFirst_no_match re repl bef aft :
  search re bef aft = None → replaceFirst re repl bef aft = aft.
Proof.
  revert bef. induction aft as [|c rest IH]; intros bef; simpl.
  - destruct (matchAt re bef []); [done|]. by destruct (sticky (flags re)).
  - destruct (matchAt re bef (c :: rest)); [done|].
    destruct (sticky (flags re)); [done|]. intros H. by rewrite IH.
Qed.

Lemma replaceAll_no_match re repl bef aft :
  search re bef aft = None → replaceAll re repl bef aft 0 = aft.
Proof.
  revert bef. induction aft as [|c rest IH]; intros bef; simpl.
  - by destruct (matchAt re bef []).
  - destruct (matchAt re bef (c :: rest)); [done|].
    destruct (sticky (flags re)); [done|]. intros H. by rewrite IH.
Qed.

(** Where [re.exec(s)] is null, [s.replace(re, repl)] is [s]. *)
Lemma replace_no_match re s repl :
  exec re s = None → replace re s repl = s.
Proof.
  intros H. unfold replace.
  destruct (global (flags re));
    [by apply replaceAll_no_match | by apply replaceFirst_no_match].
Qed.

(** *** replace, from exec

    The language specification has replace collect the results of exec
    and put the string together from them; the two lemmas below read
    [replaceFirst] and [replaceAll] that way. *)

Lemma suffix_drop {A} (l1 l2 : list A) :
  l1 `suffix_of` l2 → l1 = drop (length l2 - length l1) l2.
Proof.
  intros [k ->]. rewrite length_app.
  replace (length k + length l1 - length l1) with (length k) by lia.
  by rewrite drop_app_length.
Qed.

Lemma search_index re bef aft r :
  search re bef aft = Some r → length bef ≤ index r.
Proof.
  revert bef. induction aft as [|c rest IH]; intros bef; cbn [search].
  - destruct (matchAt re bef []); [by intros [= <-]|]. by destruct (sticky _).
  - destruct (matchAt re bef (c :: rest)); [by intros [= <-]|].
    destruct (sticky _); [done|]. intros H%IH. simpl in H. lia.
Qed.

Lemma replaceFirst_search re repl bef aft r :
  search re bef aft = Some r →
  replaceFirst re repl bef aft
  = take (index r - length bef) aft ++ repl ++
    drop (index r - length bef + length (matched r)) aft.
Proof.
  revert bef. induction aft as [|c rest IH]; intros bef; cbn [search replaceFirst].
  - destruct (matchAt re bef []) as [y|] eqn:E.
    + intros [= <-]. apply matchAt_suffix in E.
      apply suffix_nil_inv in E. rewrite E. by rewrite take_nil, drop_nil.
    + by destruct (sticky (flags re)).
  - destruct (matchAt re bef (c :: rest)) as [y|] eqn:E.
    + intros [= <-]. apply matchAt_suffix in E.
      unfold result. cbn [index matched]. rewrite Nat.sub_diag.
      cbn [take app Nat.add]. f_equal.
      pose proof (suffix_length _ _ E) as Hl.
      rewrite length_take_le by lia. by apply suffix_drop.
    + destruct (sticky (flags re)); [done|]. intros H.
      pose proof (search_index _ _ _ _ H) as Hi. cbn [length] in Hi.
      rewrite (IH _ H). cbn [length].
      replace (index r - length bef) with (S (index r - S (length bef))) by lia.
      done.
Qed.

Lemma replaceAll_skip re repl bef aft n :
  n ≤ length aft →
  replaceAll re repl bef aft n
  = replaceAll re repl (reverse (take n aft) ++ bef) (drop n aft) 0.
Proof.
  revert bef aft. induction n as [|n IH]; intros bef aft Hn.
  - by rewrite take_0, drop_0.
  - destruct aft as [|c rest]; [simpl in Hn; lia|].
    cbn [replaceAll take drop]. rewrite IH by (simpl in Hn; lia).
    by rewrite reverse_cons, <- app_assoc.
Qed.

Lemma replaceAll_search re repl bef aft r :
  search re bef aft = Some r →
  let i := index r - length bef in
  let n := length (matched r) in
  replaceAll re repl bef aft 0
  = take i aft ++ repl ++
    match n with
    | O =>
        match drop i aft with
        | [] => []
        | c :: rest =>
            c :: replaceAll re repl (c :: reverse (take i aft) ++ bef) rest 0
        end
    | S _ =>
        replaceAll re repl (reverse (take (i + n) aft) ++ bef)
          (drop (i + n) aft) 0
    end.
Proof.
  revert bef. induction aft as [|c rest IH]; intros bef; cbn [search replaceAll].
  - destruct (matchAt re bef []) as [y|] eqn:E.
    + intros [= <-]. cbn zeta. unfold result. cbn [index matched].
      rewrite Nat.sub_diag. cbn. by rewrite app_nil_r.
    + by destruct (sticky (flags re)).
  - destruct (matchAt re bef (c :: rest)) as [y|] eqn:E.
    + intros [= <-]. cbn zeta. unfold result. cbn [index matched].
      rewrite Nat.sub_diag. cbn [take app Nat.add drop]. f_equal.
      apply matchAt_suffix, suffix_length in E.
      rewrite length_take_le by lia.
      destruct (length (c :: rest) - length (ahead y)) as [|n] eqn:En.
      * by rewrite reverse_nil.
      * rewrite replaceAll_skip by (simpl in *; lia).
        cbn [take drop]. by rewrite reverse_cons, <- app_assoc.
    + destruct (sticky (flags re)); [done|]. intros H.
      pose proof (search_index _ _ _ _ H) as Hi. cbn [length] in Hi.
      rewrite (IH _ H). cbn zeta. cbn [length].
      replace (index r - length bef) with (S (index r - S (length bef))) by lia.
      cbn [take drop app Nat.add]. do 2 f_equal.
      destruct (length (matched r)).
      * destruct (drop _ rest); [done|].
        by rewrite reverse_cons, <- !app_assoc.
      * by rewrite reverse_cons, <- !app_assoc.
Qed.

End Matcher.

(** ** The parser

    The parsers take fuel; the lemmas of this section show that the fuel
    they are given, one more than the length of the text, is enough: each
    step shortens the text, and more fuel changes nothing. *)

Section Parser.

Import RegExp.
Local Open Scope char_scope.
Local Open Scope nat_scope.

Lemma digits_length s count value count' value' s' :
  digits s count value = (count', value', s') →
  length s' + (count' - count) ≤ length s ∧ count ≤ count'.
Proof.
  revert count value. induction s as [|c s IH]; intros count value; simpl.
  - intros [= <- <- <-]. simpl. lia.
  - destruct (Char.isDigit c).
    + intros H%IH. lia.
    + intros [= <- <- <-]. simpl. lia.
Qed.

Lemma braces_length s lo hi rest :
  braces s = Bounds lo hi rest → length rest < length s.
Proof.
  unfold braces. destruct (digits s 0 0) as [[n1 v1] s1] eqn:E1.
  apply digits_length in E1 as [E1 _].
  destruct (n1 =? 0) eqn:En; [done|]. apply Nat.eqb_neq in En.
  destruct s1 as [|c s1]; [done|].
  destruct (decide (c = "}")) as [->|Hc1].
  { destruct (3 <? n1); [done|]. intros [= <- <- <-]. simpl in E1. lia. }
  destruct (decide (c = ",")) as [->|Hc2].
  2:{ by destruct c as [[] [] [] [] [] [] [] []]. }
  assert (Hcomma : ∀ s2, s1 = s2 →
    match digits s2 0 0 with
    | (n2, v2, s3) =>
        if n2 =? 0 then NoBraces
        else match s3 with
             | "}" :: rest0 =>
                 if (3 <? n1) || (3 <? n2) then BoundsTooLong
                 else Bounds v1 (Some v2) rest0
             | _ => NoBraces
             end
    end = Bounds lo hi rest → length rest < length s).
  { intros s2 <-. destruct (digits s1 0 0) as [[n2 v2] s3] eqn:E2.
    apply digits_length in E2 as [E2 _].
    destruct (n2 =? 0); [done|]. destruct s3 as [|d s3]; [done|].
    destruct (decide (d = "}")) as [->|Hd].
    - destruct (_ || _); [done|]. intros [= <- <- <-]. simpl in *. lia.
    - by destruct d as [[] [] [] [] [] [] [] []]. }
  destruct s1 as [|d s1]; [by apply (Hcomma [])|].
  destruct (decide (d = "}")) as [->|Hd].
  - destruct (3 <? n1); [done|]. intros [= <- <- <-]. simpl in E1. lia.
  - intros H. apply (Hcomma (d :: s1)); [done|].
    by destruct d as [[] [] [] [] [] [] [] []].
Qed.

Lemma lazyMark_length s : length (lazyMark s).2 ≤ length s.
Proof.
  destruct s as [|c s]; [done|].
  destruct (decide (c = "?")) as [->|Hc]; [simpl; lia|].
  by destruct c as [[] [] [] [] [] [] [] []].
Qed.

Lemma quantified_length atom s r s' :
  quantified atom s = Return (r, s') → length s' ≤ length s.
Proof.
  assert (Hl : ∀ lo hi rest,
    (let '(g, rest0) := lazyMark rest in
     Return (Repeat lo hi g atom, rest0)) = Return (r, s') →
    length s' ≤ length rest).
  { intros lo hi rest. pose proof (lazyMark_length rest) as H.
    destruct (lazyMark rest) as [g rest0]. by intros [= <- <-]. }
  destruct s as [|c s]; [by intros [= <- <-]|]. unfold quantified.
  destruct (decide (c = "*")) as [->|H1]; [intros H%Hl; simpl; lia|].
  destruct (decide (c = "+")) as [->|H2]; [intros H%Hl; simpl; lia|].
  destruct (decide (c = "?")) as [->|H3]; [intros H%Hl; simpl; lia|].
  destruct (decide (c = "{")) as [->|H4].
  - destruct (braces s) as [|lo hi rest|] eqn:Eb; [by intros [= <- <-]| |done].
    apply braces_length in Eb. destruct (from_option _ _ _); [done|].
    intros H%Hl. simpl. lia.
  - by destruct c as [[] [] [] [] [] [] [] []]; try done; intros [= <- <-].
Qed.

Lemma unquantified_length a s r s' :
  unquantified a s = Return (r, s') → length s' ≤ length s.
Proof.
  destruct s as [|c s]; [by intros [= <- <-]|]. unfold unquantified.
  destruct (decide (c = "{")) as [->|H4].
  - by destruct (braces s); [intros [= <- <-]|..].
  - by destruct c as [[] [] [] [] [] [] [] []]; try done; intros [= <- <-].
Qed.

Lemma classAtom_length s a s' :
  classAtom s = Return (a, s') → length s' < length s.
Proof.
  destruct s as [|c s]; [done|]. unfold classAtom.
  destruct (decide (c = "\")) as [->|Hc].
  - destruct s as [|e s]; [done|].
    destruct (classEscape e s); [|done]. intros [= <- <-]. simpl. lia.
  - by destruct c as [[] [] [] [] [] [] [] []]; try done;
      intros [= <- <-]; simpl; lia.
Qed.

(** The shape of the first match of [classItems]. *)
Lemma match_bracket {A} (s : list ascii) (a : A) (f : list ascii → A) (d : A) :
  match s with
  | [] => a
  | "]" :: rest => f rest
  | _ => d
  end =
  match s with
  | [] => a
  | c :: rest => if decide (c = "]") then f rest else d
  end.
Proof.
  destruct s as [|c s]; [done|].
  by destruct c as [[] [] [] [] [] [] [] []].
Qed.

(** The shape of its match on what follows an atom. *)
Lemma match_dash {A} (s : list ascii) (a : A) (f : list ascii → A) (d : A) :
  match s with
  | "-" :: "]" :: _ | "-" :: [] => a
  | "-" :: s2 => f s2
  | _ => d
  end =
  match s with
  | [] => d
  | c :: s2 =>
      if decide (c = "-") then
        match s2 with
        | [] => a
        | c2 :: _ => if decide (c2 = "]") then a else f s2
        end
      else d
  end.
Proof.
  destruct s as [|c s]; [done|].
  destruct (decide (c = "-")) as [->|Hc].
  - destruct s as [|c2 s]; [done|].
    by destruct c2 as [[] [] [] [] [] [] [] []].
  - by destruct c as [[] [] [] [] [] [] [] []].
Qed.

Lemma classItems_fuel fuel fuel' s acc :
  length s < fuel → length s < fuel' →
  classItems fuel s acc = classItems fuel' s acc ∧
  ∀ items s', classItems fuel s acc = Return (items, s') →
              length s' < length s.
Proof.
  revert fuel' s acc.
  induction fuel as [|fuel IH]; intros [|fuel'] s acc H1 H2; try lia.
  cbn [classItems]. rewrite !match_bracket.
  destruct s as [|c s]; [done|].
  destruct (decide (c = "]")) as [->|Hc].
  { split; [done|]. intros items s' [= <- <-]. simpl. lia. }
  destruct (classAtom (c :: s)) as [[a s1]|e] eqn:Ea; [|done].
  apply classAtom_length in Ea. cbn [mbind completion_bind].
  rewrite !match_dash.
  assert (Hrec : ∀ t acc', length t < length (c :: s) →
    classItems fuel t acc' = classItems fuel' t acc' ∧
    ∀ items s', classItems fuel t acc' = Return (items, s') →
                length s' < length (c :: s)).
  { intros t acc' Ht. destruct (IH fuel' t acc') as [E Hl]; [simpl in *; lia..|].
    split; [done|]. intros items s' H%Hl. lia. }
  destruct s1 as [|c1 s2]; [by apply Hrec|].
  destruct (decide (c1 = "-")) as [->|Hc1]; [|by apply Hrec].
  destruct s2 as [|c2 s3]; [by apply Hrec|].
  destruct (decide (c2 = "]")) as [->|Hc2]; [by apply Hrec|].
  destruct (classAtom (c2 :: s3)) as [[b s4]|e] eqn:Eb; [|done].
  apply classAtom_length in Eb. cbn [mbind completion_bind].
  simpl in Ea, Eb.
  destruct a as [lo|ia], b as [hi|ib];
    try (apply Hrec; simpl; lia).
  destruct (Char.code lo <=? Char.code hi); [|done].
  apply Hrec. simpl. lia.
Qed.

Lemma characterClass_length s r s' :
  characterClass s = Return (r, s') → length s' < length s.
Proof.
  unfold characterClass.
  assert (H : ∀ invert t, length t ≤ length s →
    (p ← classItems (S (length t)) t []; Return (CharClass invert p.1, p.2))
    = Return (r, s') → length s' < length s).
  { intros invert t Ht.
    destruct (classItems_fuel (S (length t)) (S (length t)) t []) as [_ Hl];
      [lia..|].
    destruct (classItems _ t []) as [[items t']|] eqn:E; [|done].
    intros [= <- <-]. specialize (Hl _ _ eq_refl). simpl. lia. }
  destruct s as [|c s]; [by apply (H false [])|].
  destruct (decide (c = "^")) as [->|Hc].
  - intros E. apply H in E; simpl in *; lia.
  - destruct c as [[] [] [] [] [] [] [] []];
      (apply (H false); simpl; lia) || (by destruct Hc).
Qed.

Lemma atomEscape_length e s r s' :
  atomEscape e s = Return (r, s') → length s' ≤ length s.
Proof.
  unfold atomEscape. destruct (commonEscape e s) as [[a|]|]; [|done|].
  - apply quantified_length.
  - apply unquantified_length.
Qed.

Section Step.

Variables fuel fuel' : nat.
Hypothesis IH : ∀ s n alts terms,
  length s < fuel → length s < fuel' →
  fuelled fuel fuel' s n alts terms (length s).

(** A term, then the rest of the disjunction. *)
Lemma fuelled_term (c : Completion (Regex * list ascii)) n alts terms bound :
  (∀ r t, c = Return (r, t) → length t ≤ bound) →
  bound < fuel → bound < fuel' →
  (c ≫= λ p, disjunction fuel p.2 n alts (p.1 :: terms))
  = (c ≫= λ p, disjunction fuel' p.2 n alts (p.1 :: terms)) ∧
  ∀ r s' n', (c ≫= λ p, disjunction fuel p.2 n alts (p.1 :: terms))
             = Return (r, s', n') → length s' ≤ bound.
Proof.
  intros Hc H1 H2. destruct c as [[r t]|e]; [|done].
  specialize (Hc r t eq_refl). cbn [mbind completion_bind fst snd].
  destruct (IH t n alts (r :: terms)) as [E Hl]; [lia..|].
  split; [done|]. intros r' s' n' H%Hl. lia.
Qed.

(** A group: the disjunction inside, the closing parenthesis, the
    quantifier, then the rest. *)
Lemma fuelled_group (wrap : Regex → Regex) rest n0 alts terms :
  length rest < fuel → length rest < fuel' →
  (disjunction fuel rest n0 [] [] ≫= λ g,
     let '(r, s1, n1) := g in
     match s1 with
     | ")" :: s2 =>
         quantified (wrap r) s2 ≫= λ p,
           disjunction fuel p.2 n1 alts (p.1 :: terms)
     | _ => Throw SyntaxError
     end)
  = (disjunction fuel' rest n0 [] [] ≫= λ g,
     let '(r, s1, n1) := g in
     match s1 with
     | ")" :: s2 =>
         quantified (wrap r) s2 ≫= λ p,
           disjunction fuel' p.2 n1 alts (p.1 :: terms)
     | _ => Throw SyntaxError
     end) ∧
  ∀ r s' n',
    (disjunction fuel rest n0 [] [] ≫= λ g,
       let '(r, s1, n1) := g in
       match s1 with
       | ")" :: s2 =>
           quantified (wrap r) s2 ≫= λ p,
             disjunction fuel p.2 n1 alts (p.1 :: terms)
       | _ => Throw SyntaxError
       end) = Return (r, s', n') → length s' ≤ length rest.
Proof.
  intros H1 H2. destruct (IH rest n0 [] []) as [E Hl]; [lia..|].
  rewrite <- E. destruct (disjunction fuel rest n0 [] []) as [[[r s1] n1]|e];
    [|done].
  specialize (Hl r s1 n1 eq_refl). cbn [mbind completion_bind].
  destruct s1 as [|c s2]; [done|].
  destruct (decide (c = ")")) as [->|Hc].
  - apply fuelled_term; [|simpl in Hl; lia..].
    intros r' t H%quantified_length. simpl in Hl. lia.
  - by destruct c as [[] [] [] [] [] [] [] []].
Qed.

End Step.

Lemma disjunction_fuel fuel fuel' s n alts terms :
  length s < fuel → length s < fuel' →
  fuelled fuel fuel' s n alts terms (length s).
Proof.
  revert fuel' s n alts terms.
  induction fuel as [|fuel IH]; intros [|fuel'] s n alts terms H1 H2; try lia.
  assert (IH' : ∀ s n alts terms, length s < fuel → length s < fuel' →
                fuelled fuel fuel' s n alts terms (length s)) by auto.
  clear IH. unfold fuelled.
  destruct s as [|c rest].
  { split; [done|]. by intros r s' n' [= <- <- <-]. }
  cbn [length] in *.
  assert (Hterm : ∀ (q : Completion (Regex * list ascii)),
    (∀ r t, q = Return (r, t) → length t ≤ length rest) →
    (q ≫= λ p, disjunction fuel p.2 n alts (p.1 :: terms))
    = (q ≫= λ p, disjunction fuel' p.2 n alts (p.1 :: terms)) ∧
    ∀ r s' n', (q ≫= λ p, disjunction fuel p.2 n alts (p.1 :: terms))
               = Return (r, s', n') → length s' ≤ S (length rest)).
  { intros q Hq.
    destruct (fuelled_term fuel fuel' IH' q n alts terms (length rest))
      as [E Hl]; [done|lia..|].
    split; [done|]. intros r s' n' H%Hl. lia. }
  destruct (decide (c = "(")) as [->|Hopen].
  { cbn [disjunction].
    assert (Hgroup : ∀ wrap t n0, length t ≤ length rest →
      (disjunction fuel t n0 [] [] ≫= λ g,
         let '(r, s1, n1) := g in
         match s1 with
         | ")" :: s2 =>
             quantified (wrap r) s2 ≫= λ p,
               disjunction fuel p.2 n1 alts (p.1 :: terms)
         | _ => Throw SyntaxError
         end)
      = (disjunction fuel' t n0 [] [] ≫= λ g,
         let '(r, s1, n1) := g in
         match s1 with
         | ")" :: s2 =>
             quantified (wrap r) s2 ≫= λ p,
               disjunction fuel' p.2 n1 alts (p.1 :: terms)
         | _ => Throw SyntaxError
         end) ∧
      ∀ r s' n',
        (disjunction fuel t n0 [] [] ≫= λ g,
           let '(r, s1, n1) := g in
           match s1 with
           | ")" :: s2 =>
               quantified (wrap r) s2 ≫= λ p,
                 disjunction fuel p.2 n1 alts (p.1 :: terms)
           | _ => Throw SyntaxError
           end) = Return (r, s', n') → length s' ≤ S (length rest)).
    { intros wrap t n0 Ht.
      destruct (fuelled_group fuel fuel' IH' wrap t n0 alts terms)
        as [E Hl]; [lia..|].
      split; [exact E|]. intros r s' n' H%Hl. lia. }
    destruct rest as [|c1 r1]; [by apply (Hgroup (Group (S n)) [])|].
    destruct (decide (c1 = "?")) as [->|Hq].
    - destruct r1 as [|c2 r2]; [done|].
      destruct (decide (c2 = ":")) as [->|Hcolon].
      + apply (Hgroup (λ r, r)). simpl. lia.
      + by destruct c2 as [[] [] [] [] [] [] [] []].
    - by destruct c1 as [[] [] [] [] [] [] [] []];
        try done; apply (Hgroup (Group (S n))). }
  destruct (decide (c = ")")) as [->|Hclose].
  { cbn [disjunction]. split; [done|]. by intros r s' n' [= <- <- <-]. }
  destruct (decide (c = "|")) as [->|Hbar].
  { cbn [disjunction].
    destruct (IH' rest n (sequence terms :: alts) []) as [E Hl]; [lia..|].
    split; [done|]. intros r s' n' H%Hl. lia. }
  destruct (decide (c = "{")) as [->|Hbrace].
  { cbn [disjunction]. destruct (braces rest); [|done..].
    apply Hterm. intros r t. apply quantified_length. }
  destruct (decide (c = "[")) as [->|Hclass].
  { cbn [disjunction].
    destruct (characterClass rest) as [[cl t]|e] eqn:Ec; [|done].
    apply characterClass_length in Ec. simpl.
    apply Hterm. intros r t' H%quantified_length. lia. }
  destruct (decide (c = "\")) as [->|Hesc].
  { cbn [disjunction]. destruct rest as [|e rest]; [done|].
    apply Hterm. intros r t H%atomEscape_length. simpl. lia. }
  destruct (decide (c = "^")) as [->|Hstart].
  { cbn [disjunction]. apply Hterm. intros r t. apply unquantified_length. }
  destruct (decide (c = "$")) as [->|Hend].
  { cbn [disjunction]. apply Hterm. intros r t. apply unquantified_length. }
  destruct c as [[] [] [] [] [] [] [] []]; try done;
    cbn [disjunction]; apply Hterm; intros r t; apply quantified_length.
Qed.

(** The fuel [parsePattern] gives is enough: more changes nothing. *)
Lemma parsePattern_fuel p fuel :
  length p < fuel →
  parsePattern p =
  (disjunction fuel p 0 [] [] ≫= λ g,
     let '(r, rest, n) := g in
     match rest with
     | [] => Return (r, n)
     | _ => Throw SyntaxError
     end).
Proof.
  intros H. unfold parsePattern.
  by destruct (disjunction_fuel (S (length p)) fuel p 0 [] []) as [-> _];
    [lia..|].
Qed.

End Parser.

(** ** The stock illegal symbols *)

Section Stock.

Import RegExp.
Local Open Scope char_scope.

Lemma stockIllegalSymbols_parsed :
  Js.newRegExp (Some "[\\/:|#^[\]]|\.$"%string) (Some "g"%string)
  = Return stockIllegalSymbols.
Proof. reflexivity. Qed.

Lemma stock_setHas (c : ascii) :
  setHas (flags stockIllegalSymbols)
    [CiChar "\"; CiChar "/"; CiChar ":"; CiChar "|"; CiChar "#";
     CiChar "^"; CiChar "["; CiChar "]"] c = stockSymbol c.
Proof. by destruct c as [[] [] [] [] [] [] [] []]. Qed.

Lemma stockSymbol_dot : stockSymbol "." = false.
Proof. reflexivity. Qed.

Lemma dropTrailingDot_cons (c : ascii) (l : list ascii) :
  dropTrailingDot (c :: l) =
  match l with
  | [] => if Char.eqb c "." then [] else [c]
  | _ => c :: dropTrailingDot l
  end.
Proof.
  unfold dropTrailingDot. destruct l as [|d l].
  - simpl. destruct (Char.eqb c ".") eqn:E.
    + apply char_eqb_eq in E as ->. by rewrite decide_True.
    + apply char_eqb_neq in E. rewrite decide_False; [done|]. congruence.
  - rewrite last_cons_cons.
    destruct (decide (last (d :: l) = Some ".")); [|done].
    simpl. by rewrite Nat.sub_0_r.
Qed.

(** One attempt of the stock expression: it matches one code unit, a
    stock symbol or the dot that ends the input. *)
Lemma stock_matchAt bef c rest :
  matchAt stockIllegalSymbols bef (c :: rest) =
  if stockSymbol c || (Char.eqb c "." && bool_decide (rest = []))
  then Some (mkState (c :: bef) rest [None]) else None.
Proof.
  unfold matchAt. cbn [compile stockIllegalSymbols pattern flags groups].
  unfold characterSetMatcher. cbn [ahead xorb].
  rewrite stock_setHas. destruct (stockSymbol c) eqn:Es; [done|].
  cbn [orb]. unfold setHas. cbn [existsb itemHas ignoreCase andb orb].
  rewrite orb_false_r. unfold Char.eqb. rewrite Ascii.eqb_sym.
  destruct (Ascii.eqb c "."); [|done].
  destruct rest; by simpl.
Qed.

Lemma stock_replaceAll bef aft :
  replaceAll stockIllegalSymbols [] bef aft 0 = removeStockSymbols aft.
Proof.
  unfold removeStockSymbols. revert bef.
  induction aft as [|c rest IH]; intros bef; [done|].
  cbn [replaceAll]. rewrite stock_matchAt, dropTrailingDot_cons.
  destruct (stockSymbol c) eqn:Es; cbn [orb].
  - cbn [ahead length app]. replace (S (length rest) - length rest) with 1 by lia.
    destruct rest as [|d rest].
    + assert (Char.eqb c "." = false) as ->.
      { apply char_eqb_neq. intros ->. by rewrite stockSymbol_dot in Es. }
      simpl. rewrite filter_cons_False; [done|]. by rewrite Es.
    + rewrite IH, filter_cons_False; [done|]. by rewrite Es.
  - destruct (Char.eqb c ".") eqn:Ed; cbn [andb].
    + destruct rest as [|d rest]; [done|].
      rewrite bool_decide_eq_false_2 by done. cbn [sticky flags stockIllegalSymbols].
      rewrite IH, filter_cons_True; done.
    + cbn [sticky flags stockIllegalSymbols]. rewrite IH.
      destruct rest as [|d rest]; rewrite filter_cons_True; done.
Qed.

(** The first step of the sanitizer, as the expression computes it, is
    the removal of the stock symbols and of a dot that ends the string. *)
Lemma replace_stock (s : string) :
  Js.replace s stockIllegalSymbols ""%string
  = Js.text (removeStockSymbols (Js.units s)).
Proof. unfold Js.replace, replace. simpl. by rewrite stock_replaceAll. Qed.

Lemma removeStockSymbols_clean (l : list ascii) :
  Forall (λ c, stockSymbol c = false) (removeStockSymbols l).
Proof. apply Forall_forall. intros c [? _]%list_elem_of_filter. done. Qed.

Lemma removeStockSymbols_fixed (l : list ascii) :
  Forall (λ c, stockSymbol c = false) l → last l ≠ Some "." →
  removeStockSymbols l = l.
Proof.
  intros Hc Hd. unfold removeStockSymbols, dropTrailingDot.
  rewrite decide_False by done.
  induction Hc as [|c l Hc _ IH]; [done|].
  rewrite filter_cons_True by done. f_equal.
  destruct l as [|d l]; [done|]. apply IH. by rewrite last_cons_cons in Hd.
Qed.

End Stock.

(** ** Greedy repetition of a one-unit matcher *)

Section Greedy.

Import RegExp.

Lemma repeatMatcher_star m parens fuel x k :
  repeatMatcher m parens (S fuel) 0 None true x k =
  match m (resetCaptures parens x)
          (λ y, if length (ahead y) =? length (ahead x) then None
                else repeatMatcher m parens fuel 0 None true y k) with
  | Some z => Some z
  | None => k x
  end.
Proof. reflexivity. Qed.

Lemma star_oneUnit P m fuel bef aft caps k :
  oneUnit P m → length aft < fuel →
  repeatMatcher m [] fuel 0 None true (mkState bef aft caps) k
  = greedyRun P bef aft caps k.
Proof.
  intros Hm. revert fuel bef.
  induction aft as [|c rest IH]; intros [|fuel] bef Hf; try (simpl in Hf; lia);
    rewrite repeatMatcher_star, Hm;
    cbn [resetCaptures foldr ahead before captures step greedyRun]; [done|].
  destruct (P c); [|done].
  replace (length rest =? length (c :: rest)) with false
    by (symmetry; apply Nat.eqb_neq; simpl; lia).
  unfold step, resetCaptures. cbn [foldr before captures ahead].
  rewrite IH by (simpl in Hf; lia). done.
Qed.

Lemma compile_Dot_oneUnit fl :
  oneUnit (λ c, dotAll fl || negb (Char.isLineTerminator c)) (compile fl Dot).
Proof. intros x k. done. Qed.

Lemma compile_CharClass_oneUnit fl invert items :
  oneUnit (λ c, xorb invert (setHas fl items c))
          (compile fl (CharClass invert items)).
Proof. intros x k. done. Qed.

Lemma greedyRun_all P bef aft caps k :
  Forall (λ c, P c = true) aft →
  is_Some (k (mkState (reverse aft ++ bef) [] caps)) →
  greedyRun P bef aft caps k = k (mkState (reverse aft ++ bef) [] caps).
Proof.
  intros Ha. revert bef. induction Ha as [|c rest Hc _ IH]; intros bef Hk.
  - done.
  - simpl. rewrite Hc. rewrite reverse_cons, <- app_assoc in Hk |- *.
    simpl in Hk |- *. rewrite IH by done. by destruct Hk as [z ->].
Qed.

Lemma greedyRun_fail P bef aft caps k :
  (∀ b t, t `suffix_of` aft → k (mkState b t caps) = None) →
  greedyRun P bef aft caps k = None.
Proof.
  revert bef. induction aft as [|c rest IH]; intros bef Hk; simpl.
  - by apply Hk.
  - rewrite IH by (intros; by apply Hk, suffix_cons_r).
    rewrite Hk by done. by destruct (P c).
Qed.

(** Backtracking to the last position at which the continuation
    accepts. *)
Lemma greedyRun_found P bef u rest caps k z :
  Forall (λ c, P c = true) u →
  (∀ b t, t `suffix_of` drop 1 rest → k (mkState b t caps) = None) →
  k (mkState (reverse u ++ bef) rest caps) = Some z →
  greedyRun P bef (u ++ rest) caps k = Some z.
Proof.
  intros Hu Hk. revert bef.
  induction Hu as [|c u Hc _ IH]; intros bef Hz.
  - destruct rest as [|c rest]; [done|]. simpl in *.
    rewrite greedyRun_fail by done. rewrite Hz. by destruct (P c).
  - simpl. rewrite Hc, IH; [done|].
    by rewrite reverse_cons, <- app_assoc in Hz.
Qed.

End Greedy.

(** ** The serialized form of an expression *)

Section Serialized.

Import RegExp.
Local Open Scope char_scope.
Local Open Scope nat_scope.

Lemma serializedRegExp_parsed :
  Js.newRegExp (Some "\/(.*)?\/([a-z]*)"%string) (Some ""%string)
  = Return serializedRegExp.
Proof. reflexivity. Qed.

Lemma compile_Char_cons fl a bef c rest caps k :
  ignoreCase fl = false →
  compile fl (Char a) (mkState bef (c :: rest) caps) k
  = if Char.eqb a c then k (mkState (c :: bef) rest caps) else None.
Proof.
  intros Hi. cbn [compile]. unfold characterSetMatcher, setHas.
  cbn [ahead existsb itemHas]. rewrite Hi. cbn [andb].
  by destruct (Char.eqb a c).
Qed.

Lemma repeatMatcher_optional m parens fuel x k :
  repeatMatcher m parens (S (S fuel)) 0 (Some 1) true x k =
  match m (resetCaptures parens x)
          (λ y, if length (ahead y) =? length (ahead x) then None
                else k y) with
  | Some z => Some z
  | None => k x
  end.
Proof. reflexivity. Qed.

Lemma flagUnit_not_slash c : flagUnit c → Char.eqb "/" c = false.
Proof.
  intros H. apply char_eqb_neq. intros <-. by vm_compute in H.
Qed.

Lemma compile_Group fl idx r x k :
  compile fl (Group idx r) x k
  = compile fl r x (λ y, k (closeGroup idx x y)).
Proof. reflexivity. Qed.

Lemma compile_Repeat fl min max greedy r x k :
  compile fl (Repeat min max greedy r) x k
  = repeatMatcher (compile fl r) (groupsOf r) (S (min + length (ahead x)))
      min max greedy x k.
Proof. reflexivity. Qed.

(** The second group takes the whole run of lower-case letters. *)
Lemma flagsGroup_all b f caps :
  Forall flagUnit f →
  compile noFlags flagsGroup (mkState b f caps) Some
  = Some (mkState (reverse f ++ b) [] (<[2 := Some f]> caps)).
Proof.
  intros Hf. unfold flagsGroup. rewrite compile_Group, compile_Repeat.
  cbn [groupsOf ahead].
  rewrite (star_oneUnit _ _ _ _ _ _ _ (compile_CharClass_oneUnit _ _ _))
    by (simpl; lia).
  rewrite greedyRun_all.
  - unfold closeGroup, consumed. cbn [ahead before captures length].
    by rewrite Nat.sub_0_r, firstn_all.
  - eapply Forall_impl; [exact Hf|]. intros c Hc. unfold flagUnit in Hc.
    unfold setHas. cbn. unfold Char.isLower in Hc. by rewrite Hc.
  - done.
Qed.

Lemma closing_slash b f caps :
  Forall flagUnit f →
  closing (mkState b ("/" :: f) caps)
  = Some (mkState (reverse f ++ "/" :: b) [] (<[2 := Some f]> caps)).
Proof.
  intros Hf. unfold closing. rewrite compile_Char_cons by done.
  rewrite char_eqb_refl. by apply flagsGroup_all.
Qed.

Lemma closing_fail b t caps :
  from_option (Char.eqb "/") false (head t) = false →
  closing (mkState b t caps) = None.
Proof.
  unfold closing. destruct t as [|c t]; [done|]. cbn [head from_option].
  intros H. rewrite compile_Char_cons by done. by rewrite H.
Qed.

Lemma suffix_flags_head (t f : list ascii) :
  Forall flagUnit f → t `suffix_of` f →
  from_option (Char.eqb "/") false (head t) = false.
Proof.
  intros Hf [k ->]. apply Forall_app in Hf as [_ Hf].
  destruct Hf as [|c t Hc _]; [done|]. simpl. by apply flagUnit_not_slash.
Qed.

Lemma suffix_cons_cases {A} (t : list A) (x : A) (l : list A) :
  t `suffix_of` x :: l → t = x :: l ∨ t `suffix_of` l.
Proof.
  intros [[|y k] Hk]; simpl in Hk; [by left|].
  right. injection Hk as -> ->. by exists k.
Qed.

(** One attempt of the expression at the opening slash of a text
    slash, pattern, slash, flags. *)
Lemma serialized_matchAt bef p f :
  Forall lineUnit p → Forall flagUnit f →
  matchAt serializedRegExp bef ("/" :: p ++ "/" :: f)
  = Some (mkState (reverse f ++ "/" :: reverse p ++ "/" :: bef) []
            [None; if decide (p = []) then None else Some p; Some f]).
Proof.
  intros Hp Hf. unfold matchAt.
  change (compile (flags serializedRegExp) (pattern serializedRegExp)
            (mkState bef ("/" :: p ++ "/" :: f)
               (replicate (S (groups serializedRegExp)) None)) Some)
    with (compile noFlags (Char "/")
            (mkState bef ("/" :: p ++ "/" :: f) [None; None; None])
            (λ y, compile noFlags (Repeat 0 (Some 1) true patternGroup) y
                    closing)).
  rewrite compile_Char_cons by done. rewrite char_eqb_refl.
  rewrite compile_Repeat. cbn [ahead Nat.add groupsOf patternGroup].
  replace (length (p ++ "/" :: f)) with (S (length p + length f))
    by (rewrite length_app; simpl; lia).
  rewrite repeatMatcher_optional.
  unfold resetCaptures at 1. cbn [foldr before ahead captures list_insert].
  change (<[1:=None]> [None; None; None])
    with (@nil (option (list ascii)) ++ [None; None; None]).
  cbn [app]. unfold patternGroup. rewrite compile_Group, compile_Repeat.
  cbn [groupsOf ahead].
  rewrite (star_oneUnit _ _ _ _ _ _ _ (compile_Dot_oneUnit _))
    by (simpl; lia).
  assert (Hfail : ∀ b t, t `suffix_of` f →
    (λ y, if length (ahead y) =? length (p ++ "/" :: f) then None
          else closing y)
      (closeGroup 1 (mkState ("/" :: bef) (p ++ "/" :: f) [None; None; None])
         (mkState b t [None; None; None])) = None).
  { intros b t Ht. cbn beta. destruct (_ =? _); [done|].
    apply closing_fail. cbn [closeGroup ahead].
    by eapply suffix_flags_head. }
  destruct (decide (p = [])) as [->|Hne].
  - rewrite greedyRun_fail.
    + cbn [app]. rewrite closing_slash by done. by rewrite reverse_nil.
    + cbn [app]. intros b t [->|Ht]%suffix_cons_cases; [|by apply Hfail].
      cbn [closeGroup ahead]. by rewrite Nat.eqb_refl.
  - erewrite greedyRun_found; [done|..].
    + eapply Forall_impl; [exact Hp|]. intros c Hc. unfold lineUnit in Hc.
      cbn. by rewrite Hc.
    + exact Hfail.
    + cbn beta. unfold closeGroup, consumed. cbn [ahead before captures].
      replace (length ("/" :: f) =? length (p ++ "/" :: f)) with false.
      2:{ symmetry. apply Nat.eqb_neq. rewrite length_app.
          destruct p; [done|]. simpl. lia. }
      replace (length (p ++ "/" :: f) - length ("/" :: f)) with (length p)
        by (rewrite length_app; lia).
      rewrite take_app_length. by rewrite closing_slash.
Qed.

(** No attempt succeeds in a text without a slash. *)
Lemma serialized_search_no_slash bef s :
  Forall (λ c, Char.eqb "/" c = false) s →
  search serializedRegExp bef s = None.
Proof.
  intros Hs. revert bef.
  assert (Hat : ∀ bef t,
    from_option (Char.eqb "/") false (head t) = false →
    matchAt serializedRegExp bef t = None).
  { intros bef t Ht. unfold matchAt.
    change (compile (flags serializedRegExp) (pattern serializedRegExp)
              (mkState bef t (replicate (S (groups serializedRegExp)) None))
              Some)
      with (compile noFlags (Char "/") (mkState bef t [None; None; None])
              (λ y, compile noFlags (Repeat 0 (Some 1) true patternGroup) y
                      closing)).
    destruct t as [|c t]; [done|]. rewrite compile_Char_cons by done.
    cbn [head from_option] in Ht. by rewrite Ht. }
  induction Hs as [|c s Hc _ IH]; intros bef; cbn [search].
  - by rewrite Hat.
  - rewrite Hat by done. cbn [sticky flags serializedRegExp]. apply IH.
Qed.

End Serialized.

(** ** The deserializer *)

Section Deserializer.

Import RegExp.
Local Open Scope char_scope.
Local Open Scope nat_scope.

Lemma addNotices_nil h : addNotices [] h = h.
Proof. destruct h. unfold addNotices. simpl. by rewrite app_nil_r. Qed.

Lemma fallbackRegExp_created :
  Js.newRegExp (Some "$^"%string) (Some "g"%string) = Return fallbackRegExp.
Proof. reflexivity. Qed.

Lemma deserializeRegExp_run s h :
  deserializeRegExp s h
  = (deserialized s, addNotices (deserializeNotices s) h).
Proof.
  unfold deserializeRegExp, deserialized, deserializeNotices.
  destruct (Js.match_ s serializedRegExp) as [m|].
  - unfold lift. by rewrite addNotices_nil.
  - reflexivity.
Qed.

(** A text slash, pattern, slash, flags is taken apart into its pattern
    and its flags, and handed to the constructor; no notice is shown. *)
Lemma deserializeRegExp_serialized (p f : string) (h : Host) :
  Forall lineUnit (Js.units p) → Forall flagUnit (Js.units f) →
  deserializeRegExp ("/" +:+ p +:+ "/" +:+ f)%string h
  = (Js.newRegExp (Some p) (Some f), h).
Proof.
  intros Hp Hf. rewrite deserializeRegExp_run.
  unfold deserialized, deserializeNotices, Js.match_, Js.exec, exec.
  rewrite !units_app. change (Js.units "/") with ["/"]. cbn [app search].
  rewrite serialized_matchAt by done. cbn [result captures drop map lookup
    list_lookup mjoin option_join option_map].
  rewrite addNotices_nil. f_equal. unfold Js.newRegExp, result.
  cbn [submatches captures drop map lookup list_lookup mjoin option_join
       option_map default].
  f_equal.
  - destruct (decide (Js.units p = [])) as [E|E]; cbn [option_map default].
    + destruct p; [done | discriminate E].
    + by rewrite text_units.
  - by rewrite text_units.
Qed.

(** A text without a slash is malformed: one notice, and the fallback
    expression. *)
Lemma deserializeRegExp_malformed (s : string) (h : Host) :
  Forall (λ c, c ≠ "/") (Js.units s) →
  deserializeRegExp s h
  = (Return fallbackRegExp, addNotices [invalidNotice s] h).
Proof.
  intros Hs. rewrite deserializeRegExp_run.
  unfold deserialized, deserializeNotices, Js.match_, Js.exec, exec.
  rewrite serialized_search_no_slash; [done|].
  eapply Forall_impl; [exact Hs|]. intros c Hc. apply char_eqb_neq. congruence.
Qed.

(** *** The fallback expression *)

Lemma fallback_matchAt bef aft :
  matchAt fallbackRegExp bef aft =
  match bef, aft with
  | [], [] => Some (mkState [] [] [None])
  | _, _ => None
  end.
Proof. by destruct bef, aft. Qed.

Lemma fallback_search_inside bef aft :
  bef ≠ [] → search fallbackRegExp bef aft = None.
Proof.
  revert bef. induction aft as [|c aft IH]; intros bef Hb; cbn [search];
    rewrite fallback_matchAt; destruct bef; try done.
  cbn [sticky flags fallbackRegExp]. by apply IH.
Qed.

(** The fallback expression matches the empty string, and nothing else. *)
Lemma fallback_exec (s : string) :
  Js.exec fallbackRegExp s = if decide (s = ""%string) then Some [Some ""%string] else None.
Proof.
  destruct s as [|c s]; [done|]. rewrite decide_False by done.
  unfold Js.exec, exec. cbn [Js.units list_ascii_of_string search].
  rewrite fallback_matchAt. cbn [sticky flags fallbackRegExp].
  by rewrite fallback_search_inside.
Qed.

(** Replacing its matches changes no string. *)
Lemma fallback_replace (s : string) : Js.replace s fallbackRegExp "" = s.
Proof.
  destruct s as [|c s]; [done|]. unfold Js.replace.
  rewrite replace_no_match; [apply text_units|].
  pose proof (fallback_exec (String c s)) as H.
  rewrite decide_False in H by done. unfold Js.exec in H.
  by destruct (exec _ _).
Qed.

(** *** The empty expression *)

Lemma empty_exec (s : string) : Js.exec emptyRegExp s = Some [Some ""%string].
Proof.
  unfold Js.exec, exec. destruct (Js.units s) as [|c l]; [done|].
  cbn [search]. unfold matchAt. cbn [compile pattern emptyRegExp].
  unfold result. cbn [ahead]. by rewrite Nat.sub_diag.
Qed.

(** *** The deserializer, as specified *)

(** C2, as amended. For a text slash, pattern, slash, flags (the pattern
    without line terminator, the flags lower-case letters) that the
    constructor accepts, [deserializeRegExp] returns the expression of that
    pattern and those flags and shows no notice. For a text without a
    slash it shows one notice and returns the fallback expression, which
    has the g flag, matches no non-empty string and leaves every string as
    it is under replace. *)
Theorem deserializeRegExp_spec :
  (∀ p f re h,
     Forall lineUnit (Js.units p) → Forall flagUnit (Js.units f) →
     Js.newRegExp (Some p) (Some f) = Return re →
     deserializeRegExp ("/" +:+ p +:+ "/" +:+ f)%string h = (Return re, h)) ∧
  (∀ s h,
     Forall (λ c, c ≠ "/") (Js.units s) →
     deserializeRegExp s h
     = (Return fallbackRegExp, addNotices [invalidNotice s] h)) ∧
  RegExp.global (RegExp.flags fallbackRegExp) = true ∧
  (∀ x, x ≠ ""%string → Js.exec fallbackRegExp x = None) ∧
  (∀ x, Js.replace x fallbackRegExp "" = x).
Proof.
  split; [|split; [|split; [|split]]].
  - intros p f re h Hp Hf Hre.
    by rewrite deserializeRegExp_serialized, Hre.
  - apply deserializeRegExp_malformed.
  - done.
  - intros x Hx. rewrite fallback_exec. by rewrite decide_False.
  - apply fallback_replace.
Qed.

Lemma deserializeRegExp_spec_witness :
  (∃ re, deserializeRegExp "/.*\.excalidraw\.md$/g" quietHost
         = (Return re, quietHost)) ∧
  deserializeRegExp "not-a-regex" quietHost
  = (Return fallbackRegExp,
     addNotices [invalidNotice "not-a-regex"] quietHost) ∧
  Js.exec fallbackRegExp "not-a-regex" = None.
Proof.
  destruct deserializeRegExp_spec as (H1 & H2 & _ & H3 & _).
  split; [|split].
  - eexists.
    apply (H1 ".*\.excalidraw\.md$"%string "g"%string _ quietHost);
      [by repeat constructor | by repeat constructor | reflexivity].
  - apply H2. by repeat constructor.
  - by apply H3.
Defined.

(** C2 as stated fails: the fallback expression matches the empty string;
    and a text that is more than slash, pattern, slash, flags is taken
    for a serialized expression as soon as it holds one. *)
Lemma deserializeRegExp_fallback_matches :
  deserializeRegExp "not-a-regex" quietHost
  = (Return fallbackRegExp,
     addNotices [invalidNotice "not-a-regex"] quietHost) ∧
  Js.exec fallbackRegExp "" = Some [Some ""%string] ∧
  deserializeRegExp "x/a/g" quietHost
  = (Js.newRegExp (Some "a"%string) (Some "g"%string), quietHost).
Proof. done. Qed.

End Deserializer.

(** ** The sanitizer *)

Section Sanitizer.

Import RegExp.
Local Open Scope char_scope.
Local Open Scope nat_scope.

Lemma sanitizeHeading_run st heading h :
  sanitizeHeading st heading h
  = (sanitized st heading,
     addNotices (deserializeNotices (userIllegalSymbols st)) h).
Proof.
  unfold sanitizeHeading, sanitized, mbind, action_bind.
  rewrite deserializeRegExp_run.
  by destruct (deserialized (userIllegalSymbols st)).
Qed.

Lemma sanitized_clean st heading t :
  sanitized st heading = Return t →
  Forall (λ c, stockSymbol c = false) (Js.units t) ∧ Js.trim t = t.
Proof.
  unfold sanitized. destruct (deserialized _) as [re|]; [|done].
  intros [= <-]. split; [|apply trim_idempotent].
  apply trim_Forall. unfold Js.replace at 1. rewrite units_text.
  apply replace_Forall; [done|].
  rewrite replace_stock, units_text. apply removeStockSymbols_clean.
Qed.

(** The sanitizer leaves alone a string without stock symbols, final
    dot, match of the user expression and surrounding blanks. *)
Lemma sanitized_fixed st t re :
  deserialized (userIllegalSymbols st) = Return re →
  Forall (λ c, stockSymbol c = false) (Js.units t) →
  last (Js.units t) ≠ Some "." →
  Js.replace t re "" = t →
  Js.trim t = t →
  sanitized st t = Return t.
Proof.
  intros Hre Hc Hd Hu Ht. unfold sanitized. rewrite Hre.
  cbn [mbind completion_bind].
  rewrite replace_stock, removeStockSymbols_fixed, text_units by done.
  by rewrite Hu, Ht.
Qed.

(** C7, as amended. [sanitizeHeading] removes every stock illegal symbol
    and a dot that ends the string, then the matches of the deserialized
    user expression (every match, left to right, when the expression has
    the g flag; the first match only when it has not), then the blanks at
    both ends, in that order; the host only gets the notices of the
    deserializer. *)
Theorem sanitizeHeading_steps (st : Settings) (heading : string)
    (re : RegExp.t) (h h' : Host) :
  deserializeRegExp (userIllegalSymbols st) h = (Return re, h') →
  sanitizeHeading st heading h =
  (Return
     (Js.trim
        (Js.text
           (let stripped := removeStockSymbols (Js.units heading) in
            if global (flags re) then replaceAll re [] [] stripped 0
            else replaceFirst re [] [] stripped))),
   h').
Proof.
  intros Hre. rewrite sanitizeHeading_run.
  rewrite deserializeRegExp_run in Hre. injection Hre as Hre <-.
  unfold sanitized. rewrite Hre. cbn [mbind completion_bind].
  rewrite replace_stock. unfold Js.replace, replace. by rewrite units_text.
Qed.

Lemma sanitizeHeading_steps_witness :
  sanitizeHeading (mkSettings "/a/" []) "banana." quietHost
  = (Return "bnana"%string, quietHost).
Proof.
  apply (sanitizeHeading_steps (mkSettings "/a/" []) "banana."
           (Js.literal "a" "") quietHost quietHost).
  reflexivity.
Defined.

(** C7 as stated fails: without the g flag only the first match of the
    user expression goes, and the result still holds matches of it. *)
Lemma sanitizeHeading_keeps_later_matches :
  ∃ re,
    deserializeRegExp "/a/" quietHost = (Return re, quietHost) ∧
    sanitizeHeading (mkSettings "/a/" []) "banana" quietHost
    = (Return "bnana"%string, quietHost) ∧
    Js.exec re "bnana" = Some [Some "a"%string].
Proof. by exists (Js.literal "a" ""). Qed.

(** C1, as amended. Sanitizing a sanitized string again gives it back
    whenever that string neither ends with a dot nor holds anything the
    user expression removes. *)
Theorem sanitizeHeading_idempotent_on (st : Settings) (s t : string)
    (re : RegExp.t) (h h1 h2 : Host) :
  deserializeRegExp (userIllegalSymbols st) h = (Return re, h1) →
  sanitizeHeading st s h = (Return t, h2) →
  last (Js.units t) ≠ Some "." →
  Js.replace t re "" = t →
  (sanitizeHeading st t h2).1 = Return t.
Proof.
  intros Hre Hs Hd Hu. rewrite sanitizeHeading_run in Hs |- *.
  rewrite deserializeRegExp_run in Hre.
  injection Hre as Hre _. injection Hs as Hs _.
  destruct (sanitized_clean _ _ _ Hs) as [Hc Ht].
  cbn [fst]. by apply (sanitized_fixed st t re).
Qed.

Lemma sanitizeHeading_idempotent_on_witness :
  (sanitizeHeading DEFAULT_SETTINGS "a/b: c"
     (addNotices [invalidNotice ""] quietHost)).1
  = Return "ab c"%string.
Proof.
  apply (sanitizeHeading_idempotent_on DEFAULT_SETTINGS " [a/b: c] " "ab c"
           fallbackRegExp quietHost
           (addNotices [invalidNotice ""] quietHost)
           (addNotices [invalidNotice ""] quietHost));
    [reflexivity | reflexivity | discriminate | reflexivity].
Defined.

(** With the default settings the user expression removes nothing, and
    only a final dot stands in the way. *)
Lemma sanitizeHeading_idempotent_default (s t : string) (h h2 : Host) :
  sanitizeHeading DEFAULT_SETTINGS s h = (Return t, h2) →
  last (Js.units t) ≠ Some "." →
  (sanitizeHeading DEFAULT_SETTINGS t h2).1 = Return t.
Proof.
  intros Hs Hd. rewrite sanitizeHeading_run.
  assert (Hs' : sanitized DEFAULT_SETTINGS s = Return t).
  { rewrite sanitizeHeading_run in Hs. by inversion Hs. }
  destruct (sanitized_clean _ _ _ Hs') as [Hc Ht].
  cbn [fst]. apply (sanitized_fixed _ t fallbackRegExp); try done.
  apply fallback_replace.
Qed.

(** C1 as stated fails: only one final dot goes at a time, and removing
    the matches of the user expression can bring new ones about. *)
Lemma sanitizeHeading_not_idempotent :
  (sanitizeHeading DEFAULT_SETTINGS "a.." quietHost).1 = Return "a."%string ∧
  (sanitizeHeading DEFAULT_SETTINGS "a." quietHost).1 = Return "a"%string ∧
  (sanitizeHeading (mkSettings "/ab/g" []) "aabb" quietHost).1
  = Return "ab"%string ∧
  (sanitizeHeading (mkSettings "/ab/g" []) "ab" quietHost).1
  = Return ""%string.
Proof. done. Qed.

End Sanitizer.

(** ** The heading locator *)

Section Locator.

Lemma isHeading_Some (l : string) :
  isHeading (Some l) ↔ Js.startsWith l "# " = true.
Proof.
  split; [by intros (? & [= <-] & ?) | intros; by exists l].
Qed.

Lemma isHeading_None : ¬ isHeading None.
Proof. by intros (? & ? & _). Qed.

Lemma indexFrom_cases (a : list string) (x : string) (i : nat) :
  (Js.indexFrom a x i = (-1)%Z ∧ ∀ k, a !! k ≠ Some x) ∨
  (∃ j, Js.indexFrom a x i = Z.of_nat (i + j) ∧ a !! j = Some x ∧
        ∀ k, k < j → a !! k ≠ Some x).
Proof.
  revert i. induction a as [|y a IH]; intros i; simpl.
  - left. split; [done|]. by intros k.
  - destruct (decide (y = x)) as [->|Hne].
    + right. exists 0. rewrite Nat.add_0_r. split; [done|].
      split; [done|]. intros k Hk. lia.
    + destruct (IH (S i)) as [[-> Hn]|(j & -> & Hj & Hm)].
      * left. split; [done|]. intros [|k]; simpl; [congruence | apply Hn].
      * right. exists (S j). split; [f_equal; lia|]. split; [done|].
        intros [|k] Hk; simpl; [congruence | apply Hm; lia].
Qed.

Lemma scanHeading_cases (rest : list string) (i : nat) :
  (scanHeading rest i = (-1)%Z ∧ ∀ k, ¬ isHeading (rest !! k)) ∨
  (∃ j, scanHeading rest i = Z.of_nat (i + j) ∧ isHeading (rest !! j) ∧
        ∀ k, k < j → ¬ isHeading (rest !! k)).
Proof.
  revert i. induction rest as [|l rest IH]; intros i; cbn [scanHeading].
  - left. split; [done|]. intros k. apply isHeading_None.
  - destruct (Js.startsWith l "# ") eqn:E.
    + right. exists 0. rewrite Nat.add_0_r. split; [done|].
      split; [by apply isHeading_Some|]. intros k Hk. lia.
    + destruct (IH (S i)) as [[-> Hn]|(j & -> & Hj & Hm)].
      * left. split; [done|]. intros [|k]; simpl; [|apply Hn].
        rewrite isHeading_Some. congruence.
      * right. exists (S j). split; [f_equal; lia|]. split; [done|].
        intros [|k] Hk; simpl; [|apply Hm; lia].
        rewrite isHeading_Some. congruence.
Qed.

Lemma getStartLine_plain (lines : list string) :
  lines !! 0 ≠ Some "---" → getStartLine lines = 0%Z.
Proof. intros H. unfold getStartLine. by rewrite decide_False. Qed.

Lemma getStartLine_closed (lines : list string) (c : nat) :
  lines !! 0 = Some "---" → 1 ≤ c → lines !! c = Some "---" →
  (∀ j, 1 ≤ j < c → lines !! j ≠ Some "---") →
  getStartLine lines = (Z.of_nat c + 1)%Z.
Proof.
  intros H0 Hc Hl Hm. unfold getStartLine, Js.indexOf.
  rewrite decide_True by done. f_equal.
  destruct (indexFrom_cases (drop 1 lines) "---" 1)
    as [[_ Hn]|(j & -> & Hj & Hk)].
  - exfalso. apply (Hn (c - 1)). rewrite lookup_drop.
    by replace (1 + (c - 1)) with c by lia.
  - rewrite lookup_drop in Hj. f_equal.
    destruct (Nat.lt_trichotomy (1 + j) c) as [Hlt|[Heq|Hgt]]; [|done|].
    + exfalso. by apply (Hm (1 + j)); [lia|].
    + exfalso. apply (Hk (c - 1)); [lia|]. rewrite lookup_drop.
      by replace (1 + (c - 1)) with c by lia.
Qed.

Lemma getStartLine_open (lines : list string) :
  lines !! 0 = Some "---" → (∀ j, 1 ≤ j → lines !! j ≠ Some "---") →
  getStartLine lines = 0%Z.
Proof.
  intros H0 Hm. unfold getStartLine, Js.indexOf. rewrite decide_True by done.
  destruct (indexFrom_cases (drop 1 lines) "---" 1)
    as [[-> _]|(j & _ & Hj & _)]; [done|].
  rewrite lookup_drop in Hj. exfalso. by apply (Hm (1 + j)); [lia|].
Qed.

Lemma getStartLine_nonneg (lines : list string) : (0 ≤ getStartLine lines)%Z.
Proof.
  unfold getStartLine, Js.indexOf. destruct (decide _); [|done].
  destruct (indexFrom_cases (drop 1 lines) "---" 1)
    as [[-> _]|(j & -> & _)]; lia.
Qed.

(** An index the locator returns is the index of a heading line. *)
Lemma getHeadingLine_heading (lines : list string) (i : nat) :
  getHeadingLine lines = Z.of_nat i → isHeading (lines !! i).
Proof.
  unfold getHeadingLine.
  destruct (scanHeading_cases (drop (Z.to_nat (getStartLine lines)) lines)
              (Z.to_nat (getStartLine lines)))
    as [[-> _]|(j & -> & Hj & _)]; [lia|].
  intros <-%Nat2Z.inj. by rewrite lookup_drop in Hj.
Qed.

Lemma startsWith_marker (l : string) :
  Js.startsWith l "# " = true ↔ ∃ htext, l = ("# " +:+ htext)%string.
Proof.
  split.
  - destruct l as [|a [|b l]]; cbn [Js.startsWith];
      rewrite ?andb_false_r; try done.
    intros [Ha [Hb _]%andb_true_iff]%andb_true_iff.
    apply char_eqb_eq in Ha as <-, Hb as <-. by exists l.
  - intros [htext ->]. reflexivity.
Qed.

(** C5. [getHeadingLine] returns the index of the first line at or after
    the start line that starts with the heading marker, and -1 when there
    is none; the start line is 0 without an opening delimiter, one past
    the next delimiter (looked for from index 1) when there is one, and 0
    when the block is never closed. *)
Theorem getHeadingLine_spec (lines : list string) :
  let startLine := Z.to_nat (getStartLine lines) in
  ((lines !! 0 ≠ Some "---" → getStartLine lines = 0%Z) ∧
   (∀ c, lines !! 0 = Some "---" → 1 ≤ c → lines !! c = Some "---" →
         (∀ j, 1 ≤ j < c → lines !! j ≠ Some "---") →
         getStartLine lines = (Z.of_nat c + 1)%Z) ∧
   (lines !! 0 = Some "---" → (∀ j, 1 ≤ j → lines !! j ≠ Some "---") →
    getStartLine lines = 0%Z)) ∧
  (∀ i : nat, getHeadingLine lines = Z.of_nat i ↔
     startLine ≤ i ∧ isHeading (lines !! i) ∧
     ∀ j, startLine ≤ j < i → ¬ isHeading (lines !! j)) ∧
  (getHeadingLine lines = (-1)%Z ↔
     ∀ j, startLine ≤ j → ¬ isHeading (lines !! j)) ∧
  (getHeadingLine lines = (-1)%Z ∨
   ∃ i : nat, getHeadingLine lines = Z.of_nat i).
Proof.
  intros startLine. split.
  { split; [apply getStartLine_plain|].
    split; [intros c; apply getStartLine_closed | apply getStartLine_open]. }
  unfold getHeadingLine. fold startLine.
  destruct (scanHeading_cases (drop startLine lines) startLine)
    as [[E Hn]|(j & E & Hj & Hm)]; rewrite E.
  - assert (Hall : ∀ j, startLine ≤ j → ¬ isHeading (lines !! j)).
    { intros j Hj. specialize (Hn (j - startLine)). rewrite lookup_drop in Hn.
      by replace (startLine + (j - startLine)) with j in Hn by lia. }
    split; [|split; [done | by left]].
    intros i. split; [lia|]. intros (Hi & Hh & _). by destruct (Hall i Hi).
  - rewrite lookup_drop in Hj.
    assert (Hbefore : ∀ k, startLine ≤ k < startLine + j →
                           ¬ isHeading (lines !! k)).
    { intros k Hk. specialize (Hm (k - startLine)). rewrite lookup_drop in Hm.
      replace (startLine + (k - startLine)) with k in Hm by lia.
      apply Hm. lia. }
    split; [|split; [|right; by exists (startLine + j)]].
    + intros i. split.
      * intros Hi. apply Nat2Z.inj in Hi as <-. split; [lia|]. done.
      * intros (Hi & Hh & Hb). f_equal.
        destruct (Nat.lt_trichotomy (startLine + j) i) as [Hlt|[Heq|Hgt]];
          [|done|].
        -- exfalso. by apply (Hb (startLine + j)); [lia|].
        -- exfalso. by apply (Hbefore i); [lia|].
    + split; [lia|]. intros Hall. exfalso.
      by apply (Hall (startLine + j)); [lia|].
Qed.

Lemma getHeadingLine_spec_witness :
  getStartLine ["---"; "title: x"; "---"; "# Real Heading"]%string = 3%Z ∧
  getHeadingLine ["---"; "title: x"; "---"; "# Real Heading"]%string = 3%Z.
Proof.
  destruct (getHeadingLine_spec
              ["---"; "title: x"; "---"; "# Real Heading"]%string)
    as ((_ & Hc & _) & Hi & _).
  split.
  - apply (Hc 2); [reflexivity | lia | reflexivity |].
    intros j Hj. assert (j = 1) as -> by lia. discriminate.
  - apply (Hi 3). split; [by vm_compute|]. split; [by eexists|].
    intros j Hj. vm_compute in Hj. lia.
Defined.

End Locator.

(** ** The sync engine *)

Section Sync.

Import RegExp.
Local Open Scope char_scope.
Local Open Scope nat_scope.

Lemma replaceAll_unit (fl : Flags) (a b : ascii) bef aft :
  ignoreCase fl = false → sticky fl = false →
  replaceAll (mk (Char a) 0 fl) [b] bef aft 0
  = map (λ c, if Char.eqb a c then b else c) aft.
Proof.
  intros Hi Hs. revert bef. induction aft as [|c rest IH]; intros bef; [done|].
  cbn [replaceAll map]. unfold matchAt. cbn [pattern flags groups replicate].
  rewrite compile_Char_cons by done. destruct (Char.eqb a c).
  - cbn [ahead length app].
    replace (S (length rest) - length rest) with 1 by lia. by rewrite IH.
  - rewrite Hs. by rewrite IH.
Qed.

Lemma replace_hyphens (t : string) :
  Js.replace t (Js.literal "-" "g") " " = substitute "-" " " t.
Proof.
  unfold Js.replace, substitute. f_equal.
  change (Js.literal "-" "g") with (mk (Char "-") 0 globalFlag).
  by apply replaceAll_unit.
Qed.

Lemma replace_spaces (t : string) :
  Js.replace t (Js.literal " " "g") "-" = substitute " " "-" t.
Proof.
  unfold Js.replace, substitute. f_equal.
  change (Js.literal " " "g") with (mk (Char " ") 0 globalFlag).
  by apply replaceAll_unit.
Qed.

Lemma substitute_empty a b s : substitute a b s = ""%string ↔ s = ""%string.
Proof. unfold substitute. by destruct s. Qed.

Lemma toLowerCase_substitute (t : string) :
  Js.toLowerCase (substitute " " "-" t) = substitute " " "-" (Js.toLowerCase t).
Proof.
  unfold Js.toLowerCase, substitute. rewrite !units_text. f_equal.
  rewrite <- !list_fmap_compose. apply list_fmap_ext. intros _ c _. simpl.
  by destruct c as [[] [] [] [] [] [] [] []].
Qed.

(** What [handleSyncFilenameToHeading] does, by cases. *)
Lemma handleSyncFilenameToHeading_run st file h :
  handleSyncFilenameToHeading st file h =
  let h1 := addNotices (deserializeNotices (userIllegalSymbols st)) h in
  match sanitized st (basename file) with
  | Throw e => (Throw e, h1)
  | Return t =>
      if decide (t = ""%string) then (Throw TypeError, h1)
      else match headingFor t with
           | Throw e => (Throw e, h1)
           | Return heading =>
               match files h !! path file with
               | None => (Return (), h1)
               | Some data =>
                   (Return (),
                    mkHost (<[path file :=
                                Js.joinLines
                                  (placeHeading heading (Js.splitLines data))]>
                              (files h))
                           (fileCache h) (notices h1) (renames h))
               end
           end
  end.
Proof.
  unfold handleSyncFilenameToHeading, mbind, action_bind.
  rewrite sanitizeHeading_run. cbn zeta.
  destruct (sanitized st (basename file)) as [t|e]; [|done].
  rewrite replace_hyphens. destruct (decide (t = ""%string)) as [->|Hne]; [done|].
  unfold headingFor, capitalize.
  destruct (substitute "-" " " t) as [|c r] eqn:E.
  { by apply substitute_empty in E. }
  cbn [Js.first Js.slice1]. unfold lift.
  destruct (Js.toUpperCase (String c "")) as [initial|e]; [|done].
  cbn [mbind completion_bind]. unfold vaultReadThen. cbn [files addNotices].
  destruct (files h !! path file) as [data|]; [|done].
  by unfold vaultModify, placeHeading.
Qed.

Lemma sanitizeHeading_returns st heading h t h1 :
  sanitizeHeading st heading h = (Return t, h1) ↔
  sanitized st heading = Return t ∧
  h1 = addNotices (deserializeNotices (userIllegalSymbols st)) h.
Proof.
  rewrite sanitizeHeading_run. split; [by intros [= -> <-] | by intros [-> ->]].
Qed.

(** Where the basename sanitizes to a non-empty string and the file can be
    read, the heading made from the basename is written over the heading
    line, or before the first line when there is none. *)
Lemma handleSyncFilenameToHeading_writes st file h t h1 heading data :
  sanitizeHeading st (basename file) h = (Return t, h1) →
  t ≠ ""%string →
  headingFor t = Return heading →
  files h !! path file = Some data →
  handleSyncFilenameToHeading st file h =
  (Return (),
   mkHost (<[path file :=
               Js.joinLines (placeHeading heading (Js.splitLines data))]>
             (files h1))
          (fileCache h1) (notices h1) (renames h1)).
Proof.
  intros [Hs ->]%sanitizeHeading_returns Ht Hh Hd.
  rewrite handleSyncFilenameToHeading_run. cbn zeta.
  by rewrite Hs, decide_False, Hh, Hd.
Qed.

Lemma handleSyncFilenameToHeading_no_rename st file h :
  renames (handleSyncFilenameToHeading st file h).2 = renames h.
Proof.
  rewrite handleSyncFilenameToHeading_run. cbn zeta.
  destruct (sanitized _ _) as [t|]; [|done].
  destruct (decide _); [done|]. destruct (headingFor t); [|done].
  by destruct (files h !! path file).
Qed.

(** Where the locator finds a heading line, that line alone changes; the
    other lines and the number of lines stay. *)
Lemma placeHeading_found heading lines (i : nat) :
  getHeadingLine lines = Z.of_nat i →
  placeHeading heading lines = <[i := heading]> lines ∧
  placeHeading heading lines !! i = Some heading ∧
  (∀ j, j ≠ i → placeHeading heading lines !! j = lines !! j) ∧
  length (placeHeading heading lines) = length lines.
Proof.
  intros Hi. unfold placeHeading. rewrite Hi.
  destruct (decide _) as [_|Hn]; [|destruct Hn; lia]. rewrite Nat2Z.id.
  split; [done|]. split; [|split].
  - apply list_lookup_insert_eq.
    apply getHeadingLine_heading in Hi as (l & Hl & _).
    by eapply lookup_lt_Some.
  - intros j Hj. by apply list_lookup_insert_ne.
  - apply length_insert.
Qed.

(** Where it finds none, the heading comes before the first line, front
    matter or not. *)
Lemma placeHeading_missing heading lines :
  getHeadingLine lines = (-1)%Z → placeHeading heading lines = heading :: lines.
Proof. intros Hn. unfold placeHeading. rewrite Hn. by destruct (decide _). Qed.

(** The scenario of the specification: one line of text, the basename
    my-note. *)
Lemma handleSyncFilenameToHeading_scenario :
  let file := mkFile "my-note.md" "my-note" "md" (Some "/"%string) in
  let h := mkHost {[ "my-note.md"%string := "Some text"%string ]} ∅ [] [] in
  files (handleSyncFilenameToHeading DEFAULT_SETTINGS file h).2 !! path file
  = Some (Js.joinLines ["# My note"; "Some text"]%string).
Proof. reflexivity. Qed.

(** C3, at an input on which the source fails. The claim asks for the
    heading line made from the basename; for a basename of illegal symbols
    the source throws before it reads the file, and writes nothing. *)
Theorem handleSyncFilenameToHeading_symbol_basename :
  let file := mkFile "#.md" "#" "md" (Some "/"%string) in
  let h := mkHost {[ "#.md"%string := "Some text"%string ]} ∅ [] [] in
  handleSyncFilenameToHeading DEFAULT_SETTINGS file h
  = (Throw TypeError, addNotices [invalidNotice ""] h).
Proof. reflexivity. Qed.

Lemma trimStart_blank (l : list ascii) : Forall blank l → Js.trimStart l = [].
Proof. induction 1 as [|c l Hc _ IH]; simpl; [done|]. by rewrite Hc. Qed.

(** A basename of stock symbols and blanks only sanitizes to the empty
    string, whatever the user expression. *)
Lemma sanitized_symbols_blanks st b t :
  Forall (λ c, stockSymbol c = true ∨ blank c) (Js.units b) →
  sanitized st b = Return t → t = ""%string.
Proof.
  intros Hb. unfold sanitized.
  destruct (deserialized _) as [re|]; [|done]. intros [= <-].
  unfold Js.trim, Js.replace at 1. rewrite units_text, trimStart_blank; [done|].
  apply replace_Forall; [done|]. rewrite replace_stock, units_text.
  unfold removeStockSymbols, dropTrailingDot. apply Forall_forall.
  intros c [Hc Hin]%list_elem_of_filter.
  assert (c ∈ Js.units b) as Hin'.
  { destruct (decide _); [|done].
    apply elem_of_take in Hin as (i & Hi & _).
    by eapply list_elem_of_lookup_2. }
  rewrite Forall_forall in Hb. destruct (Hb c Hin') as [Hs|Hs]; [|done].
  congruence.
Qed.

(** C9. Where the basename sanitizes to the empty string,
    [handleSyncFilenameToHeading] throws a TypeError (it reads the first
    code unit of an empty string and calls a method on the undefined
    result) and the vault is left as it was. *)
Theorem handleSyncFilenameToHeading_empty_basename (st : Settings)
    (file : TFile) (h h1 : Host) :
  sanitizeHeading st (basename file) h = (Return ""%string, h1) →
  handleSyncFilenameToHeading st file h = (Throw TypeError, h1) ∧
  files h1 = files h ∧ renames h1 = renames h.
Proof.
  intros [Hs ->]%sanitizeHeading_returns.
  rewrite handleSyncFilenameToHeading_run. cbn zeta. by rewrite Hs.
Qed.

Lemma handleSyncFilenameToHeading_empty_basename_witness :
  let file := mkFile "dir/ [#].md" " [#]" "md" (Some "dir"%string) in
  let h := mkHost {[ "dir/ [#].md"%string := "body"%string ]} ∅ [] [] in
  handleSyncFilenameToHeading DEFAULT_SETTINGS file h
  = (Throw TypeError, addNotices [invalidNotice ""] h) ∧
  files (addNotices [invalidNotice ""] h) = files h ∧
  renames (addNotices [invalidNotice ""] h) = renames h.
Proof.
  intros file h.
  apply (handleSyncFilenameToHeading_empty_basename DEFAULT_SETTINGS file h).
  reflexivity.
Defined.

(** Where the locator finds no heading, [handleSyncHeadingToFilename]
    returns, leaves the host as [handleSyncFilenameToHeading] leaves it and
    asks for no rename; where the basename sanitizes to a non-empty string
    whose heading is [heading], that heading becomes the first line. *)
Lemma handleSyncHeadingToFilename_fallback_writes (st : Settings)
    (file : TFile) (h : Host) (data : string) :
  files h !! path file = Some data →
  getHeadingLine (Js.splitLines data) = (-1)%Z →
  handleSyncHeadingToFilename st file h
  = (Return (), (handleSyncFilenameToHeading st file h).2) ∧
  renames (handleSyncHeadingToFilename st file h).2 = renames h ∧
  ∀ t h1 heading,
    sanitizeHeading st (basename file) h = (Return t, h1) →
    t ≠ ""%string →
    headingFor t = Return heading →
    files (handleSyncHeadingToFilename st file h).2 !! path file
    = Some (Js.joinLines (heading :: Js.splitLines data)).
Proof.
  intros Hd Hn.
  assert (E : handleSyncHeadingToFilename st file h
              = (Return (), (handleSyncFilenameToHeading st file h).2)).
  { unfold handleSyncHeadingToFilename, vaultReadThen at 1.
    rewrite Hd. cbn zeta. rewrite Hn. by destruct (decide _). }
  rewrite E. split; [done|].
  split; [apply handleSyncFilenameToHeading_no_rename|].
  intros t h1 heading Hs Ht Hh.
  rewrite (handleSyncFilenameToHeading_writes st file h t h1 heading data)
    by done.
  cbn [fst snd files]. rewrite lookup_insert_eq.
  by rewrite placeHeading_missing.
Qed.

(** C8, at an input on which the source fails. The claim asks, where the
    locator finds no heading, for a heading made from the filename and for
    no error. For a basename of illegal symbols the locator finds no
    heading in the one line of text, the fallback
    [handleSyncFilenameToHeading] throws a TypeError,
    [handleSyncHeadingToFilename] itself returns (the error is left in a
    promise that nobody holds), no rename is asked for and the content of
    the file stays without a heading. *)
Theorem handleSyncHeadingToFilename_fallback_symbol_basename :
  let file := mkFile "#.md" "#" "md" (Some "/"%string) in
  let h := mkHost {[ "#.md"%string := "Some text"%string ]} ∅ [] [] in
  getHeadingLine (Js.splitLines "Some text") = (-1)%Z ∧
  handleSyncFilenameToHeading DEFAULT_SETTINGS file h
  = (Throw TypeError, addNotices [invalidNotice ""] h) ∧
  handleSyncHeadingToFilename DEFAULT_SETTINGS file h
  = (Return (), addNotices [invalidNotice ""] h) ∧
  files (handleSyncHeadingToFilename DEFAULT_SETTINGS file h).2 !! path file
  = Some "Some text"%string ∧
  renames (handleSyncHeadingToFilename DEFAULT_SETTINGS file h).2 = [].
Proof. done. Qed.

Lemma removeStockSymbols_marker (l : list ascii) :
  removeStockSymbols ("#" :: " " :: l) = " " :: removeStockSymbols l.
Proof.
  unfold removeStockSymbols. rewrite dropTrailingDot_cons.
  destruct l as [|c l].
  - by rewrite dropTrailingDot_cons.
  - rewrite (dropTrailingDot_cons " " (c :: l)).
    by rewrite filter_cons_False, filter_cons_True.
Qed.

(** With a user expression that removes nothing, sanitizing a heading line
    and sanitizing its text come to the same. *)
Lemma sanitized_marker st htext re :
  deserialized (userIllegalSymbols st) = Return re →
  (∀ x, Js.replace x re "" = x) →
  sanitized st ("# " +:+ htext)%string = sanitized st htext.
Proof.
  intros Hre Hu. unfold sanitized. rewrite Hre. cbn [mbind completion_bind].
  rewrite !Hu, !replace_stock. f_equal.
  change (Js.units ("# " +:+ htext)%string)
    with ("#" :: " " :: Js.units htext).
  rewrite removeStockSymbols_marker.
  change (Js.text (" " :: removeStockSymbols (Js.units htext)))
    with (" " +:+ Js.text (removeStockSymbols (Js.units htext)))%string.
  apply trim_app_blank. by repeat constructor.
Qed.

(** C4, as amended. Where the heading line is the marker followed by the
    text [htext], heading-to-filename sync asks for a rename to the parent
    directory, a slash, the slug and the extension md, the slug being the
    sanitized heading line (marker included) in lower case with its spaces
    turned into hyphens; with a user expression that removes nothing, as in
    the default settings, the sanitized line is the sanitized text. *)
Theorem handleSyncHeadingToFilename_renames (st : Settings) (file : TFile)
    (h h1 : Host) (data htext t : string) (i : nat) :
  files h !! path file = Some data →
  getHeadingLine (Js.splitLines data) = Z.of_nat i →
  Js.splitLines data !! i = Some ("# " +:+ htext)%string →
  sanitizeHeading st ("# " +:+ htext)%string h = (Return t, h1) →
  handleSyncHeadingToFilename st file h =
  (Return (),
   mkHost (files h1) (fileCache h1) (notices h1)
          (renames h1 ++
           [(path file,
             (default "undefined" (parent file) +:+ "/" +:+
              substitute " " "-" (Js.toLowerCase t) +:+ ".md")%string)])) ∧
  ∀ re h', deserializeRegExp (userIllegalSymbols st) h = (Return re, h') →
           (∀ x, Js.replace x re "" = x) →
           (sanitizeHeading st htext h).1 = Return t.
Proof.
  intros Hd Hi Hl Hs. split.
  - unfold handleSyncHeadingToFilename, vaultReadThen. rewrite Hd. cbn zeta.
    rewrite Hi. destruct (decide _) as [_|Hn]; [|destruct Hn; lia].
    rewrite Nat2Z.id, Hl. cbn [default from_option id].
    unfold mbind, action_bind.
    rewrite Hs. by rewrite replace_spaces, toLowerCase_substitute.
  - intros re h' Hre Hu. rewrite deserializeRegExp_run in Hre.
    injection Hre as Hre _. apply sanitizeHeading_returns in Hs as [Hs _].
    rewrite sanitizeHeading_run. cbn [fst].
    by rewrite <- (sanitized_marker st htext re).
Qed.

Lemma handleSyncHeadingToFilename_renames_witness :
  let file := mkFile "dir/my-note.md" "my-note" "md" (Some "dir"%string) in
  let data := ("# Hello World" +:+ Js.newline +:+ "body")%string in
  let h := mkHost {[ "dir/my-note.md"%string := data ]} ∅ [] [] in
  handleSyncHeadingToFilename DEFAULT_SETTINGS file h =
  (Return (),
   mkHost (files h) ∅ [invalidNotice ""]
          [("dir/my-note.md", "dir/hello-world.md")%string]) ∧
  (sanitizeHeading DEFAULT_SETTINGS "Hello World" h).1
  = Return "Hello World"%string.
Proof.
  intros file data h.
  destruct (handleSyncHeadingToFilename_renames DEFAULT_SETTINGS file h
              (addNotices [invalidNotice ""] h) data "Hello World"
              "Hello World" 0 eq_refl eq_refl eq_refl eq_refl) as [H1 H2].
  split; [exact H1|].
  apply (H2 fallbackRegExp (addNotices [invalidNotice ""] h) eq_refl).
  apply fallback_replace.
Defined.

(** C4 as stated fails: the line is sanitized with its marker, and a user
    expression that looks at the start of the string tells the line from
    its text. *)
Lemma handleSyncHeadingToFilename_sanitizes_line :
  let st := mkSettings "/^x/g" [] in
  let file := mkFile "dir/my-note.md" "my-note" "md" (Some "dir"%string) in
  let h := mkHost {[ "dir/my-note.md"%string := "# xy"%string ]} ∅ [] [] in
  getHeadingLine (Js.splitLines "# xy") = 0%Z ∧
  handleSyncHeadingToFilename st file h =
  (Return (),
   mkHost (files h) ∅ [] [("dir/my-note.md", "dir/xy.md")%string]) ∧
  (sanitizeHeading st "xy" h).1 = Return "y"%string.
Proof. done. Qed.

(** The case mappings reach the letters of the Latin-1 Supplement: the
    heading with the upper-case e acute (201) asks for the name with the
    lower-case one (233), and that base name gives the heading back. *)
Example handleSync_latin_letters :
  let upper := String "201" "cole"%string in
  let lower := String "233" "cole"%string in
  let file := mkFile "dir/my-note.md" "my-note" "md" (Some "dir"%string) in
  let h := mkHost {[ "dir/my-note.md"%string := ("# " +:+ upper)%string ]}
                  ∅ [] [] in
  let file' := mkFile ("dir/" +:+ lower +:+ ".md") lower "md"
                      (Some "dir"%string) in
  let h' := mkHost {[ path file' := "Some text"%string ]} ∅ [] [] in
  renames (handleSyncHeadingToFilename DEFAULT_SETTINGS file h).2
  = [("dir/my-note.md"%string, path file')] ∧
  files (handleSyncFilenameToHeading DEFAULT_SETTINGS file' h').2 !! path file'
  = Some (Js.joinLines [("# " +:+ upper)%string; "Some text"%string]).
Proof. done. Qed.

(** The sanitizer strips the no-break space (160) at both ends, as it
    strips the other blanks. *)
Example sanitizeHeading_no_break_space :
  (sanitizeHeading DEFAULT_SETTINGS
     (String "160" (String "009" ("a b" +:+ String "160" " "))) quietHost).1
  = Return "a b"%string.
Proof. done. Qed.

End Sync.

(** ** The ignore filter *)

Section Ignore.

Lemma deserializeRegExp_value r h : (deserializeRegExp r h).1 = deserialized r.
Proof. by rewrite deserializeRegExp_run. Qed.

Lemma ignoredByRegexen_returns regexen file h b h' :
  ignoredByRegexen regexen file h = (Return b, h') →
  (b = true ↔ ∃ r, r ∈ regexen ∧ ignores r file).
Proof.
  revert h. induction regexen as [|r rest IH]; intros h; cbn [ignoredByRegexen].
  - intros [= <- _]. split; [done|]. by intros (r & ?%elem_of_nil & _).
  - unfold mbind, action_bind. rewrite deserializeRegExp_run.
    destruct (deserialized r) as [re|] eqn:Er; [|done].
    destruct (Js.exec re (path file)) as [m|] eqn:Em.
    + intros [= <- _]. split; [|done]. intros _. exists r.
      split; [apply list_elem_of_here|]. exists re. by rewrite Em.
    + intros H. rewrite (IH _ H). split.
      * intros (r' & Hin & Hi). exists r'. split; [|done].
        by apply list_elem_of_further.
      * intros (r' & Hin & re' & Hre & Hm).
        apply elem_of_cons in Hin as [->|Hin]; [|by exists r'; split; [|exists re']].
        rewrite Er in Hre. injection Hre as <-. rewrite Em in Hm.
        by destruct Hm.
Qed.

Lemma ignoredByRegexen_none regexen file h :
  Forall (λ r, ∃ re, deserialized r = Return re ∧
                     Js.exec re (path file) = None) regexen →
  ∃ h', ignoredByRegexen regexen file h = (Return false, h').
Proof.
  intros H. revert h. induction H as [|r rest (re & Hre & Hm) _ IH]; intros h.
  - by exists h.
  - cbn [ignoredByRegexen]. unfold mbind, action_bind.
    rewrite deserializeRegExp_run, Hre, Hm. apply IH.
Qed.

(** Behind entries that deserialize, the entry of the empty expression
    makes the loop return true. *)
Lemma ignoredByRegexen_empty_entry front back file h :
  Forall (λ r, ∃ re, deserialized r = Return re) front →
  ∃ h', ignoredByRegexen (front ++ "//g"%string :: back) file h
        = (Return true, h').
Proof.
  intros H. revert h. induction H as [|r rest (re & Hre) _ IH]; intros h.
  - cbn [app ignoredByRegexen]. unfold mbind, action_bind.
    rewrite deserializeRegExp_run.
    change (deserialized "//g") with (Return emptyRegExp).
    cbn beta iota. rewrite empty_exec. by eexists.
  - cbn [app ignoredByRegexen]. unfold mbind, action_bind.
    rewrite deserializeRegExp_run, Hre.
    destruct (Js.exec re (path file)); [by eexists | apply IH].
Qed.

Lemma ignoreFile_run st file h :
  ignoreFile st file h =
  if negb (String.eqb (extension file) "md")
     && negb (String.eqb (extension file) "markdown")
  then (Return true, h)
  else if marked h file "excalidraw-plugin" then (Return true, h)
  else if marked h file "kanban-plugin" then (Return true, h)
  else ignoredByRegexen (fileIgnoreRegexen st) file h.
Proof.
  unfold ignoreFile. destruct (_ && _); [done|].
  unfold mbind at 1, action_bind, getFileCache. cbn zeta.
  fold (marked h file "excalidraw-plugin") (marked h file "kanban-plugin").
  destruct (marked h file "excalidraw-plugin"); [done|].
  by destruct (marked h file "kanban-plugin").
Qed.

Lemma hasMarker_marked h file key :
  hasMarker h file key ↔ marked h file key = true.
Proof.
  unfold hasMarker, marked. split.
  - intros (cache & fm & v & -> & Hf & Hv & Ht). simpl. rewrite Hf, Hv. done.
  - destruct (fileCache h !! path file) as [cache|]; simpl; [|done].
    destruct (frontmatter cache) as [fm|] eqn:Ef; [|done].
    destruct (fm !! key) as [v|] eqn:Ev; simpl; [|done].
    intros Ht. by exists cache, fm, v.
Qed.

(** C6, as amended. Whenever [ignoreFile] returns, it returns true if and
    only if the extension is neither md nor markdown, or the front matter
    holds a truthy value under one of the two marker keys, or the path is
    matched by some ignore expression after deserialization. It returns
    true for the extension txt, and false for the extension md without
    front matter where every ignore expression deserializes and none
    matches the path. *)
Theorem ignoreFile_spec (st : Settings) (file : TFile) (h : Host) :
  (∀ b h', ignoreFile st file h = (Return b, h') →
     (b = true ↔
        (extension file ≠ "md"%string ∧ extension file ≠ "markdown"%string) ∨
        hasMarker h file "excalidraw-plugin" ∨
        hasMarker h file "kanban-plugin" ∨
        ∃ r re, r ∈ fileIgnoreRegexen st ∧
                (deserializeRegExp r h).1 = Return re ∧
                is_Some (Js.exec re (path file)))) ∧
  (extension file = "txt"%string → ignoreFile st file h = (Return true, h)) ∧
  (extension file = "md"%string →
   fileCache h !! path file ≫= frontmatter = None →
   Forall (λ r, ∃ re, (deserializeRegExp r h).1 = Return re ∧
                      Js.exec re (path file) = None) (fileIgnoreRegexen st) →
   ∃ h', ignoreFile st file h = (Return false, h')).
Proof.
  rewrite ignoreFile_run. split; [|split].
  - intros b h'.
    destruct (negb (String.eqb (extension file) "md")
              && negb (String.eqb (extension file) "markdown")) eqn:Ee.
    { intros [= <- _]. split; [|done]. intros _. left.
      apply andb_true_iff in Ee as [E1%negb_true_iff E2%negb_true_iff].
      by apply String.eqb_neq in E1, E2. }
    assert (Hext : ¬ (extension file ≠ "md"%string ∧
                      extension file ≠ "markdown"%string)).
    { intros [E1%String.eqb_neq E2%String.eqb_neq]. by rewrite E1, E2 in Ee. }
    pose proof (hasMarker_marked h file "excalidraw-plugin") as He.
    pose proof (hasMarker_marked h file "kanban-plugin") as Hk.
    destruct (marked h file "excalidraw-plugin").
    { intros [= <- _]. split; [|done]. intros _. right. left. by apply He. }
    destruct (marked h file "kanban-plugin").
    { intros [= <- _]. split; [|done]. intros _. right. right. left.
      by apply Hk. }
    intros H. rewrite (ignoredByRegexen_returns _ _ _ _ _ H). split.
    + intros (r & Hin & re & Hre & Hm). do 3 right. exists r, re.
      by rewrite deserializeRegExp_value.
    + intros [?|[Hm|[Hm|(r & re & Hin & Hre & Hm)]]]; [done|..].
      * by apply He in Hm.
      * by apply Hk in Hm.
      * exists r. split; [done|]. exists re.
        by rewrite deserializeRegExp_value in Hre.
  - by intros ->.
  - intros -> Hf Hall. cbn [String.eqb negb andb]. unfold marked.
    rewrite Hf. apply ignoredByRegexen_none. eapply Forall_impl; [exact Hall|].
    intros r (re & Hre & Hm). exists re.
    by rewrite deserializeRegExp_value in Hre.
Qed.

Lemma ignoreFile_spec_witness :
  ignoreFile DEFAULT_SETTINGS (mkFile "a.txt" "a" "txt" (Some "/"%string))
    quietHost = (Return true, quietHost) ∧
  (∃ h', ignoreFile DEFAULT_SETTINGS (mkFile "a.md" "a" "md" (Some "/"%string))
           quietHost = (Return false, h')) ∧
  ∃ r re, r ∈ fileIgnoreRegexen DEFAULT_SETTINGS ∧
          (deserializeRegExp r quietHost).1 = Return re ∧
          is_Some (Js.exec re "drawing.excalidraw.md").
Proof.
  split; [|split].
  - destruct (ignoreFile_spec DEFAULT_SETTINGS
                (mkFile "a.txt" "a" "txt" (Some "/"%string)) quietHost)
      as (_ & H & _).
    exact (H eq_refl).
  - destruct (ignoreFile_spec DEFAULT_SETTINGS
                (mkFile "a.md" "a" "md" (Some "/"%string)) quietHost)
      as (_ & _ & H).
    apply H; [reflexivity | reflexivity |].
    apply Forall_cons. split; [|by apply Forall_nil].
    eexists. split; [vm_compute; reflexivity | reflexivity].
  - destruct (ignoreFile_spec DEFAULT_SETTINGS
                (mkFile "drawing.excalidraw.md" "drawing.excalidraw" "md"
                        (Some "/"%string)) quietHost) as [H _].
    destruct (H true quietHost eq_refl) as [H1 _].
    destruct (H1 eq_refl) as [[E _]|[(c & _ & _ & E & _)|[(c & _ & _ & E & _)|E]]];
      [by destruct E | discriminate E | discriminate E | exact E].
Defined.

(** C6 as stated fails: a marker key with a falsy value does not make the
    file ignored. *)
Lemma ignoreFile_falsy_marker :
  let file := mkFile "a.md" "a" "md" (Some "/"%string) in
  let fm : gmap string Value := {[ "excalidraw-plugin"%string := VBool false ]} in
  let h := mkHost ∅ {[ "a.md"%string := mkCache (Some fm) ]} [] [] in
  ignoreFile (mkSettings "" []) file h = (Return false, h) ∧
  fileCache h !! path file ≫= frontmatter = Some fm ∧
  is_Some (fm !! "excalidraw-plugin"%string).
Proof. intros file fm h. split; [done|]. split; [done|]. by eexists. Qed.

(** Behind ignore expressions that deserialize, the entry the settings
    panel adds makes [ignoreFile] return true for every file. *)
Lemma ignoreFile_empty_entry st file h front back :
  fileIgnoreRegexen st = front ++ "//g"%string :: back →
  Forall (λ r, ∃ re, deserialized r = Return re) front →
  ∃ h', ignoreFile st file h = (Return true, h').
Proof.
  intros Hl Hf. rewrite ignoreFile_run.
  destruct (_ && _); [by eexists|].
  destruct (marked _ _ _); [by eexists|].
  destruct (marked _ _ _); [by eexists|].
  rewrite Hl. by apply ignoredByRegexen_empty_entry.
Qed.

(** After the click on Add Regex, every file is ignored, as long as the
    entries already there deserialize. *)
Lemma ignoreFile_after_addRegex st file h :
  Forall (λ r, ∃ re, deserialized r = Return re) (fileIgnoreRegexen st) →
  ∃ h', ignoreFile (addRegexClicked st) file h = (Return true, h').
Proof.
  intros H.
  by apply (ignoreFile_empty_entry _ file h (fileIgnoreRegexen st) []).
Qed.

(** C10, at an input on which the source fails. The entry the settings
    panel adds deserializes to the empty expression, which matches every
    string, and makes [ignoreFile] return true behind entries that
    deserialize, such as the default one; behind an invalid expression
    the deserializer throws instead of returning a default, and
    [ignoreFile] returns nothing. *)
Theorem ignoreFile_invalid_entry_first :
  let file := mkFile "a.md" "a" "md" (Some "/"%string) in
  deserializeRegExp "//g" quietHost = (Return emptyRegExp, quietHost) ∧
  (∀ s, is_Some (Js.exec emptyRegExp s)) ∧
  ignoreFile (addRegexClicked DEFAULT_SETTINGS) file quietHost
  = (Return true, quietHost) ∧
  deserializeRegExp "/(/g" quietHost = (Throw SyntaxError, quietHost) ∧
  ignoreFile (addRegexClicked (mkSettings "" ["/(/g"])) file quietHost
  = (Throw SyntaxError, quietHost).
Proof.
  intros file. split; [done|]. split; [|done].
  intros s. rewrite empty_exec. by eexists.
Qed.

End Ignore.

(** * Further properties of the plugin *)

(** ** Backtracking: when a search succeeds *)

Section Backtracking.
Import RegExp.
Local Open Scope char_scope.
Local Open Scope nat_scope.

Lemma search_is_Some re bef aft :
  sticky (flags re) = false →
  is_Some (search re bef aft) ↔
  ∃ u t, aft = u ++ t ∧ is_Some (matchAt re (reverse u ++ bef) t).
Proof.
  intros Hs. revert bef.
  induction aft as [|c rest IH]; intros bef; cbn [search].
  - destruct (matchAt re bef []) eqn:E.
    + split; [|by eauto]. intros _. exists [], []. split; [done|].
      simpl. by rewrite E.
    + rewrite Hs. split; [by intros [? ?]|]. intros (u & t & Hu & Hm).
      symmetry in Hu. apply app_eq_nil in Hu as [-> ->].
      simpl in Hm. rewrite E in Hm. by destruct Hm.
  - destruct (matchAt re bef (c :: rest)) eqn:E.
    + split; [|by eauto]. intros _. exists [], (c :: rest). split; [done|].
      simpl. by rewrite E.
    + rewrite Hs, IH. split.
      * intros (u & t & -> & Hm). exists (c :: u), t. split; [done|].
        by rewrite reverse_cons, <- app_assoc.
      * intros (u & t & Hu & Hm). destruct u as [|c' u].
        -- simpl in *. subst t. rewrite E in Hm. by destruct Hm.
        -- injection Hu as -> ->. exists u, t. split; [done|].
           by rewrite reverse_cons, <- app_assoc in Hm.
Qed.

Lemma greedyRun_is_Some P bef aft caps k :
  is_Some (greedyRun P bef aft caps k) ↔
  ∃ u t, aft = u ++ t ∧ Forall (λ c, P c = true) u ∧
         is_Some (k (mkState (reverse u ++ bef) t caps)).
Proof.
  revert bef. induction aft as [|c rest IH]; intros bef; cbn [greedyRun].
  - split.
    + intros H. exists [], []. by repeat split.
    + intros (u & t & Hu & _ & Hk). symmetry in Hu.
      by apply app_eq_nil in Hu as [-> ->].
  - assert (Hhere : is_Some (k (mkState bef (c :: rest) caps)) →
                    ∃ u t, c :: rest = u ++ t ∧ Forall (λ c, P c = true) u ∧
                           is_Some (k (mkState (reverse u ++ bef) t caps))).
    { intros H. exists [], (c :: rest). by repeat split. }
    destruct (P c) eqn:EP.
    + destruct (greedyRun P (c :: bef) rest caps k) eqn:E.
      * split; [|by eauto]. intros _.
        assert (Hs : is_Some (greedyRun P (c :: bef) rest caps k))
          by (by rewrite E).
        apply IH in Hs as (u & t & -> & Hu & Hk).
        exists (c :: u), t. split; [done|]. split; [by constructor|].
        by rewrite reverse_cons, <- app_assoc.
      * split; [done|]. intros (u & t & Hu & HP & Hk).
        destruct u as [|c' u]; [simpl in *; by subst t|].
        injection Hu as -> ->. apply Forall_cons in HP as [_ HP].
        assert (Hs : is_Some (greedyRun P (c' :: bef) (u ++ t) caps k)).
        { apply IH. exists u, t. split; [done|]. split; [done|].
          by rewrite reverse_cons, <- app_assoc in Hk. }
        rewrite E in Hs. by destruct Hs.
    + split; [done|]. intros (u & t & Hu & HP & Hk).
      destruct u as [|c' u]; [simpl in *; by subst t|].
      injection Hu as -> ->. apply Forall_cons in HP as [HP _]. congruence.
Qed.

Lemma unitsThen_is_Some Ps k b t caps :
  is_Some (unitsThen Ps k (mkState b t caps)) ↔
  ∃ u t', t = u ++ t' ∧ Forall2 (λ P c, P c = true) Ps u ∧
          is_Some (k (mkState (reverse u ++ b) t' caps)).
Proof.
  revert b t. induction Ps as [|P Ps IH]; intros b t; cbn [unitsThen ahead].
  - split.
    + intros H. exists [], t. by repeat split.
    + intros (u & t' & -> & Hu & Hk). by apply Forall2_nil_inv_l in Hu as ->.
  - destruct t as [|c rest].
    + split; [by intros [? ?]|]. intros (u & t' & Hu & HP & _).
      symmetry in Hu. apply app_eq_nil in Hu as [-> ->].
      by apply Forall2_cons_inv_l in HP as (? & ? & _ & _ & ?).
    + destruct (P c) eqn:EP.
      * unfold step. cbn [before captures]. rewrite IH. split.
        -- intros (u & t' & -> & Hu & Hk). exists (c :: u), t'.
           split; [done|]. split; [by constructor|].
           by rewrite reverse_cons, <- app_assoc.
        -- intros (u & t' & Hu & HP & Hk).
           apply Forall2_cons_inv_l in HP as (c' & u' & _ & HP & ->).
           injection Hu as -> ->. exists u', t'. split; [done|].
           split; [done|]. by rewrite reverse_cons, <- app_assoc in Hk.
      * split; [by intros [? ?]|]. intros (u & t' & Hu & HP & _).
        apply Forall2_cons_inv_l in HP as (c' & u' & HP & _ & ->).
        injection Hu as -> ->. congruence.
Qed.

End Backtracking.

(** ** The default ignore expression *)

Section DefaultExpression.
Import RegExp.
Local Open Scope char_scope.
Local Open Scope nat_scope.

Lemma default_matchAt bef aft :
  matchAt defaultIgnoreRegExp bef aft =
  greedyRun anyUnit bef aft [None]
    (unitsThen
       [anyUnit; exactly "e"; exactly "x"; exactly "c"; exactly "a";
        exactly "l"; exactly "i"; exactly "d"; exactly "r"; exactly "a";
        exactly "w"; anyUnit; exactly "m"; exactly "d"]
       (λ y, if atEnd globalFlag y then Some y else None)).
Proof.
  unfold matchAt. cbn [defaultIgnoreRegExp pattern flags groups replicate].
  cbn [compile]. cbn [groupsOf].
  rewrite (star_oneUnit anyUnit); [|apply compile_Dot_oneUnit | simpl; lia].
  reflexivity.
Qed.

Lemma exactly_eq a c : exactly a c = true ↔ c = a.
Proof.
  unfold exactly, setHas. cbn. rewrite !orb_false_r.
  rewrite char_eqb_eq. split; congruence.
Qed.

Lemma anyUnit_lineUnit c : anyUnit c = true ↔ lineUnit c.
Proof. unfold anyUnit, lineUnit. cbn. by rewrite negb_true_iff. Qed.

Lemma js_exec_is_Some re s :
  is_Some (Js.exec re s) ↔ is_Some (exec re (Js.units s)).
Proof.
  unfold Js.exec. destruct (exec re (Js.units s)); split; intros [? ?]; eauto;
    discriminate.
Qed.

Lemma default_exec (s : string) :
  is_Some (Js.exec defaultIgnoreRegExp s) ↔ excalidrawPath s.
Proof.
  rewrite js_exec_is_Some. unfold exec. rewrite search_is_Some by done.
  split.
  - intros (u0 & t0 & Hs & Hm). rewrite default_matchAt in Hm.
    apply greedyRun_is_Some in Hm as (u1 & t1 & -> & _ & Hm).
    apply unitsThen_is_Some in Hm as (u2 & t2 & -> & Hu & Hend).
    unfold atEnd in Hend. cbn [ahead multiline globalFlag andb] in Hend.
    destruct t2; [|by destruct Hend]. clear Hend.
    repeat match type of Hu with
           | Forall2 _ (_ :: _) _ =>
               let H := fresh "H" in
               apply Forall2_cons_inv_l in Hu as (? & ? & H & Hu & ->);
               first [apply exactly_eq in H as -> | apply anyUnit_lineUnit in H]
           end.
    apply Forall2_nil_inv_l in Hu as ->.
    match goal with
    | H1 : lineUnit ?c, H2 : lineUnit ?d |- _ =>
        exists (Js.text (u0 ++ u1)), c, d
    end.
    split; [|done]. rewrite <- (text_units s), Hs.
    rewrite <- (text_units (_ +:+ _)). f_equal.
    rewrite !units_app, units_text, <- !app_assoc. reflexivity.
  - intros (pre & c & d & -> & Hc & Hd).
    exists (Js.units pre),
           (c :: Js.units "excalidraw" ++ d :: Js.units "md").
    split; [by rewrite !units_app|].
    rewrite default_matchAt. apply greedyRun_is_Some.
    exists [], (c :: Js.units "excalidraw" ++ d :: Js.units "md").
    split; [done|]. split; [done|]. apply unitsThen_is_Some.
    exists (c :: Js.units "excalidraw" ++ d :: Js.units "md"), [].
    split; [done|]. split; [|done].
    repeat (constructor;
            [first [by apply anyUnit_lineUnit | by apply exactly_eq]|]).
    constructor.
Qed.

End DefaultExpression.

(** ** What the sanitizer deletes *)

Section Deleting.
Import RegExp.
Local Open Scope char_scope.
Local Open Scope nat_scope.

Lemma suffix_sublist {A} (l1 l2 : list A) :
  l1 `suffix_of` l2 → l1 `sublist_of` l2.
Proof. intros [k ->]. by apply sublist_inserts_l. Qed.

Lemma prefix_sublist {A} (l1 l2 : list A) :
  l1 `prefix_of` l2 → l1 `sublist_of` l2.
Proof. intros [k ->]. by apply sublist_inserts_r. Qed.

Lemma replaceFirst_sublist re bef aft :
  replaceFirst re [] bef aft `sublist_of` aft.
Proof.
  revert bef. induction aft as [|c rest IH]; intros bef; cbn [replaceFirst].
  - destruct (matchAt re bef []) as [y|] eqn:E.
    + apply matchAt_suffix in E. by apply suffix_sublist.
    + by destruct (sticky _).
  - destruct (matchAt re bef (c :: rest)) as [y|] eqn:E.
    + apply matchAt_suffix in E. by apply suffix_sublist.
    + destruct (sticky _); [done|]. by apply sublist_skip.
Qed.

Lemma replaceAll_sublist re bef aft skip :
  replaceAll re [] bef aft skip `sublist_of` aft.
Proof.
  revert bef skip.
  induction aft as [|c rest IH]; intros bef skip; cbn [replaceAll].
  - destruct skip; [|done]. by destruct (matchAt re bef []).
  - destruct skip as [|n]; [|by apply sublist_cons].
    destruct (matchAt re bef (c :: rest)) as [y|].
    + cbn [app].
      destruct (_ - _); [by apply sublist_skip | by apply sublist_cons].
    + destruct (sticky _); [done|]. by apply sublist_skip.
Qed.

Lemma replace_sublist (s : string) re :
  Js.units (Js.replace s re "") `sublist_of` Js.units s.
Proof.
  unfold Js.replace, replace. rewrite units_text.
  change (Js.units "") with (@nil ascii).
  destruct (global _); [apply replaceAll_sublist | apply replaceFirst_sublist].
Qed.

Lemma trim_sublist (s : string) : Js.units (Js.trim s) `sublist_of` Js.units s.
Proof.
  unfold Js.trim. rewrite units_text.
  transitivity (Js.trimStart (Js.units s)).
  - apply prefix_sublist, trimEnd_prefix.
  - apply suffix_sublist, trimStart_suffix.
Qed.

Lemma sanitized_sublist st heading t :
  sanitized st heading = Return t → Js.units t `sublist_of` Js.units heading.
Proof.
  unfold sanitized. destruct (deserialized _) as [re|]; [|done].
  intros [= <-]. etransitivity; [apply trim_sublist|].
  etransitivity; apply replace_sublist.
Qed.

(** X1. With a user setting that holds no slash, the empty default
    included, [sanitizeHeading] removes the stock symbols, a dot that ends
    the string and the blanks at both ends, nothing else, and shows the
    notice of the deserializer, once per call. *)
Theorem sanitizeHeading_malformed_setting (st : Settings) (heading : string)
    (h : Host) :
  Forall (λ c, c ≠ "/") (Js.units (userIllegalSymbols st)) →
  sanitizeHeading st heading h =
  (Return (Js.trim (Js.text (removeStockSymbols (Js.units heading)))),
   addNotices [invalidNotice (userIllegalSymbols st)] h).
Proof.
  intros Hs. unfold sanitizeHeading, mbind, action_bind.
  rewrite deserializeRegExp_malformed by done.
  by rewrite fallback_replace, replace_stock.
Qed.

Lemma sanitizeHeading_malformed_setting_witness :
  sanitizeHeading DEFAULT_SETTINGS " [a/b: c]." quietHost =
  (Return "ab c"%string, addNotices [invalidNotice ""] quietHost).
Proof.
  exact (sanitizeHeading_malformed_setting DEFAULT_SETTINGS " [a/b: c]."
           quietHost (Forall_nil_2 _)).
Defined.

(** X2. [sanitizeHeading] only deletes: its result is a subsequence of
    its argument, holds no stock symbol and neither starts nor ends with
    a blank. *)
Theorem sanitizeHeading_only_deletes (st : Settings) (heading t : string)
    (h h' : Host) :
  sanitizeHeading st heading h = (Return t, h') →
  Js.units t `sublist_of` Js.units heading ∧
  Forall (λ c, stockSymbol c = false) (Js.units t) ∧
  trimmed (Js.units t).
Proof.
  intros [Hs _]%sanitizeHeading_returns.
  split; [by eapply sanitized_sublist|].
  destruct (sanitized_clean _ _ _ Hs) as [Hc Ht].
  split; [done|]. rewrite <- Ht. apply trim_trimmed.
Qed.

Lemma sanitizeHeading_only_deletes_witness :
  Js.units "bnana" `sublist_of` Js.units " banana." ∧
  Forall (λ c, stockSymbol c = false) (Js.units "bnana") ∧
  trimmed (Js.units "bnana").
Proof.
  exact (sanitizeHeading_only_deletes (mkSettings "/a/" []) " banana."
           "bnana" quietHost quietHost eq_refl).
Defined.

Lemma deserialized_throws_quiet (s : string) (e : Error) :
  deserialized s = Throw e → deserializeNotices s = [].
Proof.
  unfold deserialized, deserializeNotices.
  by destruct (Js.match_ s serializedRegExp).
Qed.

(** X3. A user setting the constructor rejects with a SyntaxError makes
    [sanitizeHeading] throw that error on every heading, and
    filename-to-heading sync with it; heading-to-filename sync returns,
    since what happens after the read is left in a promise that nobody
    holds. The host is left as it was by all three. *)
Theorem sanitizeHeading_throws (st : Settings) (file : TFile) (h : Host) :
  (deserializeRegExp (userIllegalSymbols st) h).1 = Throw SyntaxError →
  (∀ heading, sanitizeHeading st heading h = (Throw SyntaxError, h)) ∧
  handleSyncFilenameToHeading st file h = (Throw SyntaxError, h) ∧
  handleSyncHeadingToFilename st file h = (Return (), h).
Proof.
  rewrite deserializeRegExp_run. cbn [fst]. intros He.
  assert (Hs : ∀ heading,
            sanitizeHeading st heading h = (Throw SyntaxError, h)).
  { intros heading. rewrite sanitizeHeading_run. unfold sanitized.
    by rewrite He, (deserialized_throws_quiet _ _ He), addNotices_nil. }
  assert (Hf : handleSyncFilenameToHeading st file h
               = (Throw SyntaxError, h)).
  { unfold handleSyncFilenameToHeading, mbind, action_bind. by rewrite Hs. }
  split; [done|]. split; [done|].
  unfold handleSyncHeadingToFilename, vaultReadThen.
  destruct (files h !! path file) as [data|]; [|done]. cbn zeta.
  destruct (decide _); [|by rewrite Hf].
  unfold mbind, action_bind. by rewrite Hs.
Qed.

Lemma sanitizeHeading_throws_witness :
  let st := mkSettings "/(/g" [] in
  let file := mkFile "a.md" "a" "md" (Some "/"%string) in
  let h := mkHost {[ "a.md"%string := "# A"%string ]} ∅ [] [] in
  (∀ heading, sanitizeHeading st heading h = (Throw SyntaxError, h)) ∧
  handleSyncFilenameToHeading st file h = (Throw SyntaxError, h) ∧
  handleSyncHeadingToFilename st file h = (Return (), h).
Proof.
  intros st file h.
  exact (sanitizeHeading_throws st file h eq_refl).
Defined.

End Deleting.

(** ** Lines written and read back *)

Section Lines.
Local Open Scope char_scope.
Local Open Scope nat_scope.

Lemma splitLines_single (l : string) : singleLine l → Js.splitLines l = [l].
Proof.
  unfold singleLine. induction l as [|c l IH]; [done|].
  cbn [Js.units list_ascii_of_string]. intros [Hc Hl]%Forall_cons.
  cbn [Js.splitLines]. apply char_eqb_neq in Hc as ->. by rewrite (IH Hl).
Qed.

Lemma splitLines_line (l rest : string) :
  singleLine l →
  Js.splitLines (l +:+ Js.newline +:+ rest) = l :: Js.splitLines rest.
Proof.
  unfold singleLine. induction l as [|c l IH].
  - intros _. reflexivity.
  - cbn [Js.units list_ascii_of_string]. intros [Hc Hl]%Forall_cons.
    change (String c l +:+ Js.newline +:+ rest)%string
      with (String c (l +:+ Js.newline +:+ rest)).
    cbn [Js.splitLines]. apply char_eqb_neq in Hc as ->. by rewrite (IH Hl).
Qed.

Lemma splitLines_joinLines (lines : list string) :
  lines ≠ [] → Forall singleLine lines →
  Js.splitLines (Js.joinLines lines) = lines.
Proof.
  induction lines as [|l ls IH]; [done|]. intros _ [Hl Hls]%Forall_cons.
  rewrite joinLines_cons. destruct ls as [|l' ls].
  - by apply splitLines_single.
  - rewrite splitLines_line by done. f_equal. by apply IH.
Qed.

Lemma splitLines_singleLine (s : string) : Forall singleLine (Js.splitLines s).
Proof.
  induction s as [|c s IH]; cbn [Js.splitLines].
  - by repeat constructor.
  - destruct (Char.eqb c "010") eqn:E.
    + constructor; [by constructor | done].
    + apply char_eqb_neq in E.
      destruct (Js.splitLines s) as [|l ls]; [by repeat constructor|].
      apply Forall_cons in IH as [Hl Hls].
      constructor; [by constructor | done].
Qed.

End Lines.

(** ** The heading line after a write *)

Section Relocating.
Local Open Scope nat_scope.

Lemma getHeadingLine_index (lines : list string) (i : nat) :
  getHeadingLine lines = Z.of_nat i ↔
  Z.to_nat (getStartLine lines) ≤ i ∧ isHeading (lines !! i) ∧
  ∀ j, Z.to_nat (getStartLine lines) ≤ j < i → ¬ isHeading (lines !! j).
Proof.
  unfold getHeadingLine. set (start := Z.to_nat (getStartLine lines)).
  destruct (scanHeading_cases (drop start lines) start)
    as [[E Hn]|(j & E & Hj & Hm)]; rewrite E.
  - split; [lia|]. intros (Hi & Hh & _). exfalso.
    apply (Hn (i - start)). rewrite lookup_drop.
    by replace (start + (i - start)) with i by lia.
  - rewrite lookup_drop in Hj. split.
    + intros <-%Nat2Z.inj. split; [lia|]. split; [done|].
      intros k Hk. specialize (Hm (k - start)). rewrite lookup_drop in Hm.
      replace (start + (k - start)) with k in Hm by lia. apply Hm. lia.
    + intros (Hi & Hh & Hb). f_equal.
      destruct (Nat.lt_trichotomy (start + j) i) as [Hlt|[Heq|Hgt]];
        [|done|].
      * exfalso. by apply (Hb (start + j)); [lia|].
      * exfalso. apply (Hm (i - start)); [lia|]. rewrite lookup_drop.
        by replace (start + (i - start)) with i by lia.
Qed.

Lemma indexFrom_ext (a b : list string) (x : string) (i : nat) :
  (∀ j, a !! j = Some x ↔ b !! j = Some x) →
  Js.indexFrom a x i = Js.indexFrom b x i.
Proof.
  intros Hab.
  destruct (indexFrom_cases a x i) as [[-> Ha]|(j & -> & Hj & Hm)],
           (indexFrom_cases b x i) as [[-> Hb]|(k & -> & Hk & Hn)]; [done|..].
  - exfalso. by apply (Ha k), Hab.
  - exfalso. by apply (Hb j), Hab.
  - f_equal. f_equal.
    destruct (Nat.lt_trichotomy j k) as [Hlt|[Heq|Hgt]]; [|done|].
    + exfalso. by apply (Hn j Hlt), Hab.
    + exfalso. by apply (Hm k Hgt), Hab.
Qed.

Lemma getStartLine_ext (a b : list string) :
  (∀ j, a !! j = Some "---"%string ↔ b !! j = Some "---"%string) →
  getStartLine a = getStartLine b.
Proof.
  intros Hab. unfold getStartLine, Js.indexOf.
  destruct (decide (a !! 0 = Some "---"%string)) as [Ha|Ha],
           (decide (b !! 0 = Some "---"%string)) as [Hb|Hb]; [|..|done].
  - f_equal. apply indexFrom_ext. intros j. rewrite !lookup_drop. apply Hab.
  - by apply Hab in Ha.
  - by apply Hab in Hb.
Qed.

Lemma isHeading_delimiter : ¬ isHeading (Some "---"%string).
Proof. by rewrite isHeading_Some. Qed.

(** Writing a heading over the heading line the locator found leaves it
    the line the locator finds. *)
Lemma getHeadingLine_insert (heading : string) (lines : list string) (i : nat) :
  Js.startsWith heading "# " = true →
  getHeadingLine lines = Z.of_nat i →
  getHeadingLine (<[i := heading]> lines) = Z.of_nat i.
Proof.
  intros Hh Hi. pose proof (getHeadingLine_heading _ _ Hi) as (l & Hl & Hs).
  pose proof (lookup_lt_Some _ _ _ Hl) as Hlt.
  assert (Hstart : getStartLine (<[i := heading]> lines) = getStartLine lines).
  { apply getStartLine_ext. intros j. destruct (decide (j = i)) as [->|Hne].
    - rewrite list_lookup_insert_eq by done. rewrite Hl.
      split; intros [= ->]; done.
    - by rewrite list_lookup_insert_ne. }
  apply getHeadingLine_index in Hi as (Hle & _ & Hb).
  apply getHeadingLine_index. rewrite Hstart. split; [done|]. split.
  - rewrite list_lookup_insert_eq by done. by apply isHeading_Some.
  - intros j Hj. rewrite list_lookup_insert_ne by lia. by apply Hb.
Qed.

(** A heading put before the first line is the line the locator finds. *)
Lemma getHeadingLine_cons (heading : string) (lines : list string) :
  Js.startsWith heading "# " = true →
  getHeadingLine (heading :: lines) = 0%Z.
Proof.
  intros Hh. unfold getHeadingLine. rewrite getStartLine_plain.
  - change (Z.to_nat 0) with 0. cbn [drop scanHeading]. by rewrite Hh.
  - cbn. intros [= ->]. done.
Qed.

Lemma getHeadingLine_cases (lines : list string) :
  getHeadingLine lines = (-1)%Z ∨ ∃ i : nat, getHeadingLine lines = Z.of_nat i.
Proof.
  unfold getHeadingLine.
  destruct (scanHeading_cases (drop (Z.to_nat (getStartLine lines)) lines)
              (Z.to_nat (getStartLine lines)))
    as [[E _]|(j & E & _)]; [by left | right; by eauto].
Qed.

(** Where [placeHeading] puts a heading, the locator finds it, and
    placing it once more changes nothing. *)
Lemma placeHeading_located (heading : string) (lines : list string) :
  Js.startsWith heading "# " = true →
  ∃ i : nat,
    getHeadingLine (placeHeading heading lines) = Z.of_nat i ∧
    placeHeading heading lines !! i = Some heading ∧
    placeHeading heading (placeHeading heading lines)
    = placeHeading heading lines.
Proof.
  intros Hh.
  destruct (decide (getHeadingLine lines ≠ (-1)%Z)) as [Hf|Hn].
  - assert (∃ i : nat, getHeadingLine lines = Z.of_nat i) as [i Hi].
    { unfold getHeadingLine in *.
      destruct (scanHeading_cases
                  (drop (Z.to_nat (getStartLine lines)) lines)
                  (Z.to_nat (getStartLine lines)))
        as [[E _]|(j & E & _)]; [done | by eauto]. }
    destruct (placeHeading_found heading lines i Hi) as (E & Hl & _).
    pose proof (getHeadingLine_insert heading lines i Hh Hi) as Hi'.
    exists i. rewrite E in Hl |- *. split; [done|]. split; [done|].
    destruct (placeHeading_found heading _ i Hi') as (-> & _).
    apply list_insert_insert_eq.
  - assert (E : placeHeading heading lines = heading :: lines).
    { apply placeHeading_missing.
      by destruct (decide (getHeadingLine lines = (-1)%Z)). }
    pose proof (getHeadingLine_cons heading lines Hh) as H0.
    exists 0. rewrite E. split; [done|]. split; [done|].
    destruct (placeHeading_found heading _ 0 H0) as (-> & _). done.
Qed.

End Relocating.

(** ** The sync of the file name to the heading, once and again *)

Section Resync.
Local Open Scope char_scope.
Local Open Scope nat_scope.

Lemma Forall_sublist {A} (P : A → Prop) (l1 l2 : list A) :
  l1 `sublist_of` l2 → Forall P l2 → Forall P l1.
Proof.
  induction 1 as [|x l1 l2 _ IH|x l1 l2 _ IH]; [done|..];
    intros [Hx Hl]%Forall_cons; [constructor|]; auto.
Qed.

Lemma sanitized_singleLine st b t :
  sanitized st b = Return t → singleLine b → singleLine t.
Proof. intros Hs. apply Forall_sublist. by eapply sanitized_sublist. Qed.

Lemma toUpperCase_feed (c : ascii) (upper : list ascii) :
  c ≠ "010" → Char.toUpperCase c = Some upper →
  Forall (λ c, c ≠ "010") upper.
Proof.
  intros Hc Hu.
  destruct c as [[] [] [] [] [] [] [] []]; vm_compute in Hu;
    try discriminate Hu; try (by destruct Hc);
    injection Hu as <-; by repeat constructor.
Qed.

Lemma capitalize_cons (c : ascii) (r : string) :
  capitalize (String c r) =
  match Char.toUpperCase c with
  | Some upper => Return (Js.text upper +:+ r)%string
  | None => Throw Unmodelled
  end.
Proof.
  unfold capitalize, Js.toUpperCase. cbn [Js.units list_ascii_of_string].
  cbn [mapM]. destruct (Char.toUpperCase c) as [upper|]; [|done].
  cbn. by rewrite app_nil_r.
Qed.

Lemma headingFor_body (t heading : string) :
  headingFor t = Return heading →
  ∃ body, capitalize (substitute "-" " " t) = Return body ∧
          heading = ("# " +:+ body)%string.
Proof.
  unfold headingFor. destruct (capitalize _) as [body|e]; [|done].
  intros [= <-]. by exists body.
Qed.

Lemma headingFor_singleLine (t heading : string) :
  singleLine t → headingFor t = Return heading → singleLine heading.
Proof.
  intros Ht (body & Hb & ->)%headingFor_body. unfold singleLine in *.
  rewrite units_app. apply Forall_app. split; [by repeat constructor|].
  assert (Hs : Forall (λ c, c ≠ "010") (Js.units (substitute "-" " " t))).
  { unfold substitute. rewrite units_text. apply Forall_fmap.
    eapply Forall_impl; [exact Ht|]. intros c Hc. cbv beta in Hc |- *.
    unfold compose.
    by destruct (Char.eqb "-" c). }
  destruct (substitute "-" " " t) as [|c r].
  { injection Hb as <-. constructor. }
  rewrite capitalize_cons in Hb.
  destruct (Char.toUpperCase c) as [upper|] eqn:Hu; [|done].
  injection Hb as <-. cbn [Js.units list_ascii_of_string] in Hs.
  apply Forall_cons in Hs as [Hc Hr].
  rewrite units_app, units_text. apply Forall_app. split; [|done].
  by eapply toUpperCase_feed.
Qed.

Lemma headingFor_marker (t heading : string) :
  headingFor t = Return heading → Js.startsWith heading "# " = true.
Proof. by intros (body & _ & ->)%headingFor_body. Qed.

(** What is written is read back line by line. *)
Lemma placeHeading_read (heading data : string) :
  singleLine heading →
  Js.splitLines
    (Js.joinLines (placeHeading heading (Js.splitLines data)))
  = placeHeading heading (Js.splitLines data).
Proof.
  intros Hh. apply splitLines_joinLines.
  - unfold placeHeading. destruct (decide _); [|done].
    destruct (splitLines_cons data) as (l & ls & ->).
    by destruct (Z.to_nat _).
  - unfold placeHeading. pose proof (splitLines_singleLine data) as Hd.
    destruct (decide _); [|by constructor].
    apply Forall_insert; done.
Qed.

(** X4. After the sync of the file name to the heading of a file that can
    be read, with a base name on one line that sanitizes to a non-empty
    string whose heading, the marker before it and its first code unit in
    upper case, is [heading], the lines of the file are the lines it had,
    with that heading written over the heading line, or put before the
    first line, front matter included, where there was none; and the
    first level-1 heading of the file, as [getHeadingLine] finds it, is
    that heading. *)
Theorem handleSyncFilenameToHeading_heading (st : Settings) (file : TFile)
    (h h1 : Host) (t heading data : string) :
  singleLine (basename file) →
  sanitizeHeading st (basename file) h = (Return t, h1) →
  t ≠ ""%string →
  headingFor t = Return heading →
  files h !! path file = Some data →
  ∃ (data' : string) (i : nat),
    files (handleSyncFilenameToHeading st file h).2 !! path file = Some data' ∧
    getHeadingLine (Js.splitLines data') = Z.of_nat i ∧
    Js.splitLines data' !! i = Some heading ∧
    ((getHeadingLine (Js.splitLines data) = Z.of_nat i ∧
      Js.splitLines data' = <[i := heading]> (Js.splitLines data)) ∨
     (getHeadingLine (Js.splitLines data) = (-1)%Z ∧ i = 0 ∧
      Js.splitLines data' = heading :: Js.splitLines data)).
Proof.
  intros Hb Hs Ht Hh Hd.
  rewrite (handleSyncFilenameToHeading_writes st file h t h1 heading data)
    by done.
  apply sanitizeHeading_returns in Hs as [Hs _].
  pose proof (sanitized_singleLine _ _ _ Hs Hb) as Hl.
  pose proof (headingFor_singleLine _ _ Hl Hh) as Hl'.
  pose proof (headingFor_marker _ _ Hh) as Hm.
  cbn [snd files]. rewrite lookup_insert_eq.
  exists (Js.joinLines (placeHeading heading (Js.splitLines data))).
  rewrite placeHeading_read by done.
  destruct (getHeadingLine_cases (Js.splitLines data)) as [Hn|[i Hi]].
  - exists 0. rewrite (placeHeading_missing _ _ Hn).
    split; [done|]. split; [by apply getHeadingLine_cons|].
    split; [done|]. by right.
  - exists i. destruct (placeHeading_found heading _ i Hi)
      as (-> & _ & _).
    split; [done|]. split; [by apply getHeadingLine_insert|].
    split; [|by left].
    pose proof (getHeadingLine_heading _ _ Hi) as (l & Hl'' & _).
    apply list_lookup_insert_eq. by eapply lookup_lt_Some.
Qed.

Lemma handleSyncFilenameToHeading_heading_witness :
  let file := mkFile "dir/my-note.md" "my-note" "md" (Some "dir"%string) in
  let data := ("---" +:+ Js.newline +:+ "# x" +:+ Js.newline +:+ "---"
               +:+ Js.newline +:+ "# Old" +:+ Js.newline +:+ "body")%string in
  let h := mkHost {[ "dir/my-note.md"%string := data ]} ∅ [] [] in
  ∃ (data' : string) (i : nat),
    files (handleSyncFilenameToHeading DEFAULT_SETTINGS file h).2 !! path file
    = Some data' ∧
    getHeadingLine (Js.splitLines data') = Z.of_nat i ∧
    Js.splitLines data' !! i = Some "# My note"%string ∧
    ((getHeadingLine (Js.splitLines data) = Z.of_nat i ∧
      Js.splitLines data' = <[i := "# My note"%string]> (Js.splitLines data)) ∨
     (getHeadingLine (Js.splitLines data) = (-1)%Z ∧ i = 0 ∧
      Js.splitLines data' = "# My note"%string :: Js.splitLines data)).
Proof.
  intros file data h.
  apply (handleSyncFilenameToHeading_heading DEFAULT_SETTINGS file h
           (addNotices [invalidNotice ""] h) "my-note" "# My note" data).
  - refine (bool_decide_unpack _ _). vm_compute. exact I.
  - reflexivity.
  - discriminate.
  - reflexivity.
  - reflexivity.
Defined.

(** X5. The sync of the file name to the heading is idempotent on the
    vault: run again on the host it has left, for a base name on one
    line, it leaves every file as it is. *)
Theorem handleSyncFilenameToHeading_idempotent (st : Settings) (file : TFile)
    (h : Host) :
  singleLine (basename file) →
  files (handleSyncFilenameToHeading st file
           (handleSyncFilenameToHeading st file h).2).2
  = files (handleSyncFilenameToHeading st file h).2.
Proof.
  intros Hb. rewrite !handleSyncFilenameToHeading_run. cbn zeta.
  destruct (sanitized st (basename file)) as [t|e] eqn:Hs; [|done].
  destruct (decide (t = ""%string)); [done|].
  destruct (headingFor t) as [heading|e] eqn:Hh; [|done].
  destruct (files h !! path file) as [data|] eqn:Hd; cbn [snd files addNotices].
  - rewrite lookup_insert_eq. cbn [snd files].
    rewrite insert_insert_eq. f_equal. f_equal.
    pose proof (sanitized_singleLine _ _ _ Hs Hb) as Hl.
    rewrite placeHeading_read by by eapply headingFor_singleLine.
    by destruct (placeHeading_located heading (Js.splitLines data)
                   (headingFor_marker _ _ Hh)) as (i & _ & _ & ->).
  - by rewrite Hd.
Qed.

Lemma handleSyncFilenameToHeading_idempotent_witness :
  let file := mkFile "dir/my-note.md" "my-note" "md" (Some "dir"%string) in
  let h := mkHost {[ "dir/my-note.md"%string := "Some text"%string ]} ∅ [] [] in
  files (handleSyncFilenameToHeading DEFAULT_SETTINGS file
           (handleSyncFilenameToHeading DEFAULT_SETTINGS file h).2).2
  = files (handleSyncFilenameToHeading DEFAULT_SETTINGS file h).2.
Proof.
  intros file h.
  apply (handleSyncFilenameToHeading_idempotent DEFAULT_SETTINGS file h).
  refine (bool_decide_unpack _ _). vm_compute. exact I.
Defined.

End Resync.

(** ** The file name asked for *)

Section Slug.
Local Open Scope char_scope.
Local Open Scope nat_scope.

Lemma handleSyncHeadingToFilename_run st file h :
  handleSyncHeadingToFilename st file h =
  match files h !! path file with
  | None => (Return (), h)
  | Some data =>
      let lines := Js.splitLines data in
      (Return (),
       if decide (getHeadingLine lines ≠ (-1)%Z) then
         let h1 := addNotices (deserializeNotices (userIllegalSymbols st)) h in
         match sanitized st
                 (default ""%string (lines !! Z.to_nat (getHeadingLine lines)))
         with
         | Throw e => h1
         | Return t =>
             mkHost (files h) (fileCache h) (notices h1)
               (renames h ++
                [(path file,
                  (default "undefined" (parent file) +:+ "/" +:+
                   substitute " " "-" (Js.toLowerCase t) +:+ ".md")%string)])
         end
       else (handleSyncFilenameToHeading st file h).2)
  end.
Proof.
  unfold handleSyncHeadingToFilename, vaultReadThen.
  destruct (files h !! path file) as [data|]; [|done]. cbn zeta.
  destruct (decide _); [|done].
  unfold mbind, action_bind. rewrite sanitizeHeading_run.
  destruct (sanitized _ _) as [t|e]; [|done].
  by rewrite replace_spaces, toLowerCase_substitute.
Qed.

(** X6. A heading line made of the marker, stock symbols and blanks only,
    such as the marker alone, sanitizes to the empty string: the sync of
    the heading to the file name then asks for the name .md in the
    parent folder. *)
Theorem handleSyncHeadingToFilename_empty_heading (st : Settings)
    (file : TFile) (h : Host) (data line : string) (i : nat) (re : RegExp.t) :
  files h !! path file = Some data →
  getHeadingLine (Js.splitLines data) = Z.of_nat i →
  Js.splitLines data !! i = Some line →
  Forall (λ c, stockSymbol c = true ∨ blank c) (Js.units line) →
  (deserializeRegExp (userIllegalSymbols st) h).1 = Return re →
  (handleSyncHeadingToFilename st file h).1 = Return () ∧
  renames (handleSyncHeadingToFilename st file h).2 =
  renames h ++
  [(path file, (default "undefined" (parent file) +:+ "/.md")%string)].
Proof.
  intros Hd Hi Hl Hline Hre. rewrite deserializeRegExp_run in Hre.
  cbn [fst] in Hre. rewrite handleSyncHeadingToFilename_run, Hd. cbn zeta.
  rewrite Hi. destruct (decide _) as [_|Hn]; [|destruct Hn; lia].
  rewrite Nat2Z.id, Hl. cbn [default from_option id].
  destruct (sanitized st line) as [t|e] eqn:Hs.
  - apply sanitized_symbols_blanks in Hs as ->; [|done]. done.
  - unfold sanitized in Hs. by rewrite Hre in Hs.
Qed.

Lemma handleSyncHeadingToFilename_empty_heading_witness :
  let file := mkFile "dir/note.md" "note" "md" (Some "dir"%string) in
  let data := ("# " +:+ Js.newline +:+ "body")%string in
  let h := mkHost {[ "dir/note.md"%string := data ]} ∅ [] [] in
  (handleSyncHeadingToFilename DEFAULT_SETTINGS file h).1 = Return () ∧
  renames (handleSyncHeadingToFilename DEFAULT_SETTINGS file h).2 =
  [("dir/note.md", "dir/.md")%string].
Proof.
  intros file data h.
  apply (handleSyncHeadingToFilename_empty_heading DEFAULT_SETTINGS file h
           data "# " 0 fallbackRegExp); try reflexivity.
  apply Forall_cons_2; [by left|].
  apply Forall_cons_2; [by right | apply Forall_nil_2].
Defined.

Lemma toLowerCase_unit (c : ascii) :
  stockSymbol c = false →
  stockSymbol (Char.toLowerCase c) = false ∧
  Char.toLowerCase (Char.toLowerCase c) = Char.toLowerCase c.
Proof.
  destruct c as [[] [] [] [] [] [] [] []]; by vm_compute.
Qed.

Lemma slug_units (t : string) :
  Forall (λ c, stockSymbol c = false) (Js.units t) →
  Forall (λ c, stockSymbol c = false ∧ c ≠ " " ∧ Char.toLowerCase c = c)
         (Js.units (substitute " " "-" (Js.toLowerCase t))).
Proof.
  intros Ht. unfold substitute, Js.toLowerCase.
  rewrite !units_text. apply Forall_fmap, Forall_fmap.
  eapply Forall_impl; [exact Ht|]. intros c Hc. unfold compose.
  destruct (toLowerCase_unit c Hc) as [Hs Hu].
  destruct (Char.eqb " " (Char.toLowerCase c)) eqn:E; [done|].
  apply char_eqb_neq in E. done.
Qed.

(** X7. Where the user setting deserializes and the file holds a heading
    line, the name the sync of the heading to the file name asks for
    holds no stock symbol, a slash in particular, no space and no code
    unit that lower-casing would change: the file stays in its folder.
    The vault is not written. *)
Theorem handleSyncHeadingToFilename_slug (st : Settings) (file : TFile)
    (h : Host) (data : string) (re : RegExp.t) :
  files h !! path file = Some data →
  getHeadingLine (Js.splitLines data) ≠ (-1)%Z →
  (deserializeRegExp (userIllegalSymbols st) h).1 = Return re →
  ∃ slug : string,
    renames (handleSyncHeadingToFilename st file h).2 =
    renames h ++
    [(path file,
      (default "undefined" (parent file) +:+ "/" +:+ slug +:+ ".md")%string)] ∧
    Forall (λ c, stockSymbol c = false ∧ c ≠ " " ∧ Char.toLowerCase c = c)
           (Js.units slug) ∧
    files (handleSyncHeadingToFilename st file h).2 = files h.
Proof.
  intros Hd Hi Hre. rewrite deserializeRegExp_run in Hre. cbn [fst] in Hre.
  rewrite handleSyncHeadingToFilename_run, Hd. cbn zeta.
  destruct (decide _) as [_|Hn]; [|by destruct Hn].
  destruct (sanitized st _) as [t|e] eqn:Hs.
  - exists (substitute " " "-" (Js.toLowerCase t)). split; [done|].
    split; [|done]. apply slug_units. by apply (sanitized_clean _ _ _ Hs).
  - unfold sanitized in Hs. by rewrite Hre in Hs.
Qed.

Lemma handleSyncHeadingToFilename_slug_witness :
  let file := mkFile "dir/my-note.md" "my-note" "md" (Some "dir"%string) in
  let data := ("# A/B: Hello World" +:+ Js.newline +:+ "body")%string in
  let h := mkHost {[ "dir/my-note.md"%string := data ]} ∅ [] [] in
  ∃ slug : string,
    renames (handleSyncHeadingToFilename DEFAULT_SETTINGS file h).2 =
    [] ++ [(path file, ("dir" +:+ "/" +:+ slug +:+ ".md")%string)] ∧
    Forall (λ c, stockSymbol c = false ∧ c ≠ " " ∧ Char.toLowerCase c = c)
           (Js.units slug) ∧
    files (handleSyncHeadingToFilename DEFAULT_SETTINGS file h).2 = files h.
Proof.
  intros file data h.
  apply (handleSyncHeadingToFilename_slug DEFAULT_SETTINGS file h data
           fallbackRegExp);
    [reflexivity | discriminate | reflexivity].
Defined.

End Slug.

(** ** The ignore expressions of the settings *)

Section IgnoreEntries.
Local Open Scope char_scope.
Local Open Scope nat_scope.

Lemma defaultIgnoreRegExp_deserialized (h : Host) :
  deserializeRegExp "/.*.excalidraw.md$/g" h = (Return defaultIgnoreRegExp, h).
Proof.
  rewrite deserializeRegExp_run.
  change (deserialized "/.*.excalidraw.md$/g")
    with (Return defaultIgnoreRegExp).
  change (deserializeNotices "/.*.excalidraw.md$/g") with (@nil string).
  by rewrite addNotices_nil.
Qed.

(** X8. With the default settings [ignoreFile] always returns, shows no
    notice, and ignores a file exactly when its extension is neither md
    nor markdown, or one of the two markers is truthy, or its path ends
    with any code unit, excalidraw, any code unit and md: the dots of the
    default expression are not escaped, so that my-excalidraw.md is
    ignored, and a file excalidraw.md at the root of the vault is not. *)
Theorem ignoreFile_default_settings (file : TFile) (h : Host) :
  ∃ b : bool,
    ignoreFile DEFAULT_SETTINGS file h = (Return b, h) ∧
    (b = true ↔
       (extension file ≠ "md"%string ∧ extension file ≠ "markdown"%string) ∨
       hasMarker h file "excalidraw-plugin" ∨
       hasMarker h file "kanban-plugin" ∨
       excalidrawPath (path file)).
Proof.
  rewrite ignoreFile_run.
  destruct (negb (String.eqb (extension file) "md")
            && negb (String.eqb (extension file) "markdown")) eqn:Ee.
  { exists true. split; [done|]. split; [|done]. intros _. left.
    apply andb_true_iff in Ee as [E1%negb_true_iff E2%negb_true_iff].
    by apply String.eqb_neq in E1, E2. }
  assert (Hext : ¬ (extension file ≠ "md"%string ∧
                    extension file ≠ "markdown"%string)).
  { intros [E1%String.eqb_neq E2%String.eqb_neq]. by rewrite E1, E2 in Ee. }
  pose proof (hasMarker_marked h file "excalidraw-plugin") as He.
  pose proof (hasMarker_marked h file "kanban-plugin") as Hk.
  destruct (marked h file "excalidraw-plugin").
  { exists true. split; [done|]. split; [|done]. intros _. right. left.
    by apply He. }
  destruct (marked h file "kanban-plugin").
  { exists true. split; [done|]. split; [|done]. intros _. right. right.
    left. by apply Hk. }
  cbn [DEFAULT_SETTINGS fileIgnoreRegexen ignoredByRegexen].
  unfold mbind, action_bind. rewrite defaultIgnoreRegExp_deserialized.
  pose proof (default_exec (path file)) as Hd.
  destruct (Js.exec defaultIgnoreRegExp (path file)) as [m|].
  - exists true. split; [done|]. split; [|done]. intros _. do 3 right.
    by apply Hd.
  - exists false. split; [done|]. split; [done|].
    intros [?|[Hm|[Hm|Hm]]]; [done|..].
    + by apply He in Hm.
    + by apply Hk in Hm.
    + apply Hd in Hm. by destruct Hm.
Qed.

(** The default expression on three paths. *)
Example ignoreFile_default_settings_examples :
  let file (p : string) := mkFile p "n" "md" (Some "/"%string) in
  ignoreFile DEFAULT_SETTINGS (file "notes/my-excalidraw.md"%string) quietHost
  = (Return true, quietHost) ∧
  ignoreFile DEFAULT_SETTINGS (file "excalidraw.md"%string) quietHost
  = (Return false, quietHost) ∧
  ignoreFile DEFAULT_SETTINGS (file "drawing.excalidraw.md"%string) quietHost
  = (Return true, quietHost).
Proof. by vm_compute. Qed.

Lemma addNotices_app a b h :
  addNotices b (addNotices a h) = addNotices (a ++ b) h.
Proof. unfold addNotices. cbn. by rewrite <- app_assoc. Qed.

Lemma ignoredByRegexen_malformed regexen file h :
  Forall (λ r, Forall (λ c, c ≠ "/") (Js.units r)) regexen →
  path file ≠ ""%string →
  ignoredByRegexen regexen file h
  = (Return false, addNotices (invalidNotice <$> regexen) h).
Proof.
  intros Hall Hp. revert h.
  induction Hall as [|r rest Hr _ IH]; intros h;
    cbn [ignoredByRegexen fmap list_fmap].
  - by rewrite addNotices_nil.
  - unfold mbind, action_bind. rewrite deserializeRegExp_malformed by done.
    rewrite fallback_exec, decide_False by done.
    rewrite IH. by rewrite addNotices_app.
Qed.

(** X9. Ignore expressions without a slash never ignore a file: each is
    answered with a notice, at every call, and for a markdown file
    without marker [ignoreFile] returns false. *)
Theorem ignoreFile_malformed_entries (st : Settings) (file : TFile) (h : Host) :
  Forall (λ r, Forall (λ c, c ≠ "/") (Js.units r)) (fileIgnoreRegexen st) →
  path file ≠ ""%string →
  extension file = "md"%string ∨ extension file = "markdown"%string →
  ¬ hasMarker h file "excalidraw-plugin" →
  ¬ hasMarker h file "kanban-plugin" →
  ignoreFile st file h
  = (Return false, addNotices (invalidNotice <$> fileIgnoreRegexen st) h).
Proof.
  intros Hall Hp Hext He Hk. rewrite ignoreFile_run.
  rewrite hasMarker_marked in He, Hk.
  apply not_true_is_false in He, Hk. rewrite He, Hk.
  replace (negb (String.eqb (extension file) "md")
           && negb (String.eqb (extension file) "markdown")) with false
    by (by destruct Hext as [-> | ->]).
  by apply ignoredByRegexen_malformed.
Qed.

Lemma ignoreFile_malformed_entries_witness :
  let st := mkSettings "" ["excalidraw"; ".*"]%string in
  let file := mkFile "a.excalidraw.md" "a.excalidraw" "md" (Some "/"%string) in
  ignoreFile st file quietHost
  = (Return false,
     addNotices [invalidNotice "excalidraw"; invalidNotice ".*"] quietHost).
Proof.
  intros st file.
  apply (ignoreFile_malformed_entries st file quietHost).
  - repeat (apply Forall_cons_2; [by apply Forall_forall; intros c Hc;
      repeat (apply elem_of_cons in Hc as [->|Hc]; [done|]);
      apply elem_of_nil in Hc|]). apply Forall_nil_2.
  - discriminate.
  - by left.
  - by intros (cache & fm & v & Hc & _).
  - by intros (cache & fm & v & Hc & _).
Defined.

End IgnoreEntries.

(** ** The event handlers *)

Section Handlers.
Local Open Scope nat_scope.

Lemma confinedTo_refl p h : confinedTo p h h.
Proof.
  repeat split; try done; [by exists []; rewrite app_nil_r|].
  exists []. by rewrite app_nil_r.
Qed.

Lemma confinedTo_trans p h1 h2 h3 :
  confinedTo p h1 h2 → confinedTo p h2 h3 → confinedTo p h1 h3.
Proof.
  intros (Hc1 & Hf1 & Hp1 & (n1 & Hn1) & (r1 & Hr1 & Ha1))
         (Hc2 & Hf2 & Hp2 & (n2 & Hn2) & (r2 & Hr2 & Ha2)).
  split; [congruence|]. split; [intros q Hq; rewrite Hf2, Hf1; done|].
  split; [by rewrite Hp2|]. split.
  - exists (n1 ++ n2). by rewrite Hn2, Hn1, app_assoc.
  - exists (r1 ++ r2). split; [by rewrite Hr2, Hr1, app_assoc|].
    by apply Forall_app.
Qed.

Lemma confinedTo_addNotices p ns h : confinedTo p h (addNotices ns h).
Proof.
  repeat split; try done; [by exists ns|]. exists []. by rewrite app_nil_r.
Qed.

Lemma ignoredByRegexen_host regexen file h :
  ∃ ns, (ignoredByRegexen regexen file h).2 = addNotices ns h.
Proof.
  revert h. induction regexen as [|r rest IH]; intros h; cbn [ignoredByRegexen].
  - exists []. by rewrite addNotices_nil.
  - unfold mbind, action_bind. rewrite deserializeRegExp_run.
    destruct (deserialized r) as [re|e]; [|by eexists].
    destruct (Js.exec re (path file)); [by eexists|].
    destruct (IH (addNotices (deserializeNotices r) h)) as [ns ->].
    eexists. apply addNotices_app.
Qed.

Lemma ignoreFile_host st file h :
  ∃ ns, (ignoreFile st file h).2 = addNotices ns h.
Proof.
  rewrite ignoreFile_run.
  destruct (_ && _); [by exists []; rewrite addNotices_nil|].
  destruct (marked _ _ _); [by exists []; rewrite addNotices_nil|].
  destruct (marked _ _ _); [by exists []; rewrite addNotices_nil|].
  apply ignoredByRegexen_host.
Qed.

Lemma handleSyncFilenameToHeading_confined st file h :
  confinedTo (path file) h (handleSyncFilenameToHeading st file h).2 ∧
  renames (handleSyncFilenameToHeading st file h).2 = renames h.
Proof.
  split; [|apply handleSyncFilenameToHeading_no_rename].
  rewrite handleSyncFilenameToHeading_run. cbn zeta.
  destruct (sanitized _ _) as [t|e]; [|apply confinedTo_addNotices].
  destruct (decide _); [apply confinedTo_addNotices|].
  destruct (headingFor t) as [heading|e]; [|apply confinedTo_addNotices].
  destruct (files h !! path file) as [data|] eqn:Hd;
    [|apply confinedTo_addNotices].
  cbn [snd]. repeat split; cbn [files fileCache notices renames addNotices].
  - intros q Hq. by rewrite lookup_insert_ne.
  - by rewrite Hd.
  - by rewrite lookup_insert_eq.
  - by eexists.
  - exists []. by rewrite app_nil_r.
Qed.

Lemma handleSyncHeadingToFilename_confined st file h :
  confinedTo (path file) h (handleSyncHeadingToFilename st file h).2 ∧
  (files (handleSyncHeadingToFilename st file h).2 = files h ∨
   renames (handleSyncHeadingToFilename st file h).2 = renames h).
Proof.
  rewrite handleSyncHeadingToFilename_run.
  destruct (files h !! path file) as [data|] eqn:Hd;
    [|split; [apply confinedTo_refl | by left]].
  cbn zeta. cbn [snd]. destruct (decide _).
  - destruct (sanitized _ _) as [t|e];
      [|split; [apply confinedTo_addNotices | by left]].
    split; [|by left].
    repeat split; cbn [snd files fileCache notices renames addNotices];
      try done; [by eexists|].
    eexists. split; [done|]. by repeat constructor.
  - destruct (handleSyncFilenameToHeading_confined st file h) as [Hc Hr].
    split; [done | by right].
Qed.

(** X10. An event on a file that is no markdown file, or whose front
    matter holds a truthy marker of one of the two plugins, is answered by
    nothing at all: no write, no rename request, no notice, whatever the
    settings are. *)
Theorem events_foreign_file (st : Settings) (file : TFile) (h : Host) :
  (extension file ≠ "md"%string ∧ extension file ≠ "markdown"%string) ∨
  hasMarker h file "excalidraw-plugin" ∨ hasMarker h file "kanban-plugin" →
  onFileOpen st file h = (Return (), h) ∧
  onRename st file h = (Return (), h) ∧
  onModify st file h = (Return (), h).
Proof.
  intros H.
  assert (E : ignoreFile st file h = (Return true, h)).
  { rewrite ignoreFile_run.
    destruct H as [[E1 E2]|H].
    { apply String.eqb_neq in E1, E2. by rewrite E1, E2. }
    destruct (_ && _); [done|].
    destruct H as [H%hasMarker_marked|H%hasMarker_marked].
    - by rewrite H.
    - rewrite H. by destruct (marked h file "excalidraw-plugin"). }
  unfold onFileOpen, onRename, onModify, mbind, action_bind. by rewrite E.
Qed.

Lemma events_foreign_file_witness :
  let st := mkSettings "/(/g" ["/(/g"]%string in
  let file := mkFile "board.md" "board" "md" (Some "/"%string) in
  let fm : gmap string Value :=
    {[ "kanban-plugin"%string := VString "basic" ]} in
  let h := mkHost {[ "board.md"%string := "# Board"%string ]}
                  {[ "board.md"%string := mkCache (Some fm) ]} [] [] in
  onFileOpen st file h = (Return (), h) ∧
  onRename st file h = (Return (), h) ∧
  onModify st file h = (Return (), h).
Proof.
  intros st file fm h. apply (events_foreign_file st file h).
  right. right. by exists (mkCache (Some fm)), fm, (VString "basic").
Defined.

(** X11. What an event handler does stays with the file of the event: the
    other files and the metadata cache are as before, the file is neither
    created nor deleted, notices and rename requests are only added, the
    requests for this file.  The handlers of file-open and rename ask for
    no rename, and the handler of modify never both writes and asks for a
    rename. *)
Theorem events_confined (st : Settings) (file : TFile) (h : Host) :
  (confinedTo (path file) h (onFileOpen st file h).2 ∧
   renames (onFileOpen st file h).2 = renames h) ∧
  (confinedTo (path file) h (onRename st file h).2 ∧
   renames (onRename st file h).2 = renames h) ∧
  (confinedTo (path file) h (onModify st file h).2 ∧
   (files (onModify st file h).2 = files h ∨
    renames (onModify st file h).2 = renames h)).
Proof.
  destruct (ignoreFile_host st file h) as [ns Hh].
  unfold onFileOpen, onRename, onModify, mbind, action_bind.
  destruct (ignoreFile st file h) as [[[]|e] h1] eqn:E; cbn [snd] in Hh;
    subst h1; cbn [negb snd].
  - pose proof (confinedTo_addNotices (path file) ns h) as Hn.
    split; [done|]. split; [done|]. split; [done | by left].
  - destruct (handleSyncFilenameToHeading_confined st file (addNotices ns h))
      as [Hc Hr].
    destruct (handleSyncHeadingToFilename_confined st file (addNotices ns h))
      as [Hc' Hr'].
    pose proof (confinedTo_addNotices (path file) ns h) as Hn.
    assert (Hsync : confinedTo (path file) h
                      (handleSyncFilenameToHeading st file (addNotices ns h)).2)
      by exact (confinedTo_trans _ _ _ _ Hn Hc).
    split; [done|]. split; [done|].
    split; [exact (confinedTo_trans _ _ _ _ Hn Hc') | exact Hr'].
  - pose proof (confinedTo_addNotices (path file) ns h) as Hn.
    split; [done|]. split; [done|]. split; [done | by left].
Qed.

End Handlers.

(** ** The text of an expression *)

Section Serializing.
Import RegExp.
Local Open Scope char_scope.
Local Open Scope nat_scope.

Lemma addNotices_inv ns h : addNotices ns h = h → ns = [].
Proof.
  unfold addNotices. destruct h as [f c n r]. cbn. intros [= H].
  apply (app_inv_head n). by rewrite app_nil_r.
Qed.

Lemma ignoredFiles_run regex files h :
  ignoredFiles regex files h =
  match deserialized regex with
  | Return re =>
      (Return (matching re files),
       addNotices
         (mjoin (replicate (length files) (deserializeNotices regex))) h)
  | Throw e =>
      match files with
      | [] => (Return [], h)
      | _ :: _ => (Throw e, h)
      end
  end.
Proof.
  revert h. induction files as [|file rest IH]; intros h; cbn [ignoredFiles].
  - destruct (deserialized regex); cbn; by rewrite ?addNotices_nil.
  - unfold mbind, action_bind. rewrite deserializeRegExp_run, IH.
    destruct (deserialized regex) as [re|e] eqn:E.
    + cbn [length replicate mjoin list_join]. rewrite addNotices_app.
      unfold matching. rewrite (filter_cons _ file).
      destruct (Js.exec re (path file)) eqn:Em.
      * by rewrite decide_True by done.
      * rewrite decide_False; [done|]. by intros [? ?].
    + by rewrite (deserialized_throws_quiet _ _ E), addNotices_nil.
Qed.

Lemma updateIgnoredFiles_run regex files h :
  updateIgnoredFiles regex files h =
  match deserialized regex with
  | Return re =>
      (Return (listed (matching re files)),
       addNotices
         (mjoin (replicate (length files) (deserializeNotices regex))) h)
  | Throw e =>
      match files with
      | [] => (Return (listed []), h)
      | _ :: _ => (Throw e, h)
      end
  end.
Proof.
  unfold updateIgnoredFiles, mbind, action_bind. rewrite ignoredFiles_run.
  destruct (deserialized regex); [done|]. by destruct files.
Qed.

Lemma parseFlags_flagsOf (re : RegExp.t) :
  parseFlags (Js.units (Js.flagsOf re)) noFlags = Return (flags re).
Proof. destruct re as [r n [[] [] [] [] [] []]]; reflexivity. Qed.

Lemma flagsOf_flagUnit (re : RegExp.t) :
  Forall flagUnit (Js.units (Js.flagsOf re)).
Proof.
  destruct re as [r n [[] [] [] [] [] []]]; cbn;
    repeat (apply Forall_cons_2; [reflexivity|]); apply Forall_nil_2.
Qed.

Lemma source_returns (p src : string) :
  Js.source p = Return src →
  Forall lineUnit (Js.units src) ∧
  Forall (λ c, c ≠ "/") (Js.units src) ∧
  parsePattern (Js.units src) = parsePattern (Js.units p).
Proof.
  unfold Js.source. destruct (String.eqb p "") eqn:Ep.
  - apply String.eqb_eq in Ep as ->. intros [= <-].
    split; [|split; [|reflexivity]];
      repeat (apply Forall_cons_2; [done|]); apply Forall_nil_2.
  - destruct (forallb _ _) eqn:Ef; [|done]. intros [= <-].
    split; [|split; [|done]].
    + apply Forall_forall. intros c Hc.
      rewrite forallb_forall in Ef. apply list_elem_of_In in Hc.
      apply Ef in Hc. apply andb_true_iff in Hc as [_ Hc].
      by apply negb_true_iff in Hc.
    + apply Forall_forall. intros c Hc.
      rewrite forallb_forall in Ef. apply list_elem_of_In in Hc.
      apply Ef in Hc. apply andb_true_iff in Hc as [Hc _].
      apply negb_true_iff in Hc. by apply char_eqb_neq in Hc.
Qed.

(** The text of an expression is taken apart into the expression. *)
Lemma toString_deserialized (P F : option string) (re : RegExp.t)
    (s : string) (h : Host) :
  Js.newRegExp P F = Return re → Js.toString P re = Return s →
  deserializeRegExp s h = (Return re, h).
Proof.
  unfold Js.toString, Js.newRegExp, create. intros Hre Hs.
  destruct (Js.source (default ""%string P)) as [src|] eqn:Esrc; [|done].
  injection Hs as <-.
  destruct (source_returns _ _ Esrc) as (Hl & _ & Hp).
  rewrite deserializeRegExp_serialized by (done || apply flagsOf_flagUnit).
  unfold Js.newRegExp, create. cbn [default from_option id].
  rewrite parseFlags_flagsOf, Hp. cbn [mbind completion_bind].
  destruct (parseFlags _ noFlags) as [fl|]; [|done].
  cbn [mbind completion_bind] in Hre.
  destruct (parsePattern _) as [r|]; [|done].
  cbn [mbind completion_bind] in Hre |- *. by injection Hre as <-.
Qed.

Lemma deserialized_created (value : string) (re : RegExp.t) :
  deserialized value = Return re →
  ∃ F, Js.newRegExp (deserializedPattern value) F = Return re.
Proof.
  unfold deserialized, deserializedPattern.
  destruct (Js.match_ value serializedRegExp) as [m|].
  - intros H. by eexists.
  - intros [= <-]. exists (Some "g"%string). apply fallbackRegExp_created.
Qed.

Lemma deserializedToString_run (value : string) (h : Host) :
  deserializedToString value h =
  (deserialized value ≫= Js.toString (deserializedPattern value),
   addNotices (deserializeNotices value) h).
Proof.
  unfold deserializedToString, mbind at 1, action_bind.
  rewrite deserializeRegExp_run. by destruct (deserialized value).
Qed.

(** The text the settings tab stores is taken apart, without a notice,
    into the expression the typed text was taken apart into. *)
Lemma deserializedToString_returns (value s : string) (h h' : Host) :
  deserializedToString value h = (Return s, h') →
  h' = (deserializeRegExp value h).2 ∧
  (∃ src fl, s = ("/" +:+ src +:+ "/" +:+ fl)%string ∧
             Forall (λ c, c ≠ "/") (Js.units src) ∧
             Forall flagUnit (Js.units fl)) ∧
  ∀ h1, deserializeRegExp s h1 = ((deserializeRegExp value h).1, h1).
Proof.
  rewrite deserializedToString_run, deserializeRegExp_run. cbn [fst snd].
  destruct (deserialized value) as [re|] eqn:E; [|done].
  cbn [mbind completion_bind]. intros [= Hs <-]. split; [done|].
  split.
  - unfold Js.toString in Hs.
    destruct (Js.source _) as [src|] eqn:Esrc; [|done]. injection Hs as <-.
    exists src, (Js.flagsOf re). split; [done|].
    split; [by apply (source_returns _ _ Esrc) | apply flagsOf_flagUnit].
  - intros h1. destruct (deserialized_created _ _ E) as [F HF].
    by apply (toString_deserialized (deserializedPattern value) F).
Qed.

End Serializing.

(** ** The settings tab *)

Section SettingsTab.
Import RegExp.
Local Open Scope nat_scope.

Lemma mjoin_replicate_singleton {A} (n : nat) (x : A) :
  mjoin (replicate n [x]) = replicate n x.
Proof. induction n as [|n IH]; [done|]. cbn. by rewrite <- IH. Qed.

Lemma deserializeRegExp_quiet (regex : string) (c : Completion RegExp.t)
    (h : Host) :
  deserializeRegExp regex h = (c, h) →
  deserialized regex = c ∧ deserializeNotices regex = [].
Proof.
  rewrite deserializeRegExp_run. intros [= Hc Hh]. split; [done|].
  by apply addNotices_inv in Hh.
Qed.

Lemma matching_fallback (files : list TFile) :
  matching fallbackRegExp files = filter (λ file, path file = ""%string) files.
Proof.
  unfold matching. apply list_filter_iff. intros file.
  rewrite fallback_exec. destruct (decide _); split; try done.
Qed.

(** X12. [updateIgnoredFiles] deserializes its expression once for every
    file.  For an expression that is taken apart without a notice, the
    text area lists the files whose path it matches, in their order.  For
    a text without a slash, a notice is shown for every file of the vault
    and only files with an empty path are listed.  On an expression the
    constructor rejects, the call throws as soon as there is a file. *)
Theorem updateIgnoredFiles_spec (regex : string) (files : list TFile)
    (h : Host) :
  (∀ re, deserializeRegExp regex h = (Return re, h) →
     updateIgnoredFiles regex files h
     = (Return (listed (matching re files)), h)) ∧
  (Forall (λ c, c ≠ "/"%char) (Js.units regex) →
     updateIgnoredFiles regex files h
     = (Return (listed (filter (λ file, path file = ""%string) files)),
        addNotices (replicate (length files) (invalidNotice regex)) h)) ∧
  (∀ e, (deserializeRegExp regex h).1 = Throw e → files ≠ [] →
     updateIgnoredFiles regex files h = (Throw e, h)).
Proof.
  rewrite updateIgnoredFiles_run. split; [|split].
  - intros re [-> ->]%deserializeRegExp_quiet.
    change (mjoin (replicate (length files) [])) with
      (mjoin (replicate (length files) (@nil string))).
    replace (mjoin (replicate (length files) (@nil string))) with (@nil string)
      by (induction (length files); by cbn).
    by rewrite addNotices_nil.
  - intros Hs. pose proof (deserializeRegExp_malformed regex h Hs) as H.
    rewrite deserializeRegExp_run in H. injection H as -> Hn.
    assert (Hd : deserializeNotices regex = [invalidNotice regex]).
    { unfold addNotices in Hn. destruct h as [f c n r]. cbn in Hn.
      by apply app_inv_head in Hn. }
    by rewrite Hd, mjoin_replicate_singleton, matching_fallback.
  - intros e. rewrite deserializeRegExp_run. cbn [fst]. intros -> Hf.
    by destruct files.
Qed.

Lemma updateIgnoredFiles_spec_witness :
  let file (p : string) := mkFile p "n" "md" (Some "/") in
  let files := [file "a.md"; file "x/excalidraw.md"; file "excalidraw.md"] in
  updateIgnoredFiles "/.*.excalidraw.md$/g" files quietHost
  = (Return ("This regex ignores the following files:" +:+ Js.newline +:+
             "x/excalidraw.md")%string, quietHost) ∧
  updateIgnoredFiles "excalidraw" files quietHost
  = (Return "This regex ignores the following files:"%string,
     addNotices (replicate 3 (invalidNotice "excalidraw")) quietHost) ∧
  updateIgnoredFiles "/(/g" files quietHost = (Throw SyntaxError, quietHost).
Proof.
  intros file files.
  destruct (updateIgnoredFiles_spec "/.*.excalidraw.md$/g" files quietHost)
    as (H1 & _ & _).
  destruct (updateIgnoredFiles_spec "excalidraw" files quietHost)
    as (_ & H2 & _).
  destruct (updateIgnoredFiles_spec "/(/g" files quietHost) as (_ & _ & H3).
  split; [exact (H1 defaultIgnoreRegExp eq_refl)|].
  split; [|exact (H3 SyntaxError eq_refl ltac:(discriminate))].
  apply H2. refine (bool_decide_unpack _ _). vm_compute. exact I.
Defined.

Lemma empty_pattern_exec (fl : Flags) (s : string) :
  Js.exec (mk Empty 0 fl) s = Some [Some ""%string].
Proof.
  unfold Js.exec, exec. destruct (Js.units s) as [|c l]; cbn [search];
    unfold matchAt; cbn [compile pattern]; cbn [result matched submatches];
    by rewrite Nat.sub_diag.
Qed.

Lemma matching_empty_pattern (fl : Flags) (files : list TFile) :
  matching (mk Empty 0 fl) files = files.
Proof.
  unfold matching. induction files as [|file rest IH]; [done|].
  rewrite filter_cons, IH, decide_True; [done|].
  by rewrite empty_pattern_exec.
Qed.

Lemma userIllegalSymbolsChanged_run st value h :
  userIllegalSymbolsChanged st value h =
  match deserializedToString value h with
  | (Return s, h') =>
      (Return (mkSettings s (fileIgnoreRegexen st),
               if bool_decide (s = "/(?:)/g"%string ∨ s = "/(?:)/"%string)
               then "//g"%string else s), h')
  | (Throw e, h') => (Throw e, h')
  end.
Proof.
  unfold userIllegalSymbolsChanged, mbind, action_bind.
  by destruct (deserializedToString value h) as [[s|e] h'].
Qed.

(** X13. Whatever is typed into the field of the custom illegal symbols,
    the setting that is stored is a text of the form slash, source, slash,
    flags: it is taken apart without a notice into the very expression
    the typed text was taken apart into, so that [sanitizeHeading]
    returns what it returned for the typed text and shows no notice any
    more.  The ignore expressions are left as they were. *)
Theorem userIllegalSymbolsChanged_stored (st st' : Settings)
    (value shown : string) (h h' : Host) :
  userIllegalSymbolsChanged st value h = (Return (st', shown), h') →
  fileIgnoreRegexen st' = fileIgnoreRegexen st ∧
  h' = (deserializeRegExp value h).2 ∧
  (∀ h1, deserializeRegExp (userIllegalSymbols st') h1
         = ((deserializeRegExp value h).1, h1)) ∧
  (∀ heading h1,
     sanitizeHeading st' heading h1
     = ((sanitizeHeading (mkSettings value (fileIgnoreRegexen st)) heading h).1,
        h1)).
Proof.
  rewrite userIllegalSymbolsChanged_run.
  destruct (deserializedToString value h) as [[s|e] h2] eqn:E; [|done].
  intros [= <- _ <-]. cbn [fileIgnoreRegexen userIllegalSymbols].
  destruct (deserializedToString_returns _ _ _ _ E) as (Hh & _ & Hs).
  split; [done|]. split; [done|]. split; [done|].
  intros heading h1. rewrite !sanitizeHeading_run. cbn [fst].
  destruct (deserializeRegExp_quiet _ _ _ (Hs h1)) as [Hd Hn].
  rewrite deserializeRegExp_run in Hd. cbn [fst] in Hd.
  unfold sanitized. cbn [userIllegalSymbols]. by rewrite Hd, Hn, addNotices_nil.
Qed.

Lemma userIllegalSymbolsChanged_stored_witness :
  let st' := mkSettings "/[0-9]+/gi" ["/.*.excalidraw.md$/g"] in
  fileIgnoreRegexen st' = fileIgnoreRegexen DEFAULT_SETTINGS ∧
  quietHost = (deserializeRegExp "/[0-9]+/ig" quietHost).2 ∧
  (∀ h1, deserializeRegExp (userIllegalSymbols st') h1
         = ((deserializeRegExp "/[0-9]+/ig" quietHost).1, h1)) ∧
  (∀ heading h1,
     sanitizeHeading st' heading h1
     = ((sanitizeHeading
           (mkSettings "/[0-9]+/ig" (fileIgnoreRegexen DEFAULT_SETTINGS))
           heading quietHost).1, h1)).
Proof.
  intros st'.
  exact (userIllegalSymbolsChanged_stored DEFAULT_SETTINGS st' "/[0-9]+/ig"
           "/[0-9]+/gi" quietHost quietHost eq_refl).
Defined.

Lemma deserializedToString_malformed (value : string) (h : Host) :
  Forall (λ c, c ≠ "/"%char) (Js.units value) →
  deserializedToString value h
  = (Return "/$^/g"%string, addNotices [invalidNotice value] h).
Proof.
  intros Hs. unfold deserializedToString, mbind, action_bind.
  rewrite deserializeRegExp_malformed by done.
  unfold deserializedPattern, Js.match_, Js.exec, exec.
  rewrite serialized_search_no_slash; [done|].
  eapply Forall_impl; [exact Hs|]. intros c Hc. apply char_eqb_neq. congruence.
Qed.

Lemma updateIgnoredFiles_all (files : list TFile) (h : Host) :
  updateIgnoredFiles "//g" files h = (Return (listed files), h).
Proof.
  rewrite updateIgnoredFiles_run.
  change (deserialized "//g") with (Return emptyRegExp).
  change (deserializeNotices "//g") with (@nil string).
  replace (mjoin (replicate (length files) (@nil string))) with (@nil string)
    by (induction (length files); by cbn).
  by rewrite addNotices_nil, (matching_empty_pattern globalFlag).
Qed.

(** X14. A text without a slash typed into the field of an ignore
    expression is answered with one notice; the entry stored is the text
    of the fallback expression, which ignores no file with a path, while
    the field shows the empty expression and the text area beside it
    lists every file of the vault. *)
Theorem fileIgnoreRegexChanged_malformed (st : Settings) (files : list TFile)
    (index : nat) (value : string) (h : Host) :
  index < length (fileIgnoreRegexen st) →
  Forall (λ c, c ≠ "/"%char) (Js.units value) →
  fileIgnoreRegexChanged st files index value h =
  (Return (mkSettings (userIllegalSymbols st)
                      (<[index := "/$^/g"%string]> (fileIgnoreRegexen st)),
           "//g"%string, listed files),
   addNotices [invalidNotice value] h) ∧
  ∀ file h1, path file ≠ ""%string →
    ignoredByRegexen ["/$^/g"%string] file h1 = (Return false, h1).
Proof.
  intros _ Hs. split.
  - unfold fileIgnoreRegexChanged, mbind at 1, action_bind.
    rewrite deserializedToString_malformed by done.
    cbn [bool_decide]. unfold mbind, action_bind.
    rewrite bool_decide_true by auto. by rewrite updateIgnoredFiles_all.
  - intros file h1 Hp. cbn [ignoredByRegexen]. unfold mbind, action_bind.
    rewrite deserializeRegExp_run.
    change (deserialized "/$^/g") with (Return fallbackRegExp).
    change (deserializeNotices "/$^/g") with (@nil string).
    by rewrite addNotices_nil, fallback_exec, decide_False.
Qed.

Lemma fileIgnoreRegexChanged_malformed_witness :
  let file (p : string) := mkFile p "n" "md" (Some "/") in
  let files := [file "a.md"; file "b.md"] in
  fileIgnoreRegexChanged DEFAULT_SETTINGS files 0 "excalidraw" quietHost =
  (Return (mkSettings "" ["/$^/g"], "//g",
           "This regex ignores the following files:" +:+ Js.newline +:+
           "a.md" +:+ Js.newline +:+ "b.md")%string,
   addNotices [invalidNotice "excalidraw"] quietHost) ∧
  ∀ file h1, path file ≠ ""%string →
    ignoredByRegexen ["/$^/g"%string] file h1 = (Return false, h1).
Proof.
  intros file files.
  apply (fileIgnoreRegexChanged_malformed DEFAULT_SETTINGS files 0
           "excalidraw" quietHost).
  - cbn. lia.
  - refine (bool_decide_unpack _ _). vm_compute. exact I.
Defined.

(** X15. The entry stored for a text typed into the field of an ignore
    expression is taken apart, without a notice, into the expression the
    typed text was taken apart into; the other entries and the custom
    illegal symbols stay.  Unless the entry is the text of the fallback
    expression, the text area lists the files the stored entry matches. *)
Theorem fileIgnoreRegexChanged_stored (st st' : Settings) (files : list TFile)
    (index : nat) (value shown listing : string) (h h' : Host) :
  index < length (fileIgnoreRegexen st) →
  fileIgnoreRegexChanged st files index value h
  = (Return (st', shown, listing), h') →
  ∃ s : string,
    st' = mkSettings (userIllegalSymbols st)
                     (<[index := s]> (fileIgnoreRegexen st)) ∧
    fileIgnoreRegexen st' !! index = Some s ∧
    h' = (deserializeRegExp value h).2 ∧
    (∀ h1, deserializeRegExp s h1 = ((deserializeRegExp value h).1, h1)) ∧
    (s ≠ "/$^/g"%string →
     ∀ re, (deserializeRegExp s h').1 = Return re →
           listing = listed (matching re files)).
Proof.
  intros Hi. unfold fileIgnoreRegexChanged, mbind at 1, action_bind.
  destruct (deserializedToString value h) as [[s|e] h2] eqn:E; [|done].
  destruct (deserializedToString_returns _ _ _ _ E) as (Hh & _ & Hs).
  unfold mbind, action_bind. rewrite updateIgnoredFiles_run.
  set (shown' := if bool_decide _ then _ else s).
  assert (Hshown : ∃ re',
            deserialized shown' = Return re' ∧ deserializeNotices shown' = [] ∧
            (s ≠ "/$^/g"%string →
             ∀ re, deserialized s = Return re →
                   matching re' files = matching re files)).
  { subst shown'. destruct (bool_decide _) eqn:Eb.
    - exists emptyRegExp. split; [done|]. split; [done|]. intros Hne re Hre.
      change emptyRegExp with (mk Empty 0 globalFlag).
      apply bool_decide_eq_true in Eb as [-> | [-> | ->]]; [| |done];
        vm_compute in Hre; injection Hre as <-;
        by rewrite !matching_empty_pattern.
    - destruct (deserializeRegExp_quiet _ _ _ (Hs h)) as [Hd Hn].
      rewrite deserializeRegExp_run in Hd. cbn [fst] in Hd.
      destruct (deserialized value) as [re0|e] eqn:Ev.
      + exists re0. split; [done|]. split; [done|]. intros _ re Hre.
        rewrite Hd in Hre. by injection Hre as <-.
      + rewrite deserializedToString_run, Ev in E. discriminate E. }
  destruct Hshown as (re' & Hd & Hn & Hm). rewrite Hd, Hn.
  replace (mjoin (replicate (length files) (@nil string))) with (@nil string)
    by (induction (length files); by cbn).
  rewrite addNotices_nil. intros [= <- _ <- <-]. exists s.
  split; [done|]. cbn [fileIgnoreRegexen].
  split; [by apply list_lookup_insert_eq|]. split; [done|]. split; [done|].
  intros Hne re Hre. rewrite deserializeRegExp_run in Hre. cbn [fst] in Hre.
  by rewrite (Hm Hne re Hre).
Qed.

Lemma fileIgnoreRegexChanged_stored_witness :
  let file (p : string) := mkFile p "n" "md" (Some "/") in
  let files := [file "a.md"; file "b.txt"; file "c.md"] in
  ∃ s : string,
    mkSettings "" ["/\.MD$/gi"] =
    mkSettings (userIllegalSymbols DEFAULT_SETTINGS)
               (<[0 := s]> (fileIgnoreRegexen DEFAULT_SETTINGS)) ∧
    fileIgnoreRegexen (mkSettings "" ["/\.MD$/gi"]) !! 0 = Some s ∧
    quietHost = (deserializeRegExp "/\.MD$/ig" quietHost).2 ∧
    (∀ h1, deserializeRegExp s h1
           = ((deserializeRegExp "/\.MD$/ig" quietHost).1, h1)) ∧
    (s ≠ "/$^/g"%string →
     ∀ re, (deserializeRegExp s quietHost).1 = Return re →
           ("This regex ignores the following files:" +:+ Js.newline +:+
            "a.md" +:+ Js.newline +:+ "c.md")%string
           = listed (matching re files)).
Proof.
  intros file files.
  apply (fileIgnoreRegexChanged_stored DEFAULT_SETTINGS
           (mkSettings "" ["/\.MD$/gi"]) files 0 "/\.MD$/ig" "/\.MD$/gi").
  - cbn. lia.
  - reflexivity.
Defined.

(** X16. The button Add Regex puts its entry at the end of the list, and
    the button Remove this Regex of that entry takes it away again: the
    settings are as before.  A removal takes away the entry at its index
    and nothing else; the entries behind it move up by one. *)
Theorem removeRegexClicked_added (st : Settings) :
  removeRegexClicked (addRegexClicked st) (length (fileIgnoreRegexen st)) = st ∧
  ∀ index,
    fileIgnoreRegexen (removeRegexClicked st index)
    = take index (fileIgnoreRegexen st) ++
      drop (S index) (fileIgnoreRegexen st).
Proof.
  destruct st as [u l]. unfold removeRegexClicked, addRegexClicked.
  cbn [userIllegalSymbols fileIgnoreRegexen]. split.
  - f_equal. by rewrite delete_middle, app_nil_r.
  - intros index. apply delete_take_drop.
Qed.

End SettingsTab.

(** ** The two directions together *)

Section Composition.
Local Open Scope nat_scope.

(** X17. After the click on Add Regex, and until the new entry is edited
    or removed, no event leads to a write or a rename request any more,
    as long as the entries already there are taken apart without an
    error. *)
Theorem addRegexClicked_stops_sync (st : Settings) (file : TFile) (h : Host) :
  Forall (λ r, ∃ re, (deserializeRegExp r h).1 = Return re)
         (fileIgnoreRegexen st) →
  (ignoreFile (addRegexClicked st) file h).1 = Return true ∧
  ∀ handler, handler ∈ [onFileOpen; onRename; onModify] →
    (handler (addRegexClicked st) file h).1 = Return () ∧
    files (handler (addRegexClicked st) file h).2 = files h ∧
    renames (handler (addRegexClicked st) file h).2 = renames h.
Proof.
  intros Hall.
  destruct (ignoreFile_after_addRegex st file h) as [h' E].
  { eapply Forall_impl; [exact Hall|]. intros r [re Hre]. exists re.
    by rewrite deserializeRegExp_value in Hre. }
  destruct (ignoreFile_host (addRegexClicked st) file h) as [ns Hh].
  rewrite E in Hh. cbn [snd] in Hh. subst h'.
  split; [by rewrite E|]. intros handler Hin.
  repeat (apply elem_of_cons in Hin as [->|Hin]);
    [| | |by apply elem_of_nil in Hin];
    unfold onFileOpen, onRename, onModify, mbind, action_bind; by rewrite E.
Qed.

Lemma addRegexClicked_stops_sync_witness :
  let file := mkFile "dir/my-note.md" "my-note" "md" (Some "dir"%string) in
  let h := mkHost {[ "dir/my-note.md"%string := "# Hello"%string ]} ∅ [] [] in
  (ignoreFile (addRegexClicked DEFAULT_SETTINGS) file h).1 = Return true ∧
  ∀ handler, handler ∈ [onFileOpen; onRename; onModify] →
    (handler (addRegexClicked DEFAULT_SETTINGS) file h).1 = Return () ∧
    files (handler (addRegexClicked DEFAULT_SETTINGS) file h).2 = files h ∧
    renames (handler (addRegexClicked DEFAULT_SETTINGS) file h).2 = renames h.
Proof.
  intros file h.
  apply (addRegexClicked_stops_sync DEFAULT_SETTINGS file h).
  apply Forall_cons_2; [|apply Forall_nil_2].
  by exists defaultIgnoreRegExp.
Defined.

Lemma slug_unit (c : ascii) :
  let d := Char.toLowerCase c in
  let e := if Char.eqb " " d then "-"%char else d in
  (e = "."%char → c = "."%char) ∧
  (Char.isWhiteSpace c = false → Char.isWhiteSpace e = false).
Proof. destruct c as [[] [] [] [] [] [] [] []]; by vm_compute. Qed.

Lemma slug_fixed (st : Settings) (t : string) :
  Forall (λ c, c ≠ "/"%char) (Js.units (userIllegalSymbols st)) →
  Forall (λ c, stockSymbol c = false) (Js.units t) →
  Js.trim t = t →
  last (Js.units t) ≠ Some "."%char →
  sanitized st (substitute " " "-" (Js.toLowerCase t))
  = Return (substitute " " "-" (Js.toLowerCase t)).
Proof.
  intros Hs Hc Ht Hd.
  pose proof (deserializeRegExp_malformed _ quietHost Hs) as Hf.
  rewrite deserializeRegExp_run in Hf. injection Hf as Hf _.
  assert (Hu : Js.units (substitute " " "-" (Js.toLowerCase t))
               = (λ c, if Char.eqb " " (Char.toLowerCase c) then "-"%char
                       else Char.toLowerCase c) <$> Js.units t).
  { unfold substitute, Js.toLowerCase. rewrite !units_text.
    by rewrite <- list_fmap_compose. }
  apply (sanitized_fixed st _ fallbackRegExp); [done|..].
  - eapply Forall_impl; [apply slug_units, Hc|]. by intros c [? _].
  - rewrite Hu, fmap_last. destruct (last (Js.units t)) as [c|]; [|done].
    cbn. intros [= Hc']. apply slug_unit in Hc'. congruence.
  - apply fallback_replace.
  - apply trim_fixed. pose proof (trim_trimmed t) as [Hh Hl].
    rewrite Ht in Hh, Hl. rewrite Hu. split.
    + destruct (Js.units t) as [|c l]; [done|]. cbn in *.
      by apply slug_unit.
    + rewrite fmap_last. destruct (last (Js.units t)) as [c|]; [|done].
      cbn in *. by apply slug_unit.
Qed.

(** X18. The two directions compose with a loss.  With a user setting that
    holds no slash, the sync of the heading to the file name asks for the
    sanitized heading line in lower case, hyphens for spaces; once the
    file bears that name, the sync of the file name to the heading writes
    over the heading line the heading made from that name, spaces for
    hyphens and its first code unit in upper case: what was in upper case
    or a hyphen in the heading is not restored. *)
Theorem handleSync_round_trip (st : Settings) (file file' : TFile)
    (h h1 h' : Host) (data line t heading : string) (i : nat) :
  Forall (λ c, c ≠ "/"%char) (Js.units (userIllegalSymbols st)) →
  files h !! path file = Some data →
  getHeadingLine (Js.splitLines data) = Z.of_nat i →
  Js.splitLines data !! i = Some line →
  sanitizeHeading st line h = (Return t, h1) →
  t ≠ ""%string →
  last (Js.units t) ≠ Some "."%char →
  headingFor (substitute " " "-" (Js.toLowerCase t)) = Return heading →
  let slug := substitute " " "-" (Js.toLowerCase t) in
  renames (handleSyncHeadingToFilename st file h).2 =
  renames h ++
  [(path file,
    (default "undefined" (parent file) +:+ "/" +:+ slug +:+ ".md")%string)] ∧
  (basename file' = slug → files h' !! path file' = Some data →
   files (handleSyncFilenameToHeading st file' h').2 !! path file' =
   Some (Js.joinLines (<[i := heading]> (Js.splitLines data)))).
Proof.
  intros Hs Hd Hi Hl [Ht _]%sanitizeHeading_returns Hne Hdot Hh slug. split.
  - rewrite handleSyncHeadingToFilename_run, Hd. cbn zeta. rewrite Hi.
    destruct (decide _) as [_|Hn]; [|destruct Hn; lia].
    rewrite Nat2Z.id, Hl. cbn [default from_option id snd]. by rewrite Ht.
  - intros Hb Hd'. rewrite handleSyncFilenameToHeading_run. cbn zeta.
    destruct (sanitized_clean _ _ _ Ht) as [Hc Htrim].
    rewrite Hb. fold slug in Hh. unfold slug at 1.
    rewrite (slug_fixed st t) by done. fold slug.
    rewrite decide_False.
    2:{ unfold slug. rewrite substitute_empty. unfold Js.toLowerCase.
        intros E. apply Hne. rewrite <- (text_units t).
        apply (f_equal Js.units) in E. rewrite units_text in E.
        apply fmap_nil_inv in E. by rewrite E. }
    rewrite Hh, Hd'. cbn [snd files]. rewrite lookup_insert_eq. do 2 f_equal.
    by destruct (placeHeading_found heading _ i Hi) as [-> _].
Qed.

Lemma handleSync_round_trip_witness :
  let file := mkFile "dir/my-note.md" "my-note" "md" (Some "dir"%string) in
  let file' :=
    mkFile "dir/hello-world.md" "hello-world" "md" (Some "dir"%string) in
  let data := ("# Hello World" +:+ Js.newline +:+ "body")%string in
  let h := mkHost {[ "dir/my-note.md"%string := data ]} ∅ [] [] in
  let h' := mkHost {[ "dir/hello-world.md"%string := data ]} ∅ [] [] in
  renames (handleSyncHeadingToFilename DEFAULT_SETTINGS file h).2 =
  [("dir/my-note.md", "dir/hello-world.md")%string] ∧
  files (handleSyncFilenameToHeading DEFAULT_SETTINGS file' h').2
    !! path file' =
  Some ("# Hello world" +:+ Js.newline +:+ "body")%string.
Proof.
  intros file file' data h h'.
  destruct (handleSync_round_trip DEFAULT_SETTINGS file file' h
              (addNotices [invalidNotice ""] h) h' data "# Hello World"
              "Hello World" "# Hello world" 0) as [H1 H2];
    [apply Forall_nil_2 | reflexivity | reflexivity | reflexivity
    | reflexivity | discriminate | discriminate | reflexivity |].
  split; [exact H1 | exact (H2 eq_refl eq_refl)].
Defined.

End Composition.

(** ** Texts around an expression *)

Section Unanchored.
Import RegExp.
Local Open Scope char_scope.
Local Open Scope nat_scope.

Lemma greedyRun_longest P bef u rest caps k z :
  Forall (λ c, P c = true) u →
  from_option P false (head rest) = false →
  k (mkState (reverse u ++ bef) rest caps) = Some z →
  greedyRun P bef (u ++ rest) caps k = Some z.
Proof.
  intros Hu Hr. revert bef. induction Hu as [|c u Hc _ IH]; intros bef Hk.
  - cbn [app]. destruct rest as [|c rest]; cbn [greedyRun]; [done|].
    cbn [head from_option] in Hr. by rewrite Hr.
  - cbn [app greedyRun]. rewrite Hc, (IH (c :: bef)); [done|].
    by rewrite reverse_cons, <- app_assoc in Hk.
Qed.

Lemma flagsGroup_within b f post caps :
  Forall flagUnit f →
  from_option Char.isLower false (head post) = false →
  compile noFlags flagsGroup (mkState b (f ++ post) caps) Some
  = Some (mkState (reverse f ++ b) post (<[2 := Some f]> caps)).
Proof.
  intros Hf Hpost. unfold flagsGroup. rewrite compile_Group, compile_Repeat.
  cbn [groupsOf ahead].
  rewrite (star_oneUnit _ _ _ _ _ _ _ (compile_CharClass_oneUnit _ _ _))
    by (simpl; lia).
  erewrite greedyRun_longest; [|..|reflexivity].
  - unfold closeGroup, consumed. cbn [ahead before captures].
    rewrite length_app.
    replace (length f + length post - length post) with (length f) by lia.
    by rewrite take_app_length.
  - eapply Forall_impl; [exact Hf|]. intros c Hc. unfold flagUnit in Hc.
    unfold setHas. cbn. unfold Char.isLower in Hc. by rewrite Hc.
  - destruct post as [|c post]; [done|]. cbn [head from_option] in *.
    unfold setHas. cbn. unfold Char.isLower in Hpost. by rewrite Hpost.
Qed.

Lemma closing_within b f post caps :
  Forall flagUnit f →
  from_option Char.isLower false (head post) = false →
  closing (mkState b ("/" :: f ++ post) caps)
  = Some (mkState (reverse f ++ "/" :: b) post (<[2 := Some f]> caps)).
Proof.
  intros Hf Hpost. unfold closing. rewrite compile_Char_cons by done.
  rewrite char_eqb_refl. by apply flagsGroup_within.
Qed.

Lemma suffix_head_no_slash (t l : list ascii) :
  Forall (λ c, Char.eqb "/" c = false) l → t `suffix_of` l →
  from_option (Char.eqb "/") false (head t) = false.
Proof.
  intros Hl [k ->]. apply Forall_app in Hl as [_ Hl].
  by destruct Hl as [|c t Hc _].
Qed.

Lemma serialized_unfold bef t :
  matchAt serializedRegExp bef t =
  compile noFlags (Char "/") (mkState bef t [None; None; None])
    (λ y, compile noFlags (Repeat 0 (Some 1) true patternGroup) y closing).
Proof. reflexivity. Qed.

Lemma serialized_matchAt_head bef t :
  from_option (Char.eqb "/") false (head t) = false →
  matchAt serializedRegExp bef t = None.
Proof.
  intros Ht. rewrite serialized_unfold.
  destruct t as [|c t]; [done|]. rewrite compile_Char_cons by done.
  cbn [head from_option] in Ht. by rewrite Ht.
Qed.

(** The optional first group and what follows it, on a text [l] whose
    line-terminator-free start is [p], followed by [rest]. *)
Lemma serialized_optional bef l :
  compile noFlags (Repeat 0 (Some 1) true patternGroup)
    (mkState bef l [None; None; None]) closing =
  match
    greedyRun (λ c, dotAll noFlags || negb (Char.isLineTerminator c)) bef l
      [None; None; None]
      (λ y, if length (ahead y) =? length l then None
            else closing (closeGroup 1 (mkState bef l [None; None; None]) y))
  with
  | Some z => Some z
  | None => closing (mkState bef l [None; None; None])
  end.
Proof.
  rewrite (compile_Repeat_fuel _ _ _ _ _ (S (S (length l)))) by (cbn; lia).
  cbn [groupsOf patternGroup]. rewrite repeatMatcher_optional.
  unfold resetCaptures at 1. cbn [foldr before ahead captures list_insert].
  change (<[1:=None]> [None; None; None])
    with (@nil (option (list ascii)) ++ [None; None; None]).
  cbn [app]. unfold patternGroup. rewrite compile_Group, compile_Repeat.
  cbn [groupsOf ahead].
  by rewrite (star_oneUnit _ _ _ _ _ _ _ (compile_Dot_oneUnit _))
    by (simpl; lia).
Qed.

Lemma serialized_matchAt_within bef p f post :
  Forall lineUnit p → Forall flagUnit f →
  Forall (λ c, Char.eqb "/" c = false) post →
  from_option Char.isLower false (head post) = false →
  matchAt serializedRegExp bef ("/" :: p ++ "/" :: f ++ post)
  = Some (mkState (reverse f ++ "/" :: reverse p ++ "/" :: bef) post
            [None; if decide (p = []) then None else Some p; Some f]).
Proof.
  intros Hp Hf Hpost Hhead. rewrite serialized_unfold.
  rewrite compile_Char_cons by done. rewrite char_eqb_refl.
  rewrite serialized_optional.
  assert (Hfp : Forall (λ c, Char.eqb "/" c = false) (f ++ post)).
  { apply Forall_app. split; [|done].
    eapply Forall_impl; [exact Hf|]. apply flagUnit_not_slash. }
  assert (Hfail : ∀ b t, t `suffix_of` f ++ post →
    (λ y, if length (ahead y) =? length (p ++ "/" :: f ++ post) then None
          else closing
                 (closeGroup 1
                    (mkState ("/" :: bef) (p ++ "/" :: f ++ post)
                       [None; None; None]) y))
      (mkState b t [None; None; None]) = None).
  { intros b t Ht. cbn beta. destruct (_ =? _); [done|].
    apply closing_fail. cbn [closeGroup ahead].
    by eapply suffix_head_no_slash. }
  destruct (decide (p = [])) as [->|Hne].
  - rewrite greedyRun_fail.
    + cbn [app]. rewrite closing_within by done. by rewrite reverse_nil.
    + cbn [app]. intros b t [->|Ht]%suffix_cons_cases; [|by apply Hfail].
      cbn [ahead]. by rewrite Nat.eqb_refl.
  - erewrite greedyRun_found; [done|..].
    + eapply Forall_impl; [exact Hp|]. intros c Hc. unfold lineUnit in Hc.
      cbn. by rewrite Hc.
    + exact Hfail.
    + cbn beta. unfold closeGroup, consumed. cbn [ahead before captures].
      replace (length ("/" :: f ++ post) =? length (p ++ "/" :: f ++ post))
        with false.
      2:{ symmetry. apply Nat.eqb_neq. rewrite length_app.
          destruct p; [done|]. simpl. lia. }
      replace (length (p ++ "/" :: f ++ post) - length ("/" :: f ++ post))
        with (length p) by (rewrite length_app; lia).
      rewrite take_app_length. by rewrite closing_within.
Qed.

Lemma serialized_search_skip bef pre t :
  Forall (λ c, Char.eqb "/" c = false) pre →
  search serializedRegExp bef (pre ++ t)
  = search serializedRegExp (reverse pre ++ bef) t.
Proof.
  intros Hpre. revert bef.
  induction Hpre as [|c pre Hc _ IH]; intros bef; [done|].
  cbn [app search]. rewrite serialized_matchAt_head by done.
  cbn [sticky flags serializedRegExp]. rewrite IH.
  by rewrite reverse_cons, <- app_assoc.
Qed.

(** With a single slash there is no second one for the expression to end
    at. *)
Lemma serialized_matchAt_single bef b :
  Forall (λ c, Char.eqb "/" c = false) b →
  matchAt serializedRegExp bef ("/" :: b) = None.
Proof.
  intros Hb. rewrite serialized_unfold.
  rewrite compile_Char_cons by done. rewrite char_eqb_refl.
  rewrite serialized_optional. rewrite greedyRun_fail.
  - apply closing_fail. by apply (suffix_head_no_slash b b).
  - intros b' t Ht. cbn beta. destruct (_ =? _); [done|].
    apply closing_fail. cbn [closeGroup ahead].
    by eapply suffix_head_no_slash.
Qed.

Lemma no_slash_eqb (l : list ascii) :
  Forall (λ c, c ≠ "/") l → Forall (λ c, Char.eqb "/" c = false) l.
Proof.
  intros H. eapply Forall_impl; [exact H|].
  intros c Hc. apply char_eqb_neq. congruence.
Qed.

(** X19. [deserializeRegExp] looks for its expression anywhere in the text:
    what comes before the first slash and what follows the flags is
    dropped without a notice.  The pattern runs from the first slash to
    the last one, the flags are the lower-case letters that follow it. *)
Theorem deserializeRegExp_embedded (pre p f post : string) (h : Host) :
  Forall (λ c, c ≠ "/") (Js.units pre) →
  Forall lineUnit (Js.units p) →
  Forall flagUnit (Js.units f) →
  Forall (λ c, c ≠ "/") (Js.units post) →
  from_option Char.isLower false (head (Js.units post)) = false →
  deserializeRegExp (pre +:+ "/" +:+ p +:+ "/" +:+ f +:+ post)%string h
  = (Js.newRegExp (Some p) (Some f), h).
Proof.
  intros Hpre Hp Hf Hpost Hhead. rewrite deserializeRegExp_run.
  unfold deserialized, deserializeNotices, Js.match_, Js.exec, exec.
  rewrite !units_app. change (Js.units "/") with ["/"]. cbn [app].
  rewrite serialized_search_skip by by apply no_slash_eqb.
  cbn [search].
  rewrite serialized_matchAt_within by (done || by apply no_slash_eqb).
  cbn [result captures drop map lookup list_lookup mjoin option_join
       option_map].
  rewrite addNotices_nil. f_equal. unfold Js.newRegExp, result.
  cbn [submatches captures drop map lookup list_lookup mjoin option_join
       option_map default].
  f_equal.
  - destruct (decide (Js.units p = [])) as [E|E]; cbn [option_map default].
    + destruct p; [done | discriminate E].
    + by rewrite text_units.
  - by rewrite text_units.
Qed.

Lemma deserializeRegExp_embedded_witness :
  deserializeRegExp "see x/a+/gi, or so" quietHost
  = (Js.newRegExp (Some "a+"%string) (Some "gi"%string), quietHost).
Proof.
  apply (deserializeRegExp_embedded "see x" "a+" "gi" ", or so" quietHost);
    refine (bool_decide_unpack _ _); vm_compute; exact I.
Defined.

(** X20. A text with a single slash is malformed like a text with none:
    the fallback expression and one notice. *)
Theorem deserializeRegExp_single_slash (a b : string) (h : Host) :
  Forall (λ c, c ≠ "/") (Js.units a) →
  Forall (λ c, c ≠ "/") (Js.units b) →
  deserializeRegExp (a +:+ "/" +:+ b)%string h
  = (Return fallbackRegExp,
     addNotices [invalidNotice (a +:+ "/" +:+ b)%string] h).
Proof.
  intros Ha Hb. rewrite deserializeRegExp_run.
  unfold deserialized, deserializeNotices, Js.match_, Js.exec, exec.
  rewrite !units_app. change (Js.units "/") with ["/"]. cbn [app].
  rewrite serialized_search_skip by by apply no_slash_eqb.
  cbn [search]. rewrite serialized_matchAt_single by by apply no_slash_eqb.
  cbn [sticky flags serializedRegExp].
  by rewrite serialized_search_no_slash by by apply no_slash_eqb.
Qed.

Lemma deserializeRegExp_single_slash_witness :
  deserializeRegExp "notes/drafts" quietHost
  = (Return fallbackRegExp,
     addNotices [invalidNotice "notes/drafts"] quietHost).
Proof.
  apply (deserializeRegExp_single_slash "notes" "drafts" quietHost);
    refine (bool_decide_unpack _ _); vm_compute; exact I.
Defined.

End Unanchored.

(** ** The first ignore expression that matches *)

Section FirstMatch.
Local Open Scope nat_scope.

Lemma ignoredByRegexen_first_match front r back back' file h re :
  Forall (λ r', ∃ re', deserialized r' = Return re' ∧
                       Js.exec re' (path file) = None) front →
  deserialized r = Return re → is_Some (Js.exec re (path file)) →
  (ignoredByRegexen (front ++ r :: back) file h).1 = Return true ∧
  ignoredByRegexen (front ++ r :: back') file h
  = ignoredByRegexen (front ++ r :: back) file h.
Proof.
  intros Hfront Hr [m Hm]. revert h.
  induction Hfront as [|r' front (re' & Hre' & Hm') _ IH]; intros h;
    cbn [app ignoredByRegexen]; unfold mbind, action_bind;
    rewrite deserializeRegExp_run.
  - by rewrite Hr, Hm.
  - rewrite Hre', Hm'. apply IH.
Qed.

(** X21. The ignore expressions are tried in their order and the first
    that matches the path ends the loop: [ignoreFile] returns true
    whatever the entries behind it are, which are not even taken apart;
    one the constructor rejects goes unnoticed there. *)
Theorem ignoreFile_first_match (st : Settings) (file : TFile) (h : Host)
    (front back : list string) (r : string) (re : RegExp.t) :
  fileIgnoreRegexen st = front ++ r :: back →
  Forall (λ r', ∃ re', (deserializeRegExp r' h).1 = Return re' ∧
                       Js.exec re' (path file) = None) front →
  (deserializeRegExp r h).1 = Return re →
  is_Some (Js.exec re (path file)) →
  (ignoreFile st file h).1 = Return true ∧
  ∀ back',
    ignoreFile (mkSettings (userIllegalSymbols st) (front ++ r :: back')) file h
    = ignoreFile st file h.
Proof.
  intros Hst Hfront Hr Hm. rewrite deserializeRegExp_value in Hr.
  assert (Hfront' : Forall (λ r', ∃ re', deserialized r' = Return re' ∧
                                         Js.exec re' (path file) = None) front).
  { eapply Forall_impl; [exact Hfront|]. intros r' (re' & Hre' & Hm').
    exists re'. by rewrite deserializeRegExp_value in Hre'. }
  split.
  - rewrite ignoreFile_run, Hst.
    destruct (_ && _); [done|]. destruct (marked _ _ _); [done|].
    destruct (marked _ _ _); [done|].
    by apply (ignoredByRegexen_first_match front r back back file h re).
  - intros back'. rewrite !ignoreFile_run, Hst. cbn [fileIgnoreRegexen].
    destruct (_ && _); [done|]. destruct (marked _ _ _); [done|].
    destruct (marked _ _ _); [done|].
    by apply (ignoredByRegexen_first_match front r back back' file h re).
Qed.

Lemma ignoreFile_first_match_witness :
  let st := mkSettings "" ["/\.txt$/"; "/.*.excalidraw.md$/g"; "/(/g"] in
  let file := mkFile "a.excalidraw.md" "a.excalidraw" "md" (Some "/") in
  (ignoreFile st file quietHost).1 = Return true ∧
  ∀ back',
    ignoreFile
      (mkSettings (userIllegalSymbols st)
                  (["/\.txt$/"] ++ "/.*.excalidraw.md$/g" :: back'))
      file quietHost
    = ignoreFile st file quietHost.
Proof.
  intros st file.
  apply (ignoreFile_first_match st file quietHost ["/\.txt$/"] ["/(/g"]
           "/.*.excalidraw.md$/g" defaultIgnoreRegExp).
  - reflexivity.
  - apply Forall_cons_2; [|apply Forall_nil_2]. by eexists.
  - reflexivity.
  - by eexists.
Defined.

End FirstMatch.

(** ** Typing an expression *)

Section Typing.
Local Open Scope nat_scope.

Lemma deserializedToString_fallback (value : string) (h : Host) :
  deserializeRegExp value h
  = (Return fallbackRegExp, addNotices [invalidNotice value] h) →
  deserializedToString value h
  = (Return "/$^/g", addNotices [invalidNotice value] h).
Proof.
  intros H. unfold deserializedToString, mbind, action_bind. rewrite H.
  rewrite deserializeRegExp_run in H. injection H as _ Hn.
  unfold deserializeNotices, deserializedPattern in *.
  destruct (Js.match_ value serializedRegExp); [|done].
  by apply app_inv_head in Hn.
Qed.

(** X22. An expression cannot be typed into the field of the custom
    illegal symbols one key at a time: as soon as the text of the field is
    one the deserializer answers with its fallback and a notice, a lone
    slash for one, the setting and the field are set to the text of the
    fallback expression. *)
Theorem userIllegalSymbolsChanged_malformed (st : Settings) (value : string)
    (h : Host) :
  deserializeRegExp value h
  = (Return fallbackRegExp, addNotices [invalidNotice value] h) →
  userIllegalSymbolsChanged st value h
  = (Return (mkSettings "/$^/g" (fileIgnoreRegexen st), "/$^/g"),
     addNotices [invalidNotice value] h).
Proof.
  intros H. unfold userIllegalSymbolsChanged, mbind, action_bind.
  by rewrite (deserializedToString_fallback _ _ H).
Qed.

Lemma userIllegalSymbolsChanged_malformed_witness :
  userIllegalSymbolsChanged DEFAULT_SETTINGS "/" quietHost
  = (Return (mkSettings "/$^/g" ["/.*.excalidraw.md$/g"], "/$^/g"),
     addNotices [invalidNotice "/"] quietHost) ∧
  userIllegalSymbolsChanged DEFAULT_SETTINGS "/[0-9]" quietHost
  = (Return (mkSettings "/$^/g" ["/.*.excalidraw.md$/g"], "/$^/g"),
     addNotices [invalidNotice "/[0-9]"] quietHost).
Proof.
  split.
  - exact (userIllegalSymbolsChanged_malformed DEFAULT_SETTINGS "/" quietHost
             eq_refl).
  - exact (userIllegalSymbolsChanged_malformed DEFAULT_SETTINGS "/[0-9]"
             quietHost eq_refl).
Defined.

End Typing.

(** ** A file name in the shape of a slug *)

Section Stable.
Local Open Scope char_scope.
Local Open Scope nat_scope.






End Stable.
